(** * generate_graphs.py: metric derivation and chart driver

    A shallow embedding of [src/generate_graphs.py].  The script reads a
    benchmark table with pandas, derives six families of series from its
    columns and hands them to matplotlib.  The embedding keeps

    - the pandas/numpy operations the script uses (column lookup, [iloc],
      elementwise arithmetic, [Series.mean] with numpy's pairwise sum, row
      slicing with a step),
    - the Python exceptions these operations raise ([KeyError],
      [IndexError], [ValueError], [FileNotFoundError]),
    - the observable effects of the driver: the lines it prints and the
      figures it saves, in order.

    Three pieces of library code are parameters of the development, since
    their behaviour is not fixed by the script: [np.log2] (class [Log2]),
    the parser behind [pd.read_csv] (a [filesystem] gives, for a file, the
    frame pandas makes of it or the exception it raises) and the layout
    and writing of a figure by [plt.tight_layout] and [plt.savefig] (class
    [Pyplot]).  The frames of the model hold doubles: a file whose columns
    pandas reads with dtype [int64] or [float64].  A column of dtype
    [object] (text, integers beyond 64 bits) is outside the model.

    Arithmetic is kept abstract behind the class [Arith] and instantiated
    twice: [binary64], the IEEE 754 doubles numpy computes with (Rocq's
    primitive floats), and [exact], the same special values around
    unrounded real arithmetic, which the script does not compute with and
    which only serves to state what the formulas mean. *)

From Stdlib Require Import ZArith List Bool String Ascii Lia PeanoNat.
From Stdlib Require Import Floats Reals Lra DecimalString.
Import ListNotations.

Set Warnings "-inexact-float".

(** ** Python exceptions and the two effect layers *)

Inductive exn : Type :=
| KeyError (key : string)
| IndexError
| ValueError
| FileNotFoundError (path : string)
| OtherError (name : string).   (* another exception class of pandas or matplotlib *)

Inductive result (A : Type) : Type :=
| Ok (a : A)
| Raise (e : exn).

Arguments Ok {A} a.
Arguments Raise {A} e.

Definition rbind {A B : Type} (m : result A) (k : A -> result B) : result B :=
  match m with
  | Ok a => k a
  | Raise e => Raise e
  end.

Declare Scope py_scope.
Delimit Scope py_scope with py.
Notation "x <- m ;; k" := (rbind m (fun x => k))
  (at level 61, m at next level, right associativity) : py_scope.

(** ** Arithmetic interface *)

Class Arith (F : Type) : Type := {
  of_Z : Z -> F;          (* int -> float64 conversion *)
  fadd : F -> F -> F;
  fmul : F -> F -> F;
  fdiv : F -> F -> F;
  nan : F;
  isnan : F -> bool;
  neg_zero : F            (* -0.0 *)
}.

Class Log2 (F : Type) : Type := {
  np_log2 : F -> F
}.

(** [format(x, '.2f')], as the f-string of the reference-line label uses it. *)
Class Format (F : Type) : Type := {
  format_2f : F -> string
}.

Definition of_nat {F : Type} `{Arith F} (n : nat) : F := of_Z (Z.of_nat n).

Section Model.

Context {F : Type} `{AF : Arith F} `{LF : Log2 F} `{FF : Format F}.

Local Open Scope py_scope.
Local Open Scope string_scope.
Local Open Scope list_scope.

(** ** pandas: Series and DataFrame *)

Definition Series : Type := list F.

(** A frame as [read_csv] delivers it: the header row and the data rows. *)
Record DataFrame : Type := mkDataFrame {
  columns : list string;
  values : list (list F)
}.

Definition len (df : DataFrame) : nat := List.length (values df).

Fixpoint get_loc (key : string) (cols : list string) : option nat :=
  match cols with
  | [] => None
  | c :: cols' =>
      if String.eqb c key then Some 0%nat
      else option_map S (get_loc key cols')
  end.

(** [df[key]]: a short row reads as NaN in the missing cells, as
    [read_csv] pads it. *)
Definition getitem (df : DataFrame) (key : string) : result Series :=
  match get_loc key (columns df) with
  | None => Raise (KeyError key)
  | Some j => Ok (map (fun row => nth j row nan) (values df))
  end.

(** [s.iloc[0]] and [s.iloc[-1]] *)
Definition iloc_first (s : Series) : result F :=
  match s with
  | [] => Raise IndexError
  | x :: _ => Ok x
  end.

Fixpoint iloc_last (s : Series) : result F :=
  match s with
  | [] => Raise IndexError
  | [x] => Ok x
  | _ :: s' => iloc_last s'
  end.

(** [s.iloc[1:]] and [s.iloc[:-1]] *)
Definition iloc_from1 (s : Series) : Series := tl s.
Definition iloc_upto_last (s : Series) : Series := removelast s.

(** Elementwise arithmetic of numpy arrays and of Series sharing an index. *)
Fixpoint elementwise (op : F -> F -> F) (a b : Series) : Series :=
  match a, b with
  | x :: a', y :: b' => op x y :: elementwise op a' b'
  | _, _ => []
  end.

Definition div_scalar (s : Series) (c : F) : Series := map (fun x => fdiv x c) s.
Definition mul_scalar (s : Series) (c : F) : Series := map (fun x => fmul x c) s.
Definition log2_array (s : Series) : Series := map np_log2 s.

(** [Series.mean()] with its default [skipna=True] (pandas' [nanmean]):
    NaN entries are replaced by 0, the array is summed by [ndarray.sum]
    and the sum is divided by the number of entries that are not NaN. *)
Definition fillna0 (s : Series) : Series :=
  map (fun x => if isnan x then of_Z 0 else x) s.

Definition count_notna (s : Series) : nat :=
  List.length (filter (fun x => negb (isnan x)) s).

(** numpy sums a contiguous array of doubles pairwise.  Fewer than 8
    values: one accumulator, started at -0.0, takes them in order. *)
Definition sum_loop (a : Series) : F := fold_left fadd a neg_zero.

(** 8 to 128 values: eight accumulators start as the first eight values
    and take the following groups of eight elementwise; what is left over
    when no full group remains is returned with them. *)
Fixpoint add_groups (r : Series) (a : Series) {struct a} : Series * Series :=
  match a with
  | x0 :: x1 :: x2 :: x3 :: x4 :: x5 :: x6 :: x7 :: a' =>
      add_groups (elementwise fadd r [x0; x1; x2; x3; x4; x5; x6; x7]) a'
  | rest => (r, rest)
  end.

(** The accumulators are added as a balanced tree, then the left-over
    values in order. *)
Definition sum_block (a : Series) : F :=
  match add_groups (firstn 8 a) (skipn 8 a) with
  | ([r0; r1; r2; r3; r4; r5; r6; r7], rest) =>
      fold_left fadd rest
        (fadd (fadd (fadd r0 r1) (fadd r2 r3)) (fadd (fadd r4 r5) (fadd r6 r7)))
  | _ => nan
  end.

(** More than 128 values: the array is split near the middle, at a
    multiple of 8, and the sums of the halves are added.  [depth] bounds
    the recursion; the length of the array is enough. *)
Fixpoint pairwise_sum (depth : nat) (a : Series) : F :=
  let n := List.length a in
  if (n <? 8)%nat then sum_loop a
  else if (n <=? 128)%nat then sum_block a
  else
    match depth with
    | O => nan
    | S d =>
        let n2 := (n / 2 - (n / 2) mod 8)%nat in
        fadd (pairwise_sum d (firstn n2 a)) (pairwise_sum d (skipn n2 a))
    end.

(** [a.sum()]: the reduction starts at -0.0 (numpy 1.25 and later) and
    adds the pairwise sum; the sum of no value is 0.0. *)
Definition np_sum (a : Series) : F :=
  match a with
  | [] => of_Z 0
  | _ :: _ => fadd neg_zero (pairwise_sum (List.length a) a)
  end.

Definition mean (s : Series) : F :=
  match count_notna s with
  | O => nan
  | S _ as n => fdiv (np_sum (fillna0 s)) (of_nat n)
  end.

(** [l[::step]] for a positive step: positions 0, step, 2*step, ... *)
Fixpoint slice_from {A : Type} (step skip : nat) (l : list A) : list A :=
  match l with
  | [] => []
  | x :: l' =>
      match skip with
      | O => x :: slice_from step (step - 1) l'
      | S k => slice_from step k l'
      end
  end.

Definition iloc_step (df : DataFrame) (step : nat) : result DataFrame :=
  match step with
  | O => Raise ValueError
  | S _ => Ok (mkDataFrame (columns df) (slice_from step 0 (values df)))
  end.

(** ** matplotlib: what a figure holds *)

Inductive artist : Type :=
| Line2D (x y : Series) (label : string)
| HLine (y : F) (label : string)
| Bars (x height : Series) (bottom : option Series) (label : string)
| XTickLabels (labels : Series).

Definition figure : Type := list artist.

(** [ax.plot(x, y)] and [ax.loglog(x, y)] refuse arrays of different length. *)
Definition ax_plot (x y : Series) (label : string) : result artist :=
  if Nat.eqb (List.length x) (List.length y) then Ok (Line2D x y label)
  else Raise ValueError.

Definition ax_bar (x height : Series) (bottom : option Series) (label : string)
  : result artist :=
  if Nat.eqb (List.length x) (List.length height)
     && match bottom with
        | None => true
        | Some b => Nat.eqb (List.length b) (List.length height)
        end
  then Ok (Bars x height bottom label)
  else Raise ValueError.

(** ** The derived series, named as the script's local variables *)

(** plot_overall_complexity, line 32 *)
Definition theoretical (df : DataFrame) : result Series :=
  nlogn <- getitem df "n*log(n)" ;;
  n0 <- iloc_first nlogn ;;
  total <- getitem df "Total(ms)" ;;
  t0 <- iloc_first total ;;
  Ok (mul_scalar (div_scalar nlogn n0) t0).

(** plot_sa_vs_lcp, line 65 *)
Definition ratio (df : DataFrame) : result Series :=
  sa <- getitem df "SA(ms)" ;;
  lcp <- getitem df "LCP(ms)" ;;
  Ok (elementwise fdiv sa lcp).

(** plot_logarithmic_scale, lines 93-95 *)
Definition y_n (df : DataFrame) : result Series :=
  x <- getitem df "Size" ;;
  total <- getitem df "Total(ms)" ;;
  t0 <- iloc_first total ;;
  size <- getitem df "Size" ;;
  s0 <- iloc_first size ;;
  Ok (div_scalar (mul_scalar x t0) s0).

Definition y_nlogn (df : DataFrame) : result Series :=
  x <- getitem df "Size" ;;
  total <- getitem df "Total(ms)" ;;
  t0 <- iloc_first total ;;
  size <- getitem df "Size" ;;
  s0 <- iloc_first size ;;
  Ok (div_scalar (mul_scalar (elementwise fmul x (log2_array x)) t0)
                 (fmul s0 (np_log2 s0))).

(** plot_search_performance, lines 117 and 123 *)
Definition search_us (df : DataFrame) : result Series :=
  search <- getitem df "Search(ns)" ;;
  Ok (div_scalar search (of_Z 1000)).

Definition theoretical_logn (df : DataFrame) : result Series :=
  us <- search_us df ;;
  size <- getitem df "Size" ;;
  u_last <- iloc_last us ;;
  s_last <- iloc_last size ;;
  Ok (mul_scalar (log2_array size) (fdiv u_last (np_log2 s_last))).

(** plot_growth_rates, lines 144-154 *)
Definition size_ratios (df : DataFrame) : result Series :=
  size <- getitem df "Size" ;;
  Ok (elementwise fdiv (iloc_from1 size) (iloc_upto_last size)).

Definition time_ratios (df : DataFrame) : result Series :=
  total <- getitem df "Total(ms)" ;;
  Ok (elementwise fdiv (iloc_from1 total) (iloc_upto_last total)).

(** The loop [for i in range(1, len(df))]; [size.iloc[i]] is in range
    there, so the default of [nth] is never read. *)
Definition growth_ratio_at (size : Series) (i : nat) : F :=
  let n1 := nth (i - 1) size nan in
  let n2 := nth i size nan in
  fdiv (fmul n2 (np_log2 n2)) (fmul n1 (np_log2 n1)).

Definition theoretical_ratios (df : DataFrame) : result Series :=
  match len df with
  | O | S O => Ok []
  | S (S _) =>
      size <- getitem df "Size" ;;
      Ok (map (growth_ratio_at size) (seq 1 (len df - 1)))
  end.

Definition x_pos (df : DataFrame) : result Series :=
  size <- getitem df "Size" ;;
  Ok (iloc_from1 size).

(** plot_component_breakdown, lines 179-180 *)
Definition step (df : DataFrame) : nat := Nat.max 1 (len df / 10).

Definition df_subset (df : DataFrame) : result DataFrame :=
  iloc_step df (step df).

(** ** The six chart builders: the figure each one draws *)

Definition overall_complexity_figure (df : DataFrame) : result figure :=
  size <- getitem df "Size" ;;
  total <- getitem df "Total(ms)" ;;
  l1 <- ax_plot size total "Actual Total Time" ;;
  sa <- getitem df "SA(ms)" ;;
  l2 <- ax_plot size sa "SA Construction" ;;
  lcp <- getitem df "LCP(ms)" ;;
  l3 <- ax_plot size lcp "LCP Construction" ;;
  th <- theoretical df ;;
  l4 <- ax_plot size th "O(n log n) theoretical" ;;
  Ok [l1; l2; l3; l4].

Definition sa_vs_lcp_figure (df : DataFrame) : result figure :=
  size <- getitem df "Size" ;;
  sa <- getitem df "SA(ms)" ;;
  l1 <- ax_plot size sa "SA Construction O(n log n)" ;;
  lcp <- getitem df "LCP(ms)" ;;
  l2 <- ax_plot size lcp "LCP Construction O(n)" ;;
  r <- ratio df ;;
  l3 <- ax_plot size r "" ;;
  Ok [l1; l2; l3; HLine (mean r) ("Average Ratio: " ++ format_2f (mean r))].

Definition logarithmic_scale_figure (df : DataFrame) : result figure :=
  size <- getitem df "Size" ;;
  total <- getitem df "Total(ms)" ;;
  l1 <- ax_plot size total "Actual Total Time" ;;
  sa <- getitem df "SA(ms)" ;;
  l2 <- ax_plot size sa "SA Construction" ;;
  lcp <- getitem df "LCP(ms)" ;;
  l3 <- ax_plot size lcp "LCP Construction" ;;
  yn <- y_n df ;;
  ynl <- y_nlogn df ;;
  l4 <- ax_plot size yn "O(n)" ;;
  l5 <- ax_plot size ynl "O(n log n)" ;;
  Ok [l1; l2; l3; l4; l5].

Definition search_performance_figure (df : DataFrame) : result figure :=
  us <- search_us df ;;
  size <- getitem df "Size" ;;
  l1 <- ax_plot size us "Actual Search Time" ;;
  th <- theoretical_logn df ;;
  l2 <- ax_plot size th "O(log n) theoretical" ;;
  Ok [l1; l2].

Definition growth_rates_figure (df : DataFrame) : result figure :=
  _ <- size_ratios df ;;
  tr <- time_ratios df ;;
  thr <- theoretical_ratios df ;;
  xs <- x_pos df ;;
  l1 <- ax_plot xs tr "Actual Growth Rate" ;;
  l2 <- ax_plot xs thr "Expected O(n log n) Growth" ;;
  Ok [l1; l2; HLine (of_Z 1) ""].

Definition component_breakdown_figure (df : DataFrame) : result figure :=
  sub <- df_subset df ;;
  let x := map of_nat (seq 0 (len sub)) in
  sa <- getitem sub "SA(ms)" ;;
  b1 <- ax_bar x sa None "SA Construction" ;;
  lcp <- getitem sub "LCP(ms)" ;;
  base <- getitem sub "SA(ms)" ;;
  b2 <- ax_bar x lcp (Some base) "LCP Construction" ;;
  labels <- getitem sub "Size" ;;
  Ok [b1; b2; XTickLabels labels].

(** ** Effects: printed lines and saved figures *)

Inductive event : Type :=
| Stdout (line : string)
| Saved (path : string) (fig : figure).

Definition io (A : Type) : Type := (list event * result A)%type.

Definition io_ret {A : Type} (a : A) : io A := ([], Ok a).

Definition io_bind {A B : Type} (m : io A) (k : A -> io B) : io B :=
  match m with
  | (out, Ok a) => let (out', r) := k a in (out ++ out', r)
  | (out, Raise e) => (out, Raise e)
  end.

Definition lift {A : Type} (r : result A) : io A := ([], r).
Definition print (line : string) : io unit := ([Stdout line], Ok tt).

(** [plt.tight_layout()] followed by [plt.savefig(path)]: library code
    that writes the file or raises (the layout fails on some figures, the
    directory may be missing).  Its outcome is a parameter. *)
Class Pyplot : Type := {
  tight_layout_savefig : string -> figure -> result unit
}.

Context {PP : Pyplot}.

(** The artifact exists once both calls have returned. *)
Definition savefig (path : string) (fig : figure) : io unit :=
  match tight_layout_savefig path fig with
  | Ok _ => ([Saved path fig], Ok tt)
  | Raise e => ([], Raise e)
  end.

Notation "x <~ m ;; k" := (io_bind m (fun x => k))
  (at level 61, m at next level, right associativity) : py_scope.
Notation "m >> k" := (io_bind m (fun _ => k))
  (at level 61, right associativity) : py_scope.

Definition render (fig : result figure) (output_dir name : string) : io unit :=
  f <~ lift fig ;;
  savefig (output_dir ++ "/" ++ name) f >>
  print ("Saved: " ++ output_dir ++ "/" ++ name).

Definition plot_overall_complexity (df : DataFrame) (output_dir : string) : io unit :=
  render (overall_complexity_figure df) output_dir "overall_complexity.png".

Definition plot_sa_vs_lcp (df : DataFrame) (output_dir : string) : io unit :=
  render (sa_vs_lcp_figure df) output_dir "sa_vs_lcp.png".

Definition plot_logarithmic_scale (df : DataFrame) (output_dir : string) : io unit :=
  render (logarithmic_scale_figure df) output_dir "logarithmic_complexity.png".

Definition plot_search_performance (df : DataFrame) (output_dir : string) : io unit :=
  render (search_performance_figure df) output_dir "search_performance.png".

Definition plot_growth_rates (df : DataFrame) (output_dir : string) : io unit :=
  render (growth_rates_figure df) output_dir "growth_rates.png".

Definition plot_component_breakdown (df : DataFrame) (output_dir : string) : io unit :=
  render (component_breakdown_figure df) output_dir "component_breakdown.png".

(** ** Loader and driver *)

(** The files the script can see.  The text of a CSV file is not
    modelled: a path holds nothing, or a file together with what
    [pd.read_csv] makes of it, a frame or an exception (an empty file, a
    line it cannot parse, ...). *)
Definition filesystem : Type := string -> option (result DataFrame).

Definition os_path_exists (fs : filesystem) (path : string) : bool :=
  match fs path with
  | Some _ => true
  | None => false
  end.

Definition read_csv (fs : filesystem) (path : string) : result DataFrame :=
  match fs path with
  | Some parsed => parsed
  | None => Raise (FileNotFoundError path)
  end.

Definition load_data (fs : filesystem) (csv_path : string) : result DataFrame :=
  read_csv fs csv_path.

Definition csv_path : string :=
  "/home/claude/suffix-array-project/docs/benchmark_results.csv".
Definition output_dir : string := "/home/claude/suffix-array-project/docs".

Definition newline : string := String (ascii_of_nat 10) EmptyString.

Definition main (fs : filesystem) : io unit :=
  if negb (os_path_exists fs csv_path) then
    print ("Error: Benchmark data not found at " ++ csv_path) >>
    print "Please run PerformanceBenchmark.java first to generate data." >>
    io_ret tt
  else
    print "Loading benchmark data..." >>
    df <~ lift (load_data fs csv_path) ;;
    print (newline ++ "Generating plots...") >>
    plot_overall_complexity df output_dir >>
    plot_sa_vs_lcp df output_dir >>
    plot_logarithmic_scale df output_dir >>
    plot_search_performance df output_dir >>
    plot_growth_rates df output_dir >>
    plot_component_breakdown df output_dir >>
    print (newline ++ "✅ All graphs generated successfully!") >>
    print ("Graphs saved to: " ++ output_dir ++ "/").

(** ** The benchmark table of the data model, as a frame *)

Record BenchmarkRow : Type := mkRow {
  size : F;
  sa_time_ms : F;
  lcp_time_ms : F;
  total_time_ms : F;
  search_time_ns : F;
  n_log_n : F
}.

Definition BenchmarkTable : Type := list BenchmarkRow.

Definition header : list string :=
  ["Size"; "SA(ms)"; "LCP(ms)"; "Total(ms)"; "Search(ns)"; "n*log(n)"].

Definition cells (r : BenchmarkRow) : list F :=
  [size r; sa_time_ms r; lcp_time_ms r; total_time_ms r; search_time_ns r;
   n_log_n r].

Definition to_frame (t : BenchmarkTable) : DataFrame :=
  mkDataFrame header (map cells t).

End Model.

Arguments DataFrame F : clear implicits.
Arguments BenchmarkRow F : clear implicits.
Arguments BenchmarkTable F : clear implicits.
Arguments Series F : clear implicits.
Arguments figure F : clear implicits.
Arguments artist F : clear implicits.
Arguments event F : clear implicits.
Arguments filesystem F : clear implicits.
Arguments Pyplot F : clear implicits.

(** ** First instance: IEEE 754 binary64, as numpy computes *)

Module Binary64.

(** Conversion of a Python int: rounded to the nearest double, ties to even. *)
Definition Z2F (z : Z) : float :=
  SF2Prim (binary_normalize prec emax z 0 false).

#[global] Instance arith : Arith float := {|
  of_Z := Z2F;
  fadd := PrimFloat.add;
  fmul := PrimFloat.mul;
  fdiv := PrimFloat.div;
  nan := PrimFloat.nan;
  isnan := PrimFloat.is_nan;
  neg_zero := PrimFloat.neg_zero
|}.

(** [np.log2] is library code outside the repository: the development
    takes it as a parameter.  Closed examples use [log2_pow2], its values
    at the exact powers of two (where the logarithm is an integer and
    every implementation returns it exactly); other arguments are left
    out of it and read as NaN. *)
Definition log2_pow2 (x : float) : float :=
  let (m, e) := frshiftexp x in
  if PrimFloat.eqb m 0.5%float
  then Z2F (Uint63.to_Z e - shift - 1)
  else PrimFloat.nan.

Definition with_log2 (log2 : float -> float) : Log2 float := {| np_log2 := log2 |}.


(** Sign bit clear and not NaN: +0, a positive finite double, or +infinity. *)
Definition sf_nonneg (x : spec_float) : bool :=
  match x with
  | S754_zero false | S754_finite false _ _ | S754_infinity false => true
  | _ => false
  end.

Definition nonneg (x : float) : bool := sf_nonneg (Prim2SF x).

Definition finite_pos (x : float) : bool :=
  match Prim2SF x with
  | S754_finite false _ _ => true
  | _ => false
  end.

(** A row of a benchmark run: size n, SA and LCP time, their sum, a search
    time and a stand-in for the precomputed n*log2(n) column. *)
Definition sample_row (n : Z) : BenchmarkRow float :=
  mkRow (Z2F (1000 * n)) (Z2F (2 * n)) (Z2F n) (Z2F (3 * n)) (Z2F (2000 + n))
        (Z2F (10000 * n)).

(** Twenty rows, sizes 1000, 2000, ..., 20000. *)
Definition twenty_rows : BenchmarkTable float :=
  map (fun i => sample_row (Z.of_nat i)) (seq 1 20).

(** File systems for the driver: nothing at [csv_path], the scenario
    table there, and the scenario table with its search column missing. *)
Definition no_file : filesystem float := fun _ => None.

Definition only_csv (df : DataFrame float) : filesystem float :=
  fun path => if String.eqb path csv_path then Some (Ok df) else None.

(** A file at [csv_path] that [read_csv] rejects with the exception [e]. *)
Definition rejected_csv (e : exn) : filesystem float :=
  fun path => if String.eqb path csv_path then Some (Raise e) else None.

(** Runs of matplotlib: one that lays out and writes every figure, and
    one whose layout fails on the figure written to [path]. *)
Definition always_saves : Pyplot float :=
  {| tight_layout_savefig := fun _ _ => Ok tt |}.

Definition layout_fails_at (path : string) : Pyplot float :=
  {| tight_layout_savefig := fun p _ =>
       if String.eqb p path then Raise ValueError else Ok tt |}.

Definition drop_search (t : BenchmarkTable float) : DataFrame float :=
  mkDataFrame ["Size"; "SA(ms)"; "LCP(ms)"; "Total(ms)"; "n*log(n)"]%string
    (map (fun r => [size r; sa_time_ms r; lcp_time_ms r; total_time_ms r; n_log_n r]) t).

(** What [fillna0] accepts: NaN, or a value with its sign bit clear. *)
Definition nonneg_or_nan (x : float) : Prop :=
  is_nan x = true \/ nonneg x = true.


(** Sizes that are powers of two: 2^16 and 2^17. *)
Definition pow2_table : BenchmarkTable float :=
  [ mkRow 65536 21.5 9.25 30.75 2100 1048576;
    mkRow 131072 46.0 19.0 65.0 2134 2228224 ]%float.


(** A first row too fast for the millisecond clock: both stages read 0. *)
Definition zero_times_table : BenchmarkTable float :=
  [ mkRow 1000 0 0 0 2000 9965.784284662087;
    mkRow 2000 2 1 3 2100 21931.568569324176 ]%float.

(** A first row whose LCP stage alone reads 0. *)
Definition zero_lcp_table : BenchmarkTable float :=
  [ mkRow 1000 1 0 1 2000 9965.784284662087;
    mkRow 2000 2 1 3 2100 21931.568569324176 ]%float.

(** The two-row table of the specification's scenario. *)
Definition scenario : BenchmarkTable float :=
  [ mkRow 1000 1.0 0.5 1.5 2000 9965.784284662087;
    mkRow 2000 2.2 1.0 3.2 2100 21931.568569324176 ]%float.

(** *** Further tables *)

(** The table [pow2_table] as another tool might write it: the columns in
    another order, after a column the script never reads. *)
Definition pow2_frame_reordered : DataFrame float :=
  mkDataFrame
    ["Run"; "n*log(n)"; "Search(ns)"; "Total(ms)"; "LCP(ms)"; "SA(ms)"; "Size"]%string
    [ [1; 1048576; 2100; 30.75; 9.25; 21.5; 65536];
      [2; 2228224; 2134; 65.0; 19.0; 46.0; 131072] ]%float.

(** A first row whose total time is a blank cell, which [read_csv] reads
    as NaN. *)
Definition blank_total_table : BenchmarkTable float :=
  [ mkRow 1000 1.0 0.5 PrimFloat.nan 2000 9965.784284662087;
    mkRow 2000 2.2 1.0 3.2 2100 21931.568569324176 ]%float.




(** Ten rows with the same two times: every ratio is 0.1. *)
Definition ten_rows : BenchmarkTable float :=
  map (fun i => mkRow (Z2F (1000 * Z.of_nat i)) 0.1 1 1.1 2000
                      (Z2F (10000 * Z.of_nat i)))%float (seq 1 10).

(** *** Vocabulary of the rounding proofs

    The operations of [arith] round to nearest, ties to even.  The
    definitions below describe that rounding on integers, so that its
    monotonicity can be stated and proved from the IEEE specification
    ([SpecFloat]). *)

Local Open Scope Z_scope.

(** The state of [shr_record] after [k] one-bit shifts of the exact
    mantissa [m]: the quotient, the round bit and the sticky bit. *)
Definition shifted (m k : Z) (mrs : shr_record) : Prop :=
  0 <= k /\
  exists rem : Z,
    0 <= rem < 2 ^ k /\
    m = shr_m mrs * 2 ^ k + rem /\
    (shr_r mrs = true <-> 0 < k /\ 2 ^ (k - 1) <= rem) /\
    (shr_s mrs = true <-> 0 < k /\ rem mod 2 ^ (k - 1) <> 0).

(** Round to nearest, ties to even, of [m / 2^k]. *)
Definition rne_val (m k : Z) : Z :=
  let q := m / 2 ^ k in
  let rem := m mod 2 ^ k in
  if 2 * rem <? 2 ^ k then q
  else if 2 * rem =? 2 ^ k then (if Z.even q then q else q + 1)
  else q + 1.

Definition fexp64 (x : Z) : Z := fexp prec emax x.

(** Python's [format(x, '.2f')]: the exact value of the double in
    hundredths, rounded to an integer, ties to even, and written in
    decimal with two places. *)
Definition decimal (n : Z) : string :=
  NilZero.string_of_uint (N.to_uint (Z.to_N n)).

Definition hundredths (m : positive) (e : Z) : Z :=
  if 0 <=? e then Z.pos m * 2 ^ e * 100 else rne_val (Z.pos m * 100) (- e).

Definition fixed2 (negative : bool) (h : Z) : string :=
  ((if negative then "-" else "") ++ decimal (h / 100) ++ "."
   ++ decimal (h mod 100 / 10) ++ decimal (h mod 10))%string.

Definition float_format_2f (x : float) : string :=
  match Prim2SF x with
  | S754_nan => "nan"%string
  | S754_infinity s => if s then "-inf"%string else "inf"%string
  | S754_zero s => fixed2 s 0
  | S754_finite s m e => fixed2 s (hundredths m e)
  end.

#[global] Instance format : Format float := {| format_2f := float_format_2f |}.

(** The double made of the rounded mantissa [m1] at exponent [E]. *)
Definition rnd_result (m1 E : Z) : spec_float :=
  if m1 =? 0 then S754_zero false
  else if m1 <? 2 ^ 53 then
         if E <=? 971 then S754_finite false (Z.to_pos m1) E
         else S754_infinity false
       else
         if E + 1 <=? 971 then S754_finite false 4503599627370496 (E + 1)
         else S754_infinity false.

(** An integer that orders the non-negative doubles as [<=?] does. *)
Definition sf_key (x : spec_float) : Z :=
  match x with
  | S754_zero _ => 0
  | S754_finite _ m e => (e + 1075) * 2 ^ 54 + Z.pos m
  | S754_infinity _ => 2047 * 2 ^ 54
  | S754_nan => -1
  end.

Definition fkey (x : float) : Z := sf_key (Prim2SF x).

Definition key_inf : Z := 2047 * 2 ^ 54.

(** Rounding of the exact value [m * 2^e], and the exponent it lands on. *)
Definition rnd (m e : Z) : spec_float :=
  binary_round_aux prec emax false m e loc_Exact.

Definition cexp (m e : Z) : Z := fexp64 (Zdigits2 m + e).

(** [m * 2^e <= m' * 2^e'], stated on integers. *)
Definition vle (m e m' e' : Z) : Prop :=
  m * 2 ^ (e - Z.min e e') <= m' * 2 ^ (e' - Z.min e e').

(** [m * 2^e >= 1], stated on integers. *)
Definition v1 (m e : Z) : Prop := 1 <= m /\ (e <= 0 -> 2 ^ (- e) <= m).

(** +0 or a positive finite double *)
Definition sf_finite_nonneg (x : spec_float) : bool :=
  match x with
  | S754_zero false | S754_finite false _ _ => true
  | _ => false
  end.

Definition finite_nonneg (x : float) : bool := sf_finite_nonneg (Prim2SF x).

Definition sf_one : spec_float := S754_finite false 4503599627370496 (-52).

(** *** Sizes, and what the growth-rate bound asks of [np.log2] *)

(** Sizes are counts of symbols: doubles between 1 and 2^63. *)
Definition max_size : float := 9223372036854775808%float.

Definition size_ok (s : float) : bool :=
  (1 <=? s)%float && (s <=? max_size)%float.

(** The size column of a table that is sorted by strictly ascending size. *)
Definition increasing_sizes (sizes : list float) : Prop :=
  Forall (fun s => size_ok s = true) sizes /\
  forall i : nat,
    (S i < List.length sizes)%nat ->
    (nth i sizes PrimFloat.nan <? nth (S i) sizes PrimFloat.nan)%float = true.

(** What an implementation of [np.log2] has to deliver on sizes: exactly
    0 at 1, a positive value above 1, at most 64 up to 2^63, and no
    inversion of the order. *)
Record log2_spec (log2 : float -> float) : Prop := {
  log2_at_one : log2 1%float = 0%float;
  log2_monotone : forall x y,
      (1 <=? x)%float = true -> (x <=? y)%float = true ->
      (y <=? max_size)%float = true ->
      (log2 x <=? log2 y)%float = true;
  log2_positive : forall x,
      (1 <? x)%float = true -> (x <=? max_size)%float = true ->
      (0 <? log2 x)%float = true;
  log2_at_most_64 : forall x,
      (1 <=? x)%float = true -> (x <=? max_size)%float = true ->
      (log2 x <=? 64)%float = true
}.

(** A stand-in for [np.log2] that meets [log2_spec]: the logarithm
    rounded up to an integer, read off the exponent of the double.  It
    agrees with [log2_pow2] on the powers of two. *)
Definition log2_ceil (x : float) : float :=
  let (m, e) := frshiftexp x in
  if PrimFloat.eqb m 0.5%float
  then Z2F (Uint63.to_Z e - FloatOps.shift - 1)
  else Z2F (Uint63.to_Z e - FloatOps.shift).

(** The integer [log2_ceil] converts, read off the mantissa and exponent. *)
Definition ceil_exp (m : positive) (e : Z) : Z :=
  if (Z.pos m =? 2 ^ 52) then e + 52 else e + 53.

Definition small_ints : list Z := map Z.of_nat (seq 0 65).


End Binary64.

(** ** Second instance: the same special values around exact reals *)

Module Exact.

Local Open Scope R_scope.

(** Finite values are real numbers and no operation rounds; infinities
    and NaN arise and propagate as IEEE 754 prescribes.  There is one
    zero, read as +0. *)
Inductive xreal : Type :=
| Fin (r : R)
| PInf
| NInf
| XNaN.

Definition inf (positive : bool) : xreal := if positive then PInf else NInf.

Definition xadd (x y : xreal) : xreal :=
  match x, y with
  | XNaN, _ | _, XNaN => XNaN
  | Fin a, Fin b => Fin (a + b)
  | PInf, NInf | NInf, PInf => XNaN
  | PInf, _ | _, PInf => PInf
  | NInf, _ | _, NInf => NInf
  end.

(** infinity of sign [positive] times the finite [a] *)
Definition inf_mul (positive : bool) (a : R) : xreal :=
  match total_order_T 0 a with
  | inleft (left _) => inf positive
  | inleft (right _) => XNaN
  | inright _ => inf (negb positive)
  end.

Definition xmul (x y : xreal) : xreal :=
  match x, y with
  | XNaN, _ | _, XNaN => XNaN
  | Fin a, Fin b => Fin (a * b)
  | PInf, Fin a | Fin a, PInf => inf_mul true a
  | NInf, Fin a | Fin a, NInf => inf_mul false a
  | PInf, PInf | NInf, NInf => PInf
  | PInf, NInf | NInf, PInf => NInf
  end.

(** infinity of sign [positive] divided by the finite [b] (zero is +0) *)
Definition inf_div (positive : bool) (b : R) : xreal :=
  if Rlt_dec b 0 then inf (negb positive) else inf positive.

Definition xdiv (x y : xreal) : xreal :=
  match x, y with
  | XNaN, _ | _, XNaN => XNaN
  | Fin a, Fin b =>
      if Req_dec_T b 0 then
        match total_order_T 0 a with
        | inleft (left _) => PInf
        | inleft (right _) => XNaN
        | inright _ => NInf
        end
      else Fin (a / b)
  | Fin _, (PInf | NInf) => Fin 0
  | PInf, Fin b => inf_div true b
  | NInf, Fin b => inf_div false b
  | (PInf | NInf), (PInf | NInf) => XNaN
  end.

Definition xlog2 (x : xreal) : xreal :=
  match x with
  | Fin a =>
      match total_order_T 0 a with
      | inleft (left _) => Fin (ln a / ln 2)
      | inleft (right _) => NInf
      | inright _ => XNaN
      end
  | PInf => PInf
  | NInf | XNaN => XNaN
  end.

Definition xisnan (x : xreal) : bool :=
  match x with
  | XNaN => true
  | _ => false
  end.

#[global] Instance arith : Arith xreal := {|
  of_Z := fun z => Fin (IZR z);
  fadd := xadd;
  fmul := xmul;
  fdiv := xdiv;
  nan := XNaN;
  isnan := xisnan;
  neg_zero := Fin 0
|}.

#[global] Instance log2 : Log2 xreal := {| np_log2 := xlog2 |}.


(** within [eps] of the real [v] *)
Definition near (x : xreal) (v eps : R) : Prop :=
  match x with
  | Fin a => Rabs (a - v) < eps
  | _ => False
  end.

(** The two-row table of the specification's scenario. *)
Definition scenario : BenchmarkTable xreal :=
  [ mkRow (Fin 1000) (Fin 1) (Fin 0.5) (Fin 1.5) (Fin 2000)
          (xmul (Fin 1000) (xlog2 (Fin 1000)));
    mkRow (Fin 2000) (Fin 2.2) (Fin 1) (Fin 3.2) (Fin 2100)
          (xmul (Fin 2000) (xlog2 (Fin 2000))) ].


End Exact.

(** ** Vocabulary of the statements *)

(** The computation returned a series of [n] values. *)
Definition has_length {A : Type} (r : result (list A)) (n : nat) : Prop :=
  match r with
  | Ok s => List.length s = n
  | Raise _ => False
  end.

(** The paths written by [savefig], in order. *)
Definition saved_paths {F : Type} (out : list (event F)) : list string :=
  flat_map (fun e => match e with Saved p _ => [p] | Stdout _ => [] end) out.

(** The lines written by [print], in order. *)
Definition printed {F : Type} (out : list (event F)) : list string :=
  flat_map (fun e => match e with Stdout l => [l] | Saved _ _ => [] end) out.

(** The six artifacts, in the order the driver writes them. *)
Definition chart_files : list string :=
  ["overall_complexity.png"; "sa_vs_lcp.png"; "logarithmic_complexity.png";
   "search_performance.png"; "growth_rates.png"; "component_breakdown.png"]%string.

(** The columns the first chart builder reads, in the order it reads them. *)
Definition first_chart_columns : list string :=
  ["Size"; "Total(ms)"; "SA(ms)"; "LCP(ms)"; "n*log(n)"]%string.

(** [needle] occurs in [s]. *)
Definition mentions (s needle : string) : bool :=
  match String.index 0 needle s with
  | Some _ => true
  | None => false
  end.

(** The six artifacts under the output directory. *)
Definition all_chart_paths : list string :=
  map (fun n => (output_dir ++ "/" ++ n)%string) chart_files.




Definition succeeds {A : Type} (r : result A) : bool :=
  match r with
  | Ok _ => true
  | Raise _ => false
  end.

(** Two frames of the same height that agree on the six columns. *)
Definition same_columns {F : Type} `{Arith F} (df1 df2 : DataFrame F) : Prop :=
  len df1 = len df2 /\
  forall key : string, In key header -> getitem df1 key = getitem df2 key.

Definition has_column {F : Type} (df : DataFrame F) (key : string) : bool :=
  match get_loc key (columns df) with
  | Some _ => true
  | None => false
  end.

Definition has_columns {F : Type} (df : DataFrame F) (keys : list string) : bool :=
  forallb (has_column df) keys.

Definition nonempty {F : Type} (df : DataFrame F) : bool := (0 <? len df)%nat.

(** The columns each of the other chart builders reads. *)
Definition sa_vs_lcp_columns : list string := ["Size"; "SA(ms)"; "LCP(ms)"]%string.
Definition logarithmic_scale_columns : list string :=
  ["Size"; "Total(ms)"; "SA(ms)"; "LCP(ms)"]%string.

(** A printed line that confirms an artifact. *)
Definition is_confirmation (line : string) : bool := String.prefix "Saved: " line.

(** The six charts in the order of the driver: the file name and the
    figure its builder computes. *)
Definition chart_figures {F : Type} `{Arith F} `{Log2 F} `{Format F}
    (df : DataFrame F) : list (string * result (figure F)) :=
  [ ("overall_complexity.png", overall_complexity_figure df);
    ("sa_vs_lcp.png", sa_vs_lcp_figure df);
    ("logarithmic_complexity.png", logarithmic_scale_figure df);
    ("search_performance.png", search_performance_figure df);
    ("growth_rates.png", growth_rates_figure df);
    ("component_breakdown.png", component_breakdown_figure df) ]%string.

(** [plt.tight_layout] and [plt.savefig] return for the figure of this
    chart, if its builder gets as far as calling them. *)
Definition written {F : Type} {PP : Pyplot F}
    (chart : string * result (figure F)) : Prop :=
  forall f : figure F,
    snd chart = Ok f ->
    tight_layout_savefig (output_dir ++ "/" ++ fst chart)%string f = Ok tt.

(** What becomes of a chart: its figure, once the artifact is written, or
    the exception that stops the builder, raised by its own code or by
    matplotlib. *)
Definition chart_outcome {F : Type} {PP : Pyplot F}
    (name : string) (fig : result (figure F)) : result (figure F) :=
  (f <- fig ;;
   _ <- tight_layout_savefig (output_dir ++ "/" ++ name)%string f ;;
   Ok f)%py.


(** [e] is an exception that [plt.tight_layout] or [plt.savefig] raises
    on some figure. *)
Definition raised_by_pyplot {F : Type} {PP : Pyplot F} (e : exn) : Prop :=
  exists (path : string) (fig : figure F), tight_layout_savefig path fig = Raise e.

(** * Properties *)

(** ** Columns of a benchmark table *)

Section Facts.

Context {F : Type} `{AF : Arith F} `{LF : Log2 F}.

Local Open Scope py_scope.
Local Open Scope string_scope.
Local Open Scope list_scope.

Implicit Types (t : BenchmarkTable F) (r : BenchmarkRow F) (df : DataFrame F).

Lemma getitem_column (key : string) (j : nat) (proj : BenchmarkRow F -> F) t :
  get_loc key header = Some j ->
  (forall r, nth j (cells r) nan = proj r) ->
  getitem (to_frame t) key = Ok (map proj t).
Proof.
  intros Hloc Hproj. unfold getitem, to_frame. cbn [columns values].
  rewrite Hloc, map_map. f_equal. apply map_ext. exact Hproj.
Qed.

Lemma getitem_Size t : getitem (to_frame t) "Size" = Ok (map size t).
Proof. now apply (getitem_column _ 0). Qed.

Lemma getitem_SA t : getitem (to_frame t) "SA(ms)" = Ok (map sa_time_ms t).
Proof. now apply (getitem_column _ 1). Qed.

Lemma getitem_LCP t : getitem (to_frame t) "LCP(ms)" = Ok (map lcp_time_ms t).
Proof. now apply (getitem_column _ 2). Qed.

Lemma getitem_Total t : getitem (to_frame t) "Total(ms)" = Ok (map total_time_ms t).
Proof. now apply (getitem_column _ 3). Qed.

Lemma getitem_Search t : getitem (to_frame t) "Search(ns)" = Ok (map search_time_ns t).
Proof. now apply (getitem_column _ 4). Qed.

Lemma getitem_nlogn t : getitem (to_frame t) "n*log(n)" = Ok (map n_log_n t).
Proof. now apply (getitem_column _ 5). Qed.

Lemma len_to_frame t : len (to_frame t) = List.length t.
Proof. unfold len, to_frame. cbn [values]. apply length_map. Qed.

Lemma getitem_absent df key :
  get_loc key (columns df) = None -> getitem df key = Raise (KeyError key).
Proof. intros H. unfold getitem. now rewrite H. Qed.

(** ** Lists: last element, elementwise operations, slices *)

Lemma iloc_last_app (s : Series F) (x : F) : iloc_last (s ++ [x]) = Ok x.
Proof.
  induction s as [|y s IH]; [reflexivity|].
  cbn [app iloc_last]. rewrite IH. now destruct s.
Qed.

Lemma iloc_last_map {A : Type} (f : A -> F) (l : list A) (a : A) :
  iloc_last (map f (l ++ [a])) = Ok (f a).
Proof. rewrite map_app. apply iloc_last_app. Qed.

Lemma elementwise_length (op : F -> F -> F) (a b : Series F) :
  List.length (elementwise op a b) = Nat.min (List.length a) (List.length b).
Proof.
  revert b. induction a as [|x a IH]; intros [|y b]; cbn; auto.
Qed.

Lemma elementwise_nth (op : F -> F -> F) (a b : Series F) (i : nat) (d : F) :
  (i < List.length a)%nat -> (i < List.length b)%nat ->
  nth i (elementwise op a b) d = op (nth i a d) (nth i b d).
Proof.
  revert b i. induction a as [|x a IH]; intros [|y b] [|i] Ha Hb;
    cbn in *; try lia; auto.
  apply IH; lia.
Qed.

Lemma elementwise_map {A : Type} (op : F -> F -> F) (f g : A -> F) (l : list A) :
  elementwise op (map f l) (map g l) = map (fun a => op (f a) (g a)) l.
Proof. induction l as [|a l IH]; cbn; [reflexivity|now rewrite IH]. Qed.

Lemma removelast_length {A : Type} (l : list A) :
  List.length (removelast l) = (List.length l - 1)%nat.
Proof.
  induction l as [|a l IH]; [reflexivity|].
  destruct l as [|b l]; [reflexivity|].
  change (removelast (a :: b :: l)) with (a :: removelast (b :: l)).
  cbn [List.length] in *. lia.
Qed.

Lemma nth_removelast {A : Type} (l : list A) (i : nat) (d : A) :
  (i < List.length l - 1)%nat -> nth i (removelast l) d = nth i l d.
Proof.
  revert i. induction l as [|a l IH]; intros i Hi; [reflexivity|].
  destruct l as [|b l]; [cbn in Hi; lia|].
  change (removelast (a :: b :: l)) with (a :: removelast (b :: l)).
  destruct i as [|i]; [reflexivity|].
  cbn [nth]. apply IH. cbn [List.length] in *. lia.
Qed.

Lemma nth_tl {A : Type} (l : list A) (i : nat) (d : A) :
  nth i (tl l) d = nth (S i) l d.
Proof. destruct l; [now destruct i|reflexivity]. Qed.

Lemma tl_length {A : Type} (l : list A) :
  List.length (tl l) = (List.length l - 1)%nat.
Proof. destruct l; cbn; lia. Qed.

End Facts.

(** ** Row slices with a step *)

Lemma slice_from_length {A : Type} (k skip : nat) (l : list A) :
  (skip < k)%nat ->
  List.length (slice_from k skip l) = ((List.length l + k - 1 - skip) / k)%nat.
Proof.
  revert skip. induction l as [|x l IH]; intros skip Hk.
  - cbn. symmetry. apply Nat.div_small. lia.
  - cbn [slice_from List.length]. destruct skip as [|skip].
    + cbn [List.length]. rewrite IH by lia.
      replace (S (List.length l) + k - 1 - 0)%nat with (List.length l + 1 * k)%nat by lia.
      rewrite Nat.div_add by lia.
      replace (List.length l + k - 1 - (k - 1))%nat with (List.length l) by lia.
      lia.
    + rewrite IH by lia. f_equal. lia.
Qed.

Lemma slice_from_nth_error {A : Type} (k skip : nat) (l : list A) (i : nat) :
  (skip < k)%nat ->
  nth_error (slice_from k skip l) i = nth_error l (skip + i * k).
Proof.
  revert skip i. induction l as [|x l IH]; intros skip i Hk.
  - cbn. now destruct i, (skip + _)%nat.
  - cbn [slice_from]. destruct skip as [|skip].
    + destruct i as [|i]; [reflexivity|].
      cbn [nth_error]. rewrite IH by lia.
      replace (0 + S i * k)%nat with (S (k - 1 + i * k)) by lia.
      reflexivity.
    + rewrite IH by lia. reflexivity.
Qed.

Lemma ceil_div_bounds (n k : nat) :
  (0 < k)%nat -> (n <= (n + k - 1) / k * k < n + k)%nat.
Proof.
  intros Hk.
  pose proof (Nat.div_mod_eq (n + k - 1) k) as E.
  pose proof (Nat.mod_upper_bound (n + k - 1) k ltac:(lia)) as B.
  nia.
Qed.

Lemma step_pos {F : Type} (df : DataFrame F) : (0 < step df)%nat.
Proof. unfold step. lia. Qed.

Lemma df_subset_ok {F : Type} (df : DataFrame F) :
  df_subset df = Ok (mkDataFrame (columns df) (slice_from (step df) 0 (values df))).
Proof.
  unfold df_subset, iloc_step. pose proof (step_pos df).
  destruct (step df); [lia|reflexivity].
Qed.

Lemma len_df_subset {F : Type} (df sub : DataFrame F) :
  df_subset df = Ok sub ->
  len sub = ((len df + step df - 1) / step df)%nat.
Proof.
  rewrite df_subset_ok. intros [= <-]. unfold len at 1. cbn [values].
  rewrite slice_from_length by apply step_pos. unfold len. f_equal. lia.
Qed.

Lemma step_small {F : Type} (df : DataFrame F) : (len df < 20)%nat -> step df = 1%nat.
Proof.
  intros H. unfold step.
  assert (len df / 10 <= 1)%nat by (apply Nat.lt_succ_r, Nat.Div0.div_lt_upper_bound; lia).
  lia.
Qed.

Lemma step_large {F : Type} (df : DataFrame F) :
  (10 <= len df)%nat -> step df = (len df / 10)%nat /\ (1 <= len df / 10)%nat.
Proof.
  intros H. unfold step.
  assert (1 <= len df / 10)%nat by (apply Nat.div_le_lower_bound; lia).
  lia.
Qed.

(** ** The derived series of a benchmark table, in closed form *)

Section Series.

Context {F : Type} `{AF : Arith F} `{LF : Log2 F}.

Local Open Scope py_scope.
Local Open Scope string_scope.
Local Open Scope list_scope.

Implicit Types (t : BenchmarkTable F) (r : BenchmarkRow F).

Lemma iloc_first_map {A : Type} (f : A -> F) (a : A) (l : list A) :
  iloc_first (map f (a :: l)) = Ok (f a).
Proof. reflexivity. Qed.

Lemma theoretical_eq r0 t :
  theoretical (to_frame (r0 :: t)) =
  Ok (map (fun r => fmul (fdiv (n_log_n r) (n_log_n r0)) (total_time_ms r0))
          (r0 :: t)).
Proof.
  unfold theoretical. rewrite getitem_nlogn, getitem_Total.
  cbn [rbind]. rewrite !iloc_first_map. cbn [rbind].
  unfold mul_scalar, div_scalar. now rewrite !map_map.
Qed.

Lemma ratio_eq t :
  ratio (to_frame t) = Ok (map (fun r => fdiv (sa_time_ms r) (lcp_time_ms r)) t).
Proof.
  unfold ratio. rewrite getitem_SA, getitem_LCP. cbn [rbind].
  now rewrite elementwise_map.
Qed.

Lemma y_n_eq r0 t :
  y_n (to_frame (r0 :: t)) =
  Ok (map (fun r => fdiv (fmul (size r) (total_time_ms r0)) (size r0)) (r0 :: t)).
Proof.
  unfold y_n. rewrite getitem_Size, getitem_Total.
  cbn [rbind]. rewrite !iloc_first_map. cbn [rbind].
  unfold mul_scalar, div_scalar. now rewrite !map_map.
Qed.

Lemma y_nlogn_eq r0 t :
  y_nlogn (to_frame (r0 :: t)) =
  Ok (map (fun r => fdiv (fmul (fmul (size r) (np_log2 (size r))) (total_time_ms r0))
                         (fmul (size r0) (np_log2 (size r0))))
          (r0 :: t)).
Proof.
  unfold y_nlogn. rewrite getitem_Size, getitem_Total.
  cbn [rbind]. rewrite !iloc_first_map. cbn [rbind].
  unfold mul_scalar, div_scalar, log2_array.
  rewrite (map_map size np_log2).
  rewrite (elementwise_map fmul size (fun r => np_log2 (size r))).
  now rewrite !map_map.
Qed.

Lemma search_us_eq t :
  search_us (to_frame t) = Ok (map (fun r => fdiv (search_time_ns r) (of_Z 1000)) t).
Proof.
  unfold search_us. rewrite getitem_Search. cbn [rbind].
  unfold div_scalar. now rewrite map_map.
Qed.

Lemma theoretical_logn_eq t r_last :
  theoretical_logn (to_frame (t ++ [r_last])) =
  Ok (map (fun r => fmul (np_log2 (size r))
                         (fdiv (fdiv (search_time_ns r_last) (of_Z 1000))
                               (np_log2 (size r_last))))
          (t ++ [r_last])).
Proof.
  unfold theoretical_logn. rewrite search_us_eq, getitem_Size. cbn [rbind].
  rewrite !iloc_last_map. cbn [rbind].
  unfold mul_scalar, log2_array. now rewrite !map_map.
Qed.

Lemma time_ratios_eq t :
  time_ratios (to_frame t) =
  Ok (elementwise fdiv (tl (map total_time_ms t)) (removelast (map total_time_ms t))).
Proof. unfold time_ratios. now rewrite getitem_Total. Qed.

Lemma theoretical_ratios_eq t :
  theoretical_ratios (to_frame t) =
  Ok (map (growth_ratio_at (map size t)) (seq 1 (List.length t - 1))).
Proof.
  unfold theoretical_ratios. rewrite len_to_frame, getitem_Size.
  destruct t as [|r0 [|r1 t]]; reflexivity.
Qed.

End Series.

(** ** Component-breakdown subset and series lengths *)

Lemma has_length_ok {A : Type} (s : list A) (n : nat) :
  List.length s = n -> has_length (Ok s) n.
Proof. intros H. exact H. Qed.

Lemma subset_shape (F : Type) (t : BenchmarkTable F) :
  exists sub : DataFrame F,
    df_subset (to_frame t) = Ok sub /\
    (List.length t <= len sub * step (to_frame t)
       < List.length t + step (to_frame t))%nat /\
    len sub = ((List.length t + step (to_frame t) - 1) / step (to_frame t))%nat.
Proof.
  eexists. split; [apply df_subset_ok|].
  rewrite (len_df_subset (to_frame t)) by apply df_subset_ok.
  rewrite len_to_frame. split; [|reflexivity].
  apply ceil_div_bounds, step_pos.
Qed.

(** C10.  For a non-empty table of N rows the component-breakdown subset
    is taken with step k = max(1, N // 10): it keeps row 0 (and then every
    k-th row), its length is the ceiling of N / k (the only L with
    N <= L * k < N + k), which is N when N < 10 and lies between 10 and 19
    when N >= 10. *)
Theorem C10_component_breakdown_subset :
  forall (F : Type) (t : BenchmarkTable F),
    t <> [] ->
    let N := List.length t in
    let k := step (to_frame t) in
    k = Nat.max 1 (N / 10) /\
    exists sub : DataFrame F,
      df_subset (to_frame t) = Ok sub /\
      columns sub = columns (to_frame t) /\
      nth_error (values sub) 0 = nth_error (values (to_frame t)) 0 /\
      nth_error (values sub) 0 <> None /\
      (forall i, nth_error (values sub) i = nth_error (values (to_frame t)) (i * k)) /\
      (N <= len sub * k < N + k)%nat /\
      len sub = ((N + k - 1) / k)%nat /\
      (N < 10 -> len sub = N)%nat /\
      (10 <= N -> 10 <= len sub <= 19)%nat.
Proof.
  intros F t Hne N k.
  assert (HN : len (to_frame t) = N) by apply len_to_frame.
  assert (Hk : k = Nat.max 1 (N / 10)) by (unfold k, step; now rewrite HN).
  split; [exact Hk|].
  eexists. split; [apply df_subset_ok|]. fold k.
  assert (Hlen : len (mkDataFrame (columns (to_frame t))
                        (slice_from k 0 (values (to_frame t))))
                 = ((N + k - 1) / k)%nat).
  { rewrite (len_df_subset (to_frame t)) by apply df_subset_ok.
    fold k. now rewrite HN. }
  assert (Hpos : (0 < k)%nat) by apply step_pos.
  cbn [columns values] in *.
  repeat split.
  - destruct t as [|r t]; [congruence|reflexivity].
  - destruct t as [|r t]; [congruence|discriminate].
  - intros i. now rewrite slice_from_nth_error by exact Hpos.
  - rewrite Hlen. now apply ceil_div_bounds.
  - rewrite Hlen. now apply ceil_div_bounds.
  - exact Hlen.
  - intros Hlt. rewrite Hlen.
    assert (k = 1%nat) by (apply step_small; lia).
    subst k. rewrite H. rewrite Nat.div_1_r. lia.
  - rewrite Hlen. destruct (step_large (to_frame t)) as [E L]; [lia|].
    fold k in E. rewrite HN in E, L.
    pose proof (Nat.div_mod_eq N 10) as D.
    pose proof (Nat.mod_upper_bound N 10 ltac:(lia)) as B.
    apply Nat.div_le_lower_bound; lia.
  - rewrite Hlen. destruct (step_large (to_frame t)) as [E L]; [lia|].
    fold k in E. rewrite HN in E, L.
    pose proof (Nat.div_mod_eq N 10) as D.
    pose proof (Nat.mod_upper_bound N 10 ltac:(lia)) as B.
    apply Nat.lt_succ_r, Nat.Div0.div_lt_upper_bound. lia.
Qed.

(** C5 (as amended).  For a non-empty table of N rows, the series of items
    1 to 4 have length N and the growth-rate series have length N - 1; the
    component-breakdown subset has the ceiling of N / step rows, which is N
    exactly when N < 20. *)
Theorem C5_derived_series_lengths :
  forall (F : Type) (AF : Arith F) (LF : Log2 F) (t : BenchmarkTable F),
    t <> [] ->
    let df := to_frame t in
    let N := List.length t in
    has_length (theoretical df) N /\
    has_length (ratio df) N /\
    has_length (y_n df) N /\
    has_length (y_nlogn df) N /\
    has_length (search_us df) N /\
    has_length (theoretical_logn df) N /\
    has_length (size_ratios df) (N - 1) /\
    has_length (time_ratios df) (N - 1) /\
    has_length (theoretical_ratios df) (N - 1) /\
    exists sub : DataFrame F,
      df_subset df = Ok sub /\
      (N <= len sub * step df < N + step df)%nat /\
      (len sub = N <-> (N < 20)%nat).
Proof.
  intros F AF LF t Hne df N.
  assert (HN : len df = N) by apply len_to_frame.
  repeat split.
  - destruct t as [|r0 t]; [congruence|]. unfold df. rewrite theoretical_eq.
    apply has_length_ok, length_map.
  - unfold df. rewrite ratio_eq. apply has_length_ok, length_map.
  - destruct t as [|r0 t]; [congruence|]. unfold df. rewrite y_n_eq.
    apply has_length_ok, length_map.
  - destruct t as [|r0 t]; [congruence|]. unfold df. rewrite y_nlogn_eq.
    apply has_length_ok, length_map.
  - unfold df. rewrite search_us_eq. apply has_length_ok, length_map.
  - destruct (exists_last Hne) as (t' & r & E). unfold df, N. rewrite E.
    rewrite theoretical_logn_eq. apply has_length_ok, length_map.
  - unfold df, size_ratios. rewrite getitem_Size. cbn [rbind].
    apply has_length_ok. unfold iloc_from1, iloc_upto_last.
    rewrite elementwise_length, tl_length, removelast_length, length_map.
    fold N. lia.
  - unfold df. rewrite time_ratios_eq. apply has_length_ok.
    rewrite elementwise_length, tl_length, removelast_length, length_map.
    fold N. lia.
  - unfold df. rewrite theoretical_ratios_eq. apply has_length_ok.
    now rewrite length_map, length_seq.
  - destruct (subset_shape F t) as (sub & Hsub & Hb & Hl).
    fold df N in Hsub, Hb, Hl.
    exists sub. split; [exact Hsub|]. split; [exact Hb|].
    destruct (Nat.lt_ge_cases N 20) as [Hlt|Hge].
    + split; [intros _; exact Hlt|intros _].
      rewrite Hl, (step_small df) by lia. rewrite Nat.div_1_r. lia.
    + split; [|lia]. intros E. rewrite E in Hb.
      destruct (step_large df) as [Es L]; [lia|].
      assert (2 <= step df)%nat
        by (rewrite Es, HN; apply Nat.div_le_lower_bound; lia).
      nia.
Qed.

(** ** A table with a single row *)

(** C6 (as amended).  For a table of exactly one row both growth-rate
    series are empty, the component-breakdown subset is the table itself
    (step 1, one row, not empty), and both chart builders reach the end of
    their own code without an exception: each hands matplotlib its figure
    (two empty lines and the reference line; the bars of the one row) and,
    when the layout and [savefig] return, saves it and prints its
    confirmation; an exception of these two calls is the only way either
    builder fails. *)
Theorem C6_single_row_table :
  forall (F : Type) (AF : Arith F) (LF : Log2 F) (PP : Pyplot F)
         (r : BenchmarkRow F),
    let df := to_frame [r] in
    let growth_path := "/home/claude/suffix-array-project/docs/growth_rates.png"%string in
    let growth_fig :=
      [ Line2D [] [] "Actual Growth Rate";
        Line2D [] [] "Expected O(n log n) Growth";
        HLine (of_Z 1) "" ] in
    let bars_path :=
      "/home/claude/suffix-array-project/docs/component_breakdown.png"%string in
    let bars_fig :=
      [ Bars [of_nat 0] [sa_time_ms r] None "SA Construction";
        Bars [of_nat 0] [lcp_time_ms r] (Some [sa_time_ms r]) "LCP Construction";
        XTickLabels [size r] ] in
    time_ratios df = Ok [] /\
    theoretical_ratios df = Ok [] /\
    step df = 1%nat /\
    df_subset df = Ok df /\
    len df = 1%nat /\
    growth_rates_figure df = Ok growth_fig /\
    component_breakdown_figure df = Ok bars_fig /\
    plot_growth_rates df output_dir =
      match tight_layout_savefig growth_path growth_fig with
      | Ok _ =>
          ([ Saved growth_path growth_fig;
             Stdout "Saved: /home/claude/suffix-array-project/docs/growth_rates.png" ],
           Ok tt)
      | Raise e => ([], Raise e)
      end /\
    plot_component_breakdown df output_dir =
      match tight_layout_savefig bars_path bars_fig with
      | Ok _ =>
          ([ Saved bars_path bars_fig;
             Stdout "Saved: /home/claude/suffix-array-project/docs/component_breakdown.png" ],
           Ok tt)
      | Raise e => ([], Raise e)
      end.
Proof.
  intros F AF LF PP r df growth_path growth_fig bars_path bars_fig.
  repeat split.
  - unfold plot_growth_rates, render, savefig.
    change (growth_rates_figure df) with (Ok growth_fig).
    cbn [lift io_bind app].
    change (output_dir ++ "/" ++ "growth_rates.png")%string with growth_path.
    now destruct (tight_layout_savefig growth_path growth_fig).
  - unfold plot_component_breakdown, render, savefig.
    change (component_breakdown_figure df) with (Ok bars_fig).
    cbn [lift io_bind app].
    change (output_dir ++ "/" ++ "component_breakdown.png")%string with bars_path.
    now destruct (tight_layout_savefig bars_path bars_fig).
Qed.

(** ** Loader and driver *)

Section Driver.

Context {F : Type} `{AF : Arith F} `{LF : Log2 F} `{FF : Format F}
        {PP : Pyplot F}.

Local Open Scope py_scope.
Local Open Scope string_scope.
Local Open Scope list_scope.

Implicit Types (df : DataFrame F) (fs : filesystem F).

Lemma getitem_length df key (s : Series F) :
  getitem df key = Ok s -> List.length s = len df.
Proof.
  unfold getitem. destruct (get_loc key (columns df)); [|discriminate].
  intros [= <-]. apply length_map.
Qed.

Lemma getitem_cases df key :
  (exists s, getitem df key = Ok s /\ List.length s = len df /\
             get_loc key (columns df) <> None) \/
  (get_loc key (columns df) = None /\ getitem df key = Raise (KeyError key)).
Proof.
  unfold getitem. destruct (get_loc key (columns df)) as [j|].
  - left. eexists. repeat split; [apply length_map|discriminate].
  - right. split; reflexivity.
Qed.

Lemma ax_plot_ok (x y : Series F) (label : string) :
  List.length x = List.length y -> ax_plot x y label = Ok (Line2D x y label).
Proof. intros E. unfold ax_plot. now rewrite E, Nat.eqb_refl. Qed.

(* The column [key] is read next: it is there, or it is the first one
   that is missing. *)
Ltac read_column df key Hf :=
  let N := fresh "N" in
  destruct (getitem_cases df key) as [(? & -> & ? & ?)|[N ->]];
  [ destruct (get_loc key (columns df)); [|congruence];
    cbn [negb] in Hf; cbn [rbind]
  | rewrite N in Hf; cbn [negb] in Hf; now injection Hf as <- ].

(** The first chart builder stops at the first of its columns that is
    missing, in the order in which it reads them. *)
Lemma overall_complexity_missing df (c : string) :
  find (fun key => negb (has_column df key)) first_chart_columns = Some c ->
  overall_complexity_figure df = Raise (KeyError c).
Proof.
  intros Hf. unfold has_column, first_chart_columns in Hf. cbn [find] in Hf.
  unfold overall_complexity_figure, theoretical.
  read_column df "Size" Hf. read_column df "Total(ms)" Hf.
  rewrite ax_plot_ok by congruence. cbn [rbind].
  read_column df "SA(ms)" Hf.
  rewrite ax_plot_ok by congruence. cbn [rbind].
  read_column df "LCP(ms)" Hf.
  rewrite ax_plot_ok by congruence. cbn [rbind].
  read_column df "n*log(n)" Hf. discriminate.
Qed.

Lemma main_absent fs :
  fs csv_path = None ->
  main fs =
    ([ Stdout ("Error: Benchmark data not found at " ++ csv_path);
       Stdout "Please run PerformanceBenchmark.java first to generate data." ],
     Ok tt).
Proof. intros H. unfold main, os_path_exists. now rewrite H. Qed.

Lemma main_missing_column fs df (c : string) :
  fs csv_path = Some (Ok df) ->
  find (fun key => negb (has_column df key)) first_chart_columns = Some c ->
  main fs =
    ([ Stdout "Loading benchmark data...";
       Stdout (newline ++ "Generating plots...") ],
     Raise (KeyError c)).
Proof.
  intros Hfs Hmiss.
  unfold main, os_path_exists, load_data, read_csv. rewrite Hfs.
  cbn [negb lift print io_bind app].
  unfold plot_overall_complexity, render.
  rewrite (overall_complexity_missing df c Hmiss). reflexivity.
Qed.

End Driver.

(** C8.  When nothing exists at [csv_path], the driver prints two lines,
    the first naming the expected location and the second the upstream
    tool [PerformanceBenchmark.java], and returns normally: no chart
    builder runs and no figure is saved. *)
Theorem C8_absent_input_diagnostic :
  forall (F : Type) (AF : Arith F) (LF : Log2 F) (FF : Format F)
         (PP : Pyplot F) (fs : filesystem F),
    os_path_exists fs csv_path = false ->
    let line1 := ("Error: Benchmark data not found at " ++ csv_path)%string in
    let line2 := "Please run PerformanceBenchmark.java first to generate data."%string in
    main fs = ([Stdout line1; Stdout line2], Ok tt) /\
    mentions line1 csv_path = true /\
    mentions line2 "PerformanceBenchmark.java" = true /\
    saved_paths (fst (main fs)) = [].
Proof.
  intros F AF LF FF PP fs Hex line1 line2.
  assert (Hfs : fs csv_path = None).
  { unfold os_path_exists in Hex. now destruct (fs csv_path). }
  rewrite (main_absent fs Hfs). repeat split.
Qed.

Lemma C8_absent_input_witness :
  os_path_exists Binary64.no_file csv_path = false /\
  main (LF := Binary64.with_log2 Binary64.log2_pow2)
       (PP := Binary64.always_saves) Binary64.no_file =
    ([ Stdout "Error: Benchmark data not found at /home/claude/suffix-array-project/docs/benchmark_results.csv";
       Stdout "Please run PerformanceBenchmark.java first to generate data." ],
     Ok tt).
Proof.
  split; [reflexivity|].
  apply (C8_absent_input_diagnostic float Binary64.arith
           (Binary64.with_log2 Binary64.log2_pow2) Binary64.format
           Binary64.always_saves Binary64.no_file).
  reflexivity.
Defined.

(** ** Concrete tables: lengths and subsets *)

Lemma C10_component_breakdown_witness :
  Binary64.twenty_rows <> [] /\
  exists sub : DataFrame float,
    df_subset (to_frame Binary64.twenty_rows) = Ok sub /\
    len sub = ((20 + 2 - 1) / 2)%nat.
Proof.
  assert (Hne : Binary64.twenty_rows <> []) by discriminate.
  split; [exact Hne|].
  destruct (C10_component_breakdown_subset float Binary64.twenty_rows Hne)
    as (_ & sub & Hsub & _ & _ & _ & _ & _ & Hlen & _).
  exists sub. split; [exact Hsub|exact Hlen].
Defined.

Lemma C5_derived_series_witness :
  Binary64.scenario <> [] /\
  has_length (theoretical (to_frame Binary64.scenario)) 2 /\
  has_length (time_ratios (to_frame Binary64.scenario)) 1.
Proof.
  assert (Hne : Binary64.scenario <> []) by discriminate.
  split; [exact Hne|].
  destruct (C5_derived_series_lengths float Binary64.arith
              (Binary64.with_log2 Binary64.log2_pow2) Binary64.scenario Hne)
    as (H1 & _ & _ & _ & _ & _ & _ & H8 & _).
  split; [exact H1|exact H8].
Defined.

(** C5, counterexample.  Twenty rows give step 2: the component-breakdown
    subset holds 10 rows, not 20. *)
Lemma C5_subset_counterexample :
  List.length Binary64.twenty_rows = 20%nat /\
  step (to_frame Binary64.twenty_rows) = 2%nat /\
  exists sub : DataFrame float,
    df_subset (to_frame Binary64.twenty_rows) = Ok sub /\
    len sub = 10%nat /\
    len sub <> List.length Binary64.twenty_rows.
Proof.
  split; [reflexivity|]. split; [reflexivity|].
  eexists. split; [reflexivity|]. split; [reflexivity|].
  vm_compute. discriminate.
Qed.

(** C6, counterexample.  The component-breakdown subset of a one-row
    table holds that row: it is not empty. *)
Lemma C6_subset_counterexample :
  let t := [Binary64.sample_row 1] in
  exists sub : DataFrame float,
    df_subset (to_frame t) = Ok sub /\
    len sub = 1%nat /\
    values sub <> [].
Proof.
  cbv zeta. eexists. split; [reflexivity|]. split; [reflexivity|].
  vm_compute. discriminate.
Qed.

(** ** binary64: exact facts about division and multiplication *)

Section Float64.

Import Binary64.
Local Open Scope float_scope.

Lemma div_eucl_div_mod (a b : Z) : Z.div_eucl a b = (Z.div a b, Z.modulo a b).
Proof. unfold Z.div, Z.modulo. now destruct (Z.div_eucl a b). Qed.




Lemma digits2_pos_iter_xO (m n : positive) :
  Z.pos (digits2_pos (Pos.iter xO m n)) = (Z.pos (digits2_pos m) + Z.pos n)%Z.
Proof.
  revert m. induction n as [|n IH] using Pos.peano_ind; intros m.
  - cbn. lia.
  - rewrite Pos.iter_succ. cbn [digits2_pos]. rewrite Pos2Z.inj_succ, IH. lia.
Qed.

(** Multiplying by 1 changes no double: the product mantissa is the
    operand's shifted left by 52 bits, and rounding shifts it back. *)
Lemma SFmul_one_l (s : bool) (m : positive) (e : Z) :
  SpecFloat.bounded prec emax m e = true ->
  SFmul prec emax (Prim2SF 1) (S754_finite s m e) = S754_finite s m e.
Proof.
  intros Hb. unfold SpecFloat.bounded, canonical_mantissa in Hb.
  apply andb_prop in Hb. destruct Hb as [Hc He].
  apply Z.eqb_eq in Hc.
  change (Prim2SF 1) with (S754_finite false 4503599627370496 (-52)).
  unfold SFmul. rewrite xorb_false_l.
  change (4503599627370496 * m)%positive with (Pos.iter xO m 52).
  unfold binary_round_aux, shr_fexp, Zdigits2.
  rewrite digits2_pos_iter_xO.
  replace (Z.pos (digits2_pos m) + 52 + (-52 + e))%Z
    with (Z.pos (digits2_pos m) + e)%Z by lia.
  rewrite Hc.
  replace (e - (-52 + e))%Z with 52%Z by lia.
  cbn -[fexp digits2_pos Z.sub Z.leb Z.add].
  replace (-52 + e + 52)%Z with e by lia.
  rewrite Hc, Z.sub_diag. cbn -[Z.leb Z.sub].
  now rewrite He.
Qed.

Lemma mul_one_l (x : float) : 1 * x = x.
Proof.
  apply Prim2SF_inj. rewrite mul_spec.
  pose proof (Prim2SF_valid x) as Hv.
  destruct (Prim2SF x) as [s|s| |s m e]; try reflexivity.
  now apply SFmul_one_l.
Qed.


(** Division by +0: a positive finite numerator gives +infinity. *)
Lemma div_pos_zero (a : float) : finite_pos a = true -> a / 0 = infinity.
Proof.
  unfold finite_pos. intros H. apply Prim2SF_inj. rewrite div_spec.
  destruct (Prim2SF a) as [| | |[|] m e]; try discriminate. reflexivity.
Qed.

(** ** binary64: signs through rounding *)

Lemma shr_1_nonneg mrs : (0 <= shr_m mrs)%Z -> (0 <= shr_m (shr_1 mrs))%Z.
Proof.
  destruct mrs as [m r s]. cbn. intros H.
  destruct m as [|[p|p|]|p]; cbn; lia.
Qed.

Lemma iter_pos_nonneg (n : positive) mrs :
  (0 <= shr_m mrs)%Z -> (0 <= shr_m (SpecFloat.iter_pos shr_1 n mrs))%Z.
Proof.
  revert mrs. induction n as [n IH|n IH|]; intros mrs H; cbn.
  - apply IH, IH, shr_1_nonneg, H.
  - apply IH, IH, H.
  - apply shr_1_nonneg, H.
Qed.

Lemma shr_fexp_nonneg m e l :
  (0 <= m)%Z -> (0 <= shr_m (fst (shr_fexp prec emax m e l)))%Z.
Proof.
  intros H. unfold shr_fexp, shr.
  assert (H0 : (0 <= shr_m (shr_record_of_loc m l))%Z)
    by (destruct l as [|[| |]]; exact H).
  destruct (fexp prec emax (Zdigits2 m + e) - e)%Z; cbn [fst]; auto.
  now apply iter_pos_nonneg.
Qed.

Lemma round_nearest_even_nonneg m l :
  (0 <= m)%Z -> (0 <= round_nearest_even m l)%Z.
Proof.
  intros H. destruct l as [|[| |]]; cbn; try lia.
  destruct (Z.even m); lia.
Qed.

Lemma binary_round_aux_nonneg m e l :
  (0 <= m)%Z -> sf_nonneg (binary_round_aux prec emax false m e l) = true.
Proof.
  intros H. unfold binary_round_aux.
  pose proof (shr_fexp_nonneg m e l H) as H1.
  destruct (shr_fexp prec emax m e l) as [mrs' e'].
  cbn [fst] in H1.
  pose proof (round_nearest_even_nonneg _ (loc_of_shr_record mrs') H1) as H2.
  pose proof (shr_fexp_nonneg _ e' loc_Exact H2) as H3.
  destruct (shr_fexp prec emax _ e' loc_Exact) as [mrs'' e''].
  cbn [fst] in H3.
  destruct (shr_m mrs''); [reflexivity| |lia].
  now destruct (e'' <=? emax - prec)%Z.
Qed.

Lemma SFadd_nonneg x y :
  sf_nonneg x = true -> sf_nonneg y = true -> sf_nonneg (SFadd prec emax x y) = true.
Proof.
  destruct x as [[|]|[|]| |[|] mx ex]; try discriminate;
  destruct y as [[|]|[|]| |[|] my ey]; try discriminate; intros _ _;
    try reflexivity.
  unfold SFadd, cond_Zopp, binary_normalize.
  destruct (Z.pos _ + Z.pos _)%Z eqn:E; try lia.
  unfold binary_round.
  match goal with
  | |- context [shl_align p ?a ?b] => destruct (shl_align p a b) as [mz ez]
  end.
  apply binary_round_aux_nonneg. lia.
Qed.

Lemma add_nonneg x y : nonneg x = true -> nonneg y = true -> nonneg (x + y) = true.
Proof. unfold nonneg. rewrite add_spec. apply SFadd_nonneg. Qed.

Lemma add_infinity_l y : nonneg y = true -> infinity + y = infinity.
Proof.
  unfold nonneg. intros H. apply Prim2SF_inj. rewrite add_spec.
  change (Prim2SF infinity) with (S754_infinity false).
  destruct (Prim2SF y) as [[|]|[|]| |[|] my ey]; try discriminate; reflexivity.
Qed.

Lemma add_infinity_r x : nonneg x = true -> x + infinity = infinity.
Proof.
  unfold nonneg. intros H. apply Prim2SF_inj. rewrite add_spec.
  change (Prim2SF infinity) with (S754_infinity false).
  destruct (Prim2SF x) as [[|]|[|]| |[|] my ey]; try discriminate; reflexivity.
Qed.

Lemma SFdiv_nonneg x y :
  sf_nonneg x = true -> sf_nonneg y = true ->
  SFdiv prec emax x y = S754_nan \/ sf_nonneg (SFdiv prec emax x y) = true.
Proof.
  destruct x as [[|]|[|]| |[|] mx ex]; try discriminate;
  destruct y as [[|]|[|]| |[|] my ey]; try discriminate; intros _ _;
    try (now left); try (now right).
  right. unfold SFdiv, SFdiv_core_binary. cbn [xorb].
  set (m' := match _ with Z.pos _ => _ | _ => _ end).
  assert (Hm : (0 <= m')%Z).
  { unfold m'. destruct (_ - _ - _)%Z; try lia.
    rewrite Z.shiftl_mul_pow2 by lia. apply Z.mul_nonneg_nonneg; lia. }
  pose proof (Z.div_pos m' (Z.pos my) Hm ltac:(lia)) as Hq.
  unfold Z.div in Hq.
  destruct (Z.div_eucl m' (Z.pos my)) as [q r]. cbn [fst] in Hq.
  now apply binary_round_aux_nonneg.
Qed.


(** ** binary64: conversion of a row count *)

Lemma digits2_pos_size p : digits2_pos p = Pos.size p.
Proof. induction p; cbn; congruence. Qed.

Lemma digits2_pos_small (p : positive) :
  (Z.pos p < 2 ^ 52)%Z -> (Z.pos (digits2_pos p) <= 52)%Z.
Proof.
  intros H. rewrite digits2_pos_size.
  pose proof (Pos.size_le p) as L.
  apply Pos2Z.pos_le_pos in L. rewrite Pos2Z.inj_pow in L.
  destruct (Z.le_gt_cases (Z.pos (Pos.size p)) 52) as [|G]; [assumption|].
  exfalso.
  assert (2 ^ 53 <= 2 ^ Z.pos (Pos.size p))%Z by (apply Z.pow_le_mono_r; lia).
  assert (2 ^ 53 = 2 * 2 ^ 52)%Z by reflexivity.
  change (2 * 1)%Z with 2%Z in L. rewrite (Pos2Z.inj_xO p) in L.
  lia.
Qed.

Lemma binary_normalize_small (p : positive) :
  (Z.pos p < 2 ^ 52)%Z ->
  exists m e,
    binary_normalize prec emax (Z.pos p) 0 false = S754_finite false m e /\
    valid_binary (S754_finite false m e) = true.
Proof.
  intros H. apply digits2_pos_small in H.
  set (d := Z.pos (digits2_pos p)) in *.
  unfold binary_normalize, binary_round.
  rewrite Z.add_0_r. fold d.
  assert (Hf : fexp prec emax d = (d - 53)%Z).
  { unfold fexp, emin, prec, emax. lia. }
  rewrite Hf. unfold shl_align.
  destruct (d - 53 - 0)%Z as [|k|k] eqn:Ek; try lia.
  assert (Hk : Z.pos k = (53 - d)%Z) by lia.
  assert (Hd : Z.pos (digits2_pos (Pos.iter xO p k)) = 53%Z).
  { rewrite digits2_pos_iter_xO. fold d. lia. }
  exists (Pos.iter xO p k), (d - 53)%Z.
  assert (Hfe : fexp prec emax (53 + (d - 53)) = (d - 53)%Z).
  { unfold fexp, emin, prec, emax. lia. }
  split.
  - unfold binary_round_aux, shr_fexp, Zdigits2. rewrite Hd, Hfe, Z.sub_diag.
    cbn [shr shr_record_of_loc shr_m loc_of_shr_record round_nearest_even].
    unfold Zdigits2. rewrite Hd, Hfe, Z.sub_diag.
    cbn [shr shr_m].
    destruct (d - 53 <=? emax - prec)%Z eqn:El; [reflexivity|].
    apply Z.leb_gt in El. unfold emax, prec in El. lia.
  - cbn [valid_binary]. unfold SpecFloat.bounded, canonical_mantissa.
    rewrite Hd, Hfe, Z.eqb_refl. cbn [andb]. apply Z.leb_le.
    unfold emax, prec. lia.
Qed.

Lemma Z2F_finite_pos (z : Z) : (0 < z < 2 ^ 52)%Z -> finite_pos (Z2F z) = true.
Proof.
  intros [Hp Hlt]. destruct z as [|p|p]; try lia.
  destruct (binary_normalize_small p Hlt) as (m & e & E & V).
  unfold finite_pos, Z2F. rewrite E, (Prim2SF_SF2Prim _ V). reflexivity.
Qed.

Lemma div_infinity_pos (x : float) : finite_pos x = true -> infinity / x = infinity.
Proof.
  unfold finite_pos. intros H. apply Prim2SF_inj. rewrite div_spec.
  change (Prim2SF infinity) with (S754_infinity false).
  destruct (Prim2SF x) as [| | |[|] m e]; try discriminate. reflexivity.
Qed.

End Float64.

(** ** binary64: NaN test, sums and the mean of a ratio series *)

Section Mean64.

Import Binary64.
Local Open Scope float_scope.

Lemma SFeqb_refl (x : spec_float) :
  SFeqb x x = match x with S754_nan => false | _ => true end.
Proof.
  destruct x as [[|]|[|]| |[|] m e]; try reflexivity;
    unfold SFeqb, SFcompare; rewrite Z.compare_refl;
    change (Pos.compare_cont Eq m m) with (Pos.compare m m);
    now rewrite Pos.compare_refl.
Qed.

Lemma is_nan_spec (x : float) :
  is_nan x = match Prim2SF x with S754_nan => true | _ => false end.
Proof.
  unfold is_nan. rewrite eqb_spec, SFeqb_refl. now destruct (Prim2SF x).
Qed.

Lemma nonneg_not_nan (x : float) : nonneg x = true -> is_nan x = false.
Proof.
  unfold nonneg. rewrite is_nan_spec.
  now destruct (Prim2SF x) as [[|]|[|]| |[|] m e].
Qed.

Lemma finite_pos_nonneg (x : float) : finite_pos x = true -> nonneg x = true.
Proof.
  unfold finite_pos, nonneg.
  now destruct (Prim2SF x) as [[|]|[|]| |[|] m e].
Qed.

Lemma add_zero_r (x : float) : nonneg x = true -> x + 0 = x.
Proof.
  unfold nonneg. intros H. apply Prim2SF_inj. rewrite add_spec.
  change (Prim2SF 0) with (S754_zero false).
  now destruct (Prim2SF x) as [[|]|[|]| |[|] m e].
Qed.

(** A quotient of two non-negative doubles is non-negative or NaN. *)
Lemma div_nonneg (x y : float) :
  nonneg x = true -> nonneg y = true ->
  is_nan (x / y) = true \/ nonneg (x / y) = true.
Proof.
  unfold nonneg. intros Hx Hy. rewrite is_nan_spec, div_spec.
  destruct (SFdiv_nonneg _ _ Hx Hy) as [E|E].
  - left. unfold SF64div. now rewrite E.
  - now right.
Qed.

Lemma fillna0_nonneg (s : Series float) :
  Forall nonneg_or_nan s -> Forall (fun x => nonneg x = true) (fillna0 s).
Proof.
  unfold fillna0. intros H. apply Forall_map.
  eapply Forall_impl; [|exact H]. intros x [N|N]; cbn.
  - now rewrite N.
  - now rewrite (nonneg_not_nan x N).
Qed.

Lemma add_neg_zero_l (x : float) : neg_zero + x = x.
Proof.
  apply Prim2SF_inj. rewrite add_spec.
  change (Prim2SF neg_zero) with (S754_zero true).
  now destruct (Prim2SF x) as [[|]|[|]| |[|] m e].
Qed.

Lemma add_zero_l (x : float) : nonneg x = true -> 0 + x = x.
Proof.
  unfold nonneg. intros H. apply Prim2SF_inj. rewrite add_spec.
  change (Prim2SF 0) with (S754_zero false).
  now destruct (Prim2SF x) as [[|]|[|]| |[|] m e].
Qed.

Lemma pairwise_sum_eq (d : nat) (a : Series float) :
  pairwise_sum d a =
  if (List.length a <? 8)%nat then sum_loop a
  else if (List.length a <=? 128)%nat then sum_block a
  else
    match d with
    | O => PrimFloat.nan
    | S d' =>
        let n2 := (List.length a / 2 - (List.length a / 2) mod 8)%nat in
        pairwise_sum d' (firstn n2 a) + pairwise_sum d' (skipn n2 a)
    end.
Proof. now destruct d. Qed.

(** Where numpy splits a long array: both halves are shorter, and hold
    at least 8 values. *)
Lemma split_point (n : nat) :
  (128 < n)%nat ->
  let n2 := (n / 2 - (n / 2) mod 8)%nat in
  (8 <= n2 < n)%nat /\ (8 <= n - n2 < n)%nat.
Proof.
  intros Hn n2.
  pose proof (Nat.div_mod_eq n 2) as D.
  pose proof (Nat.mod_upper_bound n 2 ltac:(lia)) as B.
  pose proof (Nat.mod_upper_bound (n / 2) 8 ltac:(lia)) as B8.
  pose proof (Nat.Div0.mod_le (n / 2) 8) as L8.
  unfold n2. lia.
Qed.

(** The accumulators stay eight, and [add_groups] leaves fewer than
    eight values over. *)
Lemma add_groups_shape (a r : Series float) :
  List.length r = 8%nat ->
  List.length (fst (add_groups r a)) = 8%nat /\
  (List.length (snd (add_groups r a)) < 8)%nat.
Proof.
  remember (List.length a) as n eqn:En. revert a r En.
  induction n as [n IH] using lt_wf_ind. intros a r En Hr.
  destruct a as [|x0 [|x1 [|x2 [|x3 [|x4 [|x5 [|x6 [|x7 a']]]]]]]];
    try (cbn; split; [exact Hr|lia]).
  cbn [add_groups]. apply (IH (List.length a')).
  - subst n. cbn. lia.
  - reflexivity.
  - rewrite elementwise_length, Hr. reflexivity.
Qed.

(** The recursion depth [List.length a] is enough: more makes no
    difference. *)
Lemma pairwise_sum_depth (d : nat) (a : Series float) :
  (List.length a <= d)%nat ->
  pairwise_sum d a = pairwise_sum (List.length a) a.
Proof.
  revert a. induction d as [d IH] using lt_wf_ind. intros a Hd.
  rewrite (pairwise_sum_eq d), (pairwise_sum_eq (List.length a)).
  destruct (List.length a <? 8)%nat eqn:H8; [reflexivity|].
  destruct (List.length a <=? 128)%nat eqn:H128; [reflexivity|].
  apply Nat.leb_gt in H128.
  destruct (split_point _ H128) as [[L1 U1] [L2 U2]].
  destruct d as [|d]; [lia|].
  destruct (List.length a) as [|n] eqn:En; [lia|].
  cbv zeta. rewrite <- En in *.
  set (n2 := (List.length a / 2 - (List.length a / 2) mod 8)%nat) in *.
  assert (Lf : List.length (firstn n2 a) = n2) by (apply firstn_length_le; lia).
  assert (Ls : List.length (skipn n2 a) = (List.length a - n2)%nat)
    by apply length_skipn.
  clearbody n2.
  rewrite (IH d ltac:(lia) (firstn n2 a)) by lia.
  rewrite (IH d ltac:(lia) (skipn n2 a)) by lia.
  rewrite (IH n ltac:(lia) (firstn n2 a)) by lia.
  rewrite (IH n ltac:(lia) (skipn n2 a)) by lia.
  reflexivity.
Qed.

(** *** What every order of summation preserves

    [P] is a class of doubles closed under addition; [R] is a class that
    addition with a member of [P] does not leave. *)

Section SumInvariant.

Variable P R : float -> Prop.
Hypothesis P_add : forall u v, P u -> P v -> P (u + v).
Hypothesis R_left : forall u v, R u -> P v -> R (u + v).
Hypothesis R_right : forall u v, P u -> R v -> R (u + v).

Lemma fold_add_inv (a : Series float) (acc : float) :
  Forall P a -> P acc -> P (fold_left PrimFloat.add a acc).
Proof.
  intros H. revert acc. induction H as [|x a Hx _ IH]; intros acc Ha.
  - exact Ha.
  - cbn. apply IH. now apply P_add.
Qed.

Lemma fold_add_from (a : Series float) (acc : float) :
  Forall P a -> R acc -> R (fold_left PrimFloat.add a acc).
Proof.
  intros H. revert acc. induction H as [|x a Hx _ IH]; intros acc Ha.
  - exact Ha.
  - cbn. apply IH. now apply R_left.
Qed.

Lemma fold_add_abs (a : Series float) (acc : float) :
  Forall P a -> P acc -> Exists R a -> R (fold_left PrimFloat.add a acc).
Proof.
  intros H. revert acc. induction H as [|x a Hx Ha IH]; intros acc Hacc Hex.
  - inversion Hex.
  - cbn. inversion Hex as [? ? Hr|? ? Hr]; subst.
    + apply fold_add_from; [exact Ha|now apply R_right].
    + apply IH; [now apply P_add|exact Hr].
Qed.

Lemma sum_loop_inv (a : Series float) :
  a <> [] -> Forall P a -> P (sum_loop a).
Proof.
  intros Hne H. destruct a as [|x a]; [congruence|].
  unfold sum_loop. cbn [fold_left fadd neg_zero arith].
  rewrite add_neg_zero_l. inversion H; subst. now apply fold_add_inv.
Qed.

Lemma sum_loop_abs (a : Series float) :
  Forall P a -> Exists R a -> R (sum_loop a).
Proof.
  intros H Hex. destruct a as [|x a]; [inversion Hex|].
  unfold sum_loop. cbn [fold_left fadd neg_zero arith].
  rewrite add_neg_zero_l. inversion H; subst.
  inversion Hex as [? ? Hr|? ? Hr]; subst.
  - now apply fold_add_from.
  - now apply fold_add_abs.
Qed.

Lemma elementwise_add_inv (r g : Series float) :
  Forall P r -> Forall P g -> Forall P (elementwise PrimFloat.add r g).
Proof.
  intros Hr. revert g. induction Hr as [|x r Hx _ IH]; intros g Hg.
  - constructor.
  - destruct Hg as [|y g Hy Hg]; [constructor|].
    cbn. constructor; [now apply P_add|now apply IH].
Qed.

Lemma elementwise_add_abs (r g : Series float) :
  List.length r = List.length g ->
  Forall P r -> Forall P g -> Exists R r \/ Exists R g ->
  Exists R (elementwise PrimFloat.add r g).
Proof.
  intros Hl Hr. revert g Hl. induction Hr as [|x r Hx Hr IH]; intros g Hl Hg Hex.
  - destruct g; [|discriminate]. destruct Hex as [Hex|Hex]; inversion Hex.
  - destruct Hg as [|y g Hy Hg]; [discriminate|]. cbn.
    assert (Hcase : (R x \/ R y) \/ (Exists R r \/ Exists R g)).
    { destruct Hex as [Hex|Hex]; inversion Hex; subst; tauto. }
    destruct Hcase as [[Rx|Ry]|Hrest].
    + apply Exists_cons_hd. now apply R_left.
    + apply Exists_cons_hd. now apply R_right.
    + apply Exists_cons_tl. apply IH; [now injection Hl|exact Hg|exact Hrest].
Qed.

Lemma add_groups_inv (a r : Series float) :
  Forall P r -> Forall P a ->
  Forall P (fst (add_groups r a)) /\ Forall P (snd (add_groups r a)).
Proof.
  remember (List.length a) as n eqn:En. revert a r En.
  induction n as [n IH] using lt_wf_ind. intros a r En Hr Ha.
  destruct a as [|x0 [|x1 [|x2 [|x3 [|x4 [|x5 [|x6 [|x7 a']]]]]]]];
    try (cbn; split; assumption).
  cbn [add_groups].
  assert (Hg : Forall P [x0; x1; x2; x3; x4; x5; x6; x7] /\ Forall P a').
  { repeat match goal with
           | H : Forall P (_ :: _) |- _ => inversion H; subst; clear H
           end.
    split; [repeat constructor; assumption|assumption]. }
  destruct Hg as [Hg Ha'].
  apply (IH (List.length a')).
  - subst n. cbn. lia.
  - reflexivity.
  - now apply elementwise_add_inv.
  - exact Ha'.
Qed.

Lemma add_groups_abs (a r : Series float) :
  List.length r = 8%nat ->
  Forall P r -> Forall P a -> Exists R r \/ Exists R a ->
  Exists R (fst (add_groups r a)) \/ Exists R (snd (add_groups r a)).
Proof.
  remember (List.length a) as n eqn:En. revert a r En.
  induction n as [n IH] using lt_wf_ind. intros a r En Hl Hr Ha Hex.
  destruct a as [|x0 [|x1 [|x2 [|x3 [|x4 [|x5 [|x6 [|x7 a']]]]]]]];
    try (cbn; exact Hex).
  cbn [add_groups].
  assert (Hg : Forall P [x0; x1; x2; x3; x4; x5; x6; x7] /\ Forall P a').
  { repeat match goal with
           | H : Forall P (_ :: _) |- _ => inversion H; subst; clear H
           end.
    split; [repeat constructor; assumption|assumption]. }
  destruct Hg as [Hg Ha'].
  apply (IH (List.length a')).
  - subst n. cbn. lia.
  - reflexivity.
  - rewrite elementwise_length, Hl. reflexivity.
  - now apply elementwise_add_inv.
  - exact Ha'.
  - assert (Hcase : (Exists R r \/ Exists R [x0; x1; x2; x3; x4; x5; x6; x7])
                    \/ Exists R a').
    { destruct Hex as [Hex|Hex]; [tauto|].
      change (x0 :: x1 :: x2 :: x3 :: x4 :: x5 :: x6 :: x7 :: a')
        with ([x0; x1; x2; x3; x4; x5; x6; x7] ++ a') in Hex.
      apply Exists_app in Hex. tauto. }
    destruct Hcase as [Hhead|Htail]; [left|now right].
    apply elementwise_add_abs; [now rewrite Hl|exact Hr|exact Hg|exact Hhead].
Qed.

Lemma sum_block_cases (a : Series float) :
  (8 <= List.length a)%nat ->
  exists r0 r1 r2 r3 r4 r5 r6 r7 rest,
    add_groups (firstn 8 a) (skipn 8 a) = ([r0; r1; r2; r3; r4; r5; r6; r7], rest) /\
    sum_block a =
      fold_left PrimFloat.add rest
        (((r0 + r1) + (r2 + r3)) + ((r4 + r5) + (r6 + r7))).
Proof.
  intros H8.
  assert (Hf : List.length (firstn 8 a) = 8%nat) by (apply firstn_length_le; lia).
  destruct (add_groups_shape (skipn 8 a) (firstn 8 a) Hf) as [Hl _].
  unfold sum_block.
  destruct (add_groups (firstn 8 a) (skipn 8 a)) as [r rest]. cbn [fst] in Hl.
  destruct r as [|r0 [|r1 [|r2 [|r3 [|r4 [|r5 [|r6 [|r7 [|r8 r]]]]]]]]];
    try discriminate.
  now exists r0, r1, r2, r3, r4, r5, r6, r7, rest.
Qed.

Lemma sum_block_inv (a : Series float) :
  (8 <= List.length a)%nat -> Forall P a -> P (sum_block a).
Proof.
  intros H8 Ha.
  destruct (sum_block_cases a H8)
    as (r0 & r1 & r2 & r3 & r4 & r5 & r6 & r7 & rest & E & ->).
  rewrite <- (firstn_skipn 8 a) in Ha. apply Forall_app in Ha.
  destruct Ha as [Hf Hs].
  destruct (add_groups_inv (skipn 8 a) (firstn 8 a) Hf Hs) as [Hr Hrest].
  rewrite E in Hr, Hrest. cbn [fst snd] in Hr, Hrest.
  repeat match goal with
         | H : Forall P (_ :: _) |- _ => inversion H; subst; clear H
         end.
  apply fold_add_inv; [exact Hrest|]. repeat apply P_add; assumption.
Qed.

Lemma tree_abs (r0 r1 r2 r3 r4 r5 r6 r7 : float) :
  Forall P [r0; r1; r2; r3; r4; r5; r6; r7] ->
  Exists R [r0; r1; r2; r3; r4; r5; r6; r7] ->
  R (((r0 + r1) + (r2 + r3)) + ((r4 + r5) + (r6 + r7))).
Proof.
  intros Hp Hex.
  repeat match goal with
         | H : Forall P (_ :: _) |- _ => inversion H; subst; clear H
         end.
  repeat match goal with
         | H : Exists R (_ :: _) |- _ => inversion H; subst; clear H
         | H : Exists R [] |- _ => inversion H
         end.
  - apply R_left; [apply R_left; [now apply R_left|now apply P_add]
                  |apply P_add; now apply P_add].
  - apply R_left; [apply R_left; [now apply R_right|now apply P_add]
                  |apply P_add; now apply P_add].
  - apply R_left; [apply R_right; [now apply P_add|now apply R_left]
                  |apply P_add; now apply P_add].
  - apply R_left; [apply R_right; [now apply P_add|now apply R_right]
                  |apply P_add; now apply P_add].
  - apply R_right; [apply P_add; now apply P_add
                   |apply R_left; [now apply R_left|now apply P_add]].
  - apply R_right; [apply P_add; now apply P_add
                   |apply R_left; [now apply R_right|now apply P_add]].
  - apply R_right; [apply P_add; now apply P_add
                   |apply R_right; [now apply P_add|now apply R_left]].
  - apply R_right; [apply P_add; now apply P_add
                   |apply R_right; [now apply P_add|now apply R_right]].
Qed.

Lemma sum_block_abs (a : Series float) :
  (8 <= List.length a)%nat -> Forall P a -> Exists R a -> R (sum_block a).
Proof.
  intros H8 Ha Hex.
  destruct (sum_block_cases a H8)
    as (r0 & r1 & r2 & r3 & r4 & r5 & r6 & r7 & rest & E & ->).
  assert (Hf8 : List.length (firstn 8 a) = 8%nat) by (apply firstn_length_le; lia).
  rewrite <- (firstn_skipn 8 a) in Ha, Hex.
  apply Forall_app in Ha. destruct Ha as [Hf Hs].
  apply Exists_app in Hex.
  destruct (add_groups_inv (skipn 8 a) (firstn 8 a) Hf Hs) as [Hr Hrest].
  pose proof (add_groups_abs (skipn 8 a) (firstn 8 a) Hf8 Hf Hs Hex) as Habs.
  rewrite E in Hr, Hrest, Habs. cbn [fst snd] in Hr, Hrest, Habs.
  destruct Habs as [Hacc|Hleft].
  - apply fold_add_from; [exact Hrest|]. now apply tree_abs.
  - apply fold_add_abs; [exact Hrest| |exact Hleft].
    repeat match goal with
           | H : Forall P (_ :: _) |- _ => inversion H; subst; clear H
           end.
    repeat apply P_add; assumption.
Qed.

Lemma pairwise_sum_inv (d : nat) (a : Series float) :
  a <> [] -> (List.length a <= d)%nat -> Forall P a -> P (pairwise_sum d a).
Proof.
  revert a. induction d as [d IH] using lt_wf_ind. intros a Hne Hd Ha.
  rewrite pairwise_sum_eq.
  destruct (List.length a <? 8)%nat eqn:H8; [now apply sum_loop_inv|].
  apply Nat.ltb_ge in H8.
  destruct (List.length a <=? 128)%nat eqn:H128; [now apply sum_block_inv|].
  apply Nat.leb_gt in H128.
  destruct (split_point _ H128) as [[L1 U1] [L2 U2]].
  destruct d as [|d]; [lia|]. cbv zeta.
  set (n2 := (List.length a / 2 - (List.length a / 2) mod 8)%nat) in *.
  assert (Lf : List.length (firstn n2 a) = n2) by (apply firstn_length_le; lia).
  assert (Ls : List.length (skipn n2 a) = (List.length a - n2)%nat)
    by apply length_skipn.
  clearbody n2.
  rewrite <- (firstn_skipn n2 a) in Ha. apply Forall_app in Ha.
  destruct Ha as [Hf Hs].
  apply P_add; apply (IH d); try lia; try assumption.
  - intros E. rewrite E in Lf. cbn in Lf. lia.
  - intros E. rewrite E in Ls. cbn in Ls. lia.
Qed.

Lemma pairwise_sum_abs (d : nat) (a : Series float) :
  (List.length a <= d)%nat -> Forall P a -> Exists R a -> R (pairwise_sum d a).
Proof.
  revert a. induction d as [d IH] using lt_wf_ind. intros a Hd Ha Hex.
  rewrite pairwise_sum_eq.
  destruct (List.length a <? 8)%nat eqn:H8; [now apply sum_loop_abs|].
  apply Nat.ltb_ge in H8.
  destruct (List.length a <=? 128)%nat eqn:H128; [now apply sum_block_abs|].
  apply Nat.leb_gt in H128.
  destruct (split_point _ H128) as [[L1 U1] [L2 U2]].
  destruct d as [|d]; [lia|]. cbv zeta.
  set (n2 := (List.length a / 2 - (List.length a / 2) mod 8)%nat) in *.
  assert (Lf : List.length (firstn n2 a) = n2) by (apply firstn_length_le; lia).
  assert (Ls : List.length (skipn n2 a) = (List.length a - n2)%nat)
    by apply length_skipn.
  clearbody n2.
  rewrite <- (firstn_skipn n2 a) in Ha, Hex.
  apply Forall_app in Ha. destruct Ha as [Hf Hs].
  apply Exists_app in Hex.
  assert (Nf : firstn n2 a <> []).
  { intros E. rewrite E in Lf. cbn in Lf. lia. }
  assert (Ns : skipn n2 a <> []).
  { intros E. rewrite E in Ls. cbn in Ls. lia. }
  destruct Hex as [Hex|Hex].
  - apply R_left.
    + apply (IH d); try lia; assumption.
    + apply (pairwise_sum_inv d); try lia; assumption.
  - apply R_right.
    + apply (pairwise_sum_inv d); try lia; assumption.
    + apply (IH d); try lia; assumption.
Qed.

Lemma np_sum_inv (a : Series float) :
  a <> [] -> Forall P a -> P (np_sum a).
Proof.
  intros Hne Ha. destruct a as [|x a]; [congruence|].
  unfold np_sum. cbn [fadd neg_zero arith]. rewrite add_neg_zero_l.
  apply pairwise_sum_inv; [discriminate|lia|exact Ha].
Qed.

Lemma np_sum_abs (a : Series float) :
  Forall P a -> Exists R a -> R (np_sum a).
Proof.
  intros Ha Hex. destruct a as [|x a]; [inversion Hex|].
  unfold np_sum. cbn [fadd neg_zero arith]. rewrite add_neg_zero_l.
  apply pairwise_sum_abs; [lia|exact Ha|exact Hex].
Qed.

End SumInvariant.

(** A sum of non-negative doubles is non-negative, in whatever order
    numpy adds them. *)
Lemma np_sum_nonneg (a : Series float) :
  a <> [] -> Forall (fun x => nonneg x = true) a -> nonneg (np_sum a) = true.
Proof.
  intros Hne Ha.
  apply (np_sum_inv (fun x => nonneg x = true)); try assumption.
  intros u v. apply add_nonneg.
Qed.

(** ... and +infinity as soon as one of them is. *)
Lemma np_sum_infinity (a : Series float) :
  Forall (fun x => nonneg x = true) a -> In infinity a -> np_sum a = infinity.
Proof.
  intros Ha Hin.
  apply (np_sum_abs (fun x => nonneg x = true) (fun x => x = infinity)).
  - intros u v. apply add_nonneg.
  - intros u v -> Hv. now apply add_infinity_l.
  - intros u v Hu ->. now apply add_infinity_r.
  - exact Ha.
  - apply Exists_exists. now exists infinity.
Qed.

Lemma np_sum_loop (a : Series float) :
  a <> [] -> (List.length a < 8)%nat ->
  np_sum a = neg_zero + fold_left PrimFloat.add a neg_zero.
Proof.
  intros Hne H. destruct a as [|x a]; [congruence|].
  unfold np_sum. cbn [fadd neg_zero arith]. rewrite pairwise_sum_eq.
  replace (List.length (x :: a) <? 8)%nat with true
    by (symmetry; now apply Nat.ltb_lt).
  reflexivity.
Qed.

(** Up to seven values are added from left to right. *)
Lemma np_sum_short (x : float) (a : Series float) :
  (List.length a < 7)%nat -> np_sum (x :: a) = fold_left PrimFloat.add a x.
Proof.
  intros H. unfold np_sum. cbn [fadd neg_zero arith]. rewrite add_neg_zero_l.
  rewrite pairwise_sum_eq.
  replace (List.length (x :: a) <? 8)%nat with true
    by (symmetry; apply Nat.ltb_lt; cbn; lia).
  unfold sum_loop. cbn [fold_left fadd neg_zero arith].
  now rewrite add_neg_zero_l.
Qed.

Lemma count_notna_le (s : Series float) : (count_notna s <= List.length s)%nat.
Proof. unfold count_notna. apply filter_length_le. Qed.

Lemma count_notna_pos (s : Series float) (x : float) :
  In x s -> is_nan x = false -> (0 < count_notna s)%nat.
Proof.
  intros Hin Hx. unfold count_notna.
  assert (Hf : In x (filter (fun y => negb (isnan y)) s)).
  { apply filter_In. split; [exact Hin|]. cbn. now rewrite Hx. }
  destruct (filter _ s); [destruct Hf|cbn; lia].
Qed.

Lemma In_fillna0 (s : Series float) (x : float) :
  In x s -> is_nan x = false -> In x (fillna0 s).
Proof.
  intros Hin Hx. unfold fillna0. apply in_map_iff. exists x.
  split; [|exact Hin]. cbn. now rewrite Hx.
Qed.

Lemma fillna0_not_nil (s : Series float) : s <> [] -> fillna0 s <> [].
Proof. now destruct s. Qed.

(** An infinite entry among non-negative or NaN entries makes the mean
    +infinity. *)
Lemma mean_infinity (s : Series float) :
  Forall nonneg_or_nan s ->
  (Z.of_nat (List.length s) < 2 ^ 52)%Z ->
  In infinity s ->
  mean s = infinity.
Proof.
  intros Hs Hlen Hin.
  pose proof (count_notna_pos s infinity Hin eq_refl) as Hc.
  pose proof (count_notna_le s) as Hle.
  unfold mean. destruct (count_notna s) as [|n] eqn:En; [lia|].
  rewrite (np_sum_infinity (fillna0 s)).
  - apply div_infinity_pos. unfold of_nat. cbn [of_Z arith].
    apply Z2F_finite_pos. lia.
  - now apply fillna0_nonneg.
  - now apply In_fillna0.
Qed.

Lemma fillna0_id (s : Series float) :
  Forall (fun x => is_nan x = false) s -> fillna0 s = s.
Proof.
  induction 1 as [|x s Hx _ IH]; [reflexivity|].
  cbn [fillna0 map isnan arith]. rewrite Hx. f_equal. exact IH.
Qed.

Lemma count_notna_all (s : Series float) :
  Forall (fun x => is_nan x = false) s -> count_notna s = List.length s.
Proof.
  unfold count_notna. induction 1 as [|x s Hx _ IH]; [reflexivity|].
  cbn [filter isnan arith]. rewrite Hx. cbn. f_equal. exact IH.
Qed.

(** Up to seven entries, none of them NaN: the sum from left to right,
    divided by their number. *)
Lemma mean_short (x : float) (s : Series float) :
  (List.length s < 7)%nat ->
  Forall (fun y => is_nan y = false) (x :: s) ->
  mean (x :: s) = fold_left PrimFloat.add s x / of_nat (List.length (x :: s)).
Proof.
  intros Hlen Hs. unfold mean.
  rewrite (count_notna_all _ Hs), (fillna0_id _ Hs). cbn [List.length].
  now rewrite np_sum_short.
Qed.

Lemma count_notna_app (s1 s2 : Series float) :
  count_notna (s1 ++ s2) = (count_notna s1 + count_notna s2)%nat.
Proof. unfold count_notna. now rewrite filter_app, length_app. Qed.

Lemma fold_add_skips_zero (a b : Series float) :
  a ++ b <> [] ->
  Forall (fun x => nonneg x = true) (a ++ b) ->
  fold_left PrimFloat.add (a ++ 0 :: b) neg_zero =
  fold_left PrimFloat.add (a ++ b) neg_zero.
Proof.
  intros Hne H. apply Forall_app in H. destruct H as [Ha Hb].
  destruct a as [|x a].
  - destruct b as [|y b]; [now contradiction Hne|].
    inversion Hb; subst. cbn [app fold_left].
    rewrite !add_neg_zero_l. now rewrite add_zero_l.
  - rewrite !fold_left_app. cbn [fold_left]. f_equal.
    apply add_zero_r. rewrite add_neg_zero_l. inversion Ha; subst.
    apply (fold_add_inv (fun x => nonneg x = true)); try assumption.
    intros u v. apply add_nonneg.
Qed.

(** In a series of at most seven entries, a NaN entry contributes
    nothing to the mean. *)
Lemma mean_skips_nan (s1 s2 : Series float) :
  Forall nonneg_or_nan (s1 ++ s2) ->
  (List.length (s1 ++ s2) < 7)%nat ->
  mean (s1 ++ PrimFloat.nan :: s2) = mean (s1 ++ s2).
Proof.
  intros H Hlen. unfold mean.
  replace (count_notna (s1 ++ PrimFloat.nan :: s2)) with (count_notna (s1 ++ s2))
    by (rewrite !count_notna_app; reflexivity).
  destruct (count_notna (s1 ++ s2)) as [|n] eqn:En; [reflexivity|].
  assert (Hne : s1 ++ s2 <> []).
  { intros E. rewrite E in En. discriminate. }
  f_equal.
  pose proof (fillna0_nonneg _ H) as Hf.
  assert (E1 : fillna0 (s1 ++ PrimFloat.nan :: s2) = fillna0 s1 ++ 0 :: fillna0 s2).
  { unfold fillna0. rewrite map_app. reflexivity. }
  assert (E2 : fillna0 (s1 ++ s2) = fillna0 s1 ++ fillna0 s2).
  { unfold fillna0. now rewrite map_app. }
  rewrite E1, E2. rewrite E2 in Hf.
  assert (Hne' : fillna0 s1 ++ fillna0 s2 <> []).
  { rewrite <- E2. now apply fillna0_not_nil. }
  assert (Hl : (List.length (fillna0 s1 ++ fillna0 s2) < 7)%nat).
  { rewrite <- E2. unfold fillna0. now rewrite length_map. }
  rewrite !np_sum_loop; try assumption.
  - f_equal. now apply fold_add_skips_zero.
  - lia.
  - now destruct (fillna0 s1).
  - rewrite length_app in *. cbn. lia.
Qed.

End Mean64.

(** ** binary64: rounding is monotone

    Multiplication and division of [Binary64.arith] are specified by
    [SpecFloat]: an exact integer computation followed by
    [binary_round_aux].  This section describes that rounding on integers
    ([shifted], [rne_val], [rnd_result]) and derives from it that the
    product of non-negative finite doubles is monotone in each factor,
    and that a quotient b / a of positive finite doubles with a <= b is
    at least 1. *)

Section Rounding64.

Import Binary64.
Local Open Scope Z_scope.

Lemma digits_bounds (p : positive) :
  2 ^ (Z.pos (digits2_pos p) - 1) <= Z.pos p < 2 ^ Z.pos (digits2_pos p).
Proof.
  rewrite digits2_pos_size. split.
  - pose proof (Pos.size_le p) as L.
    apply Pos2Z.pos_le_pos in L. rewrite Pos2Z.inj_pow in L.
    change (Z.pos 2) with 2 in L. rewrite (Pos2Z.inj_xO p) in L.
    replace (Z.pos (Pos.size p)) with (Z.succ (Z.pos (Pos.size p) - 1)) in L by lia.
    rewrite Z.pow_succ_r in L by lia. lia.
  - pose proof (Pos.size_gt p) as G.
    apply Pos2Z.pos_lt_pos in G. now rewrite Pos2Z.inj_pow in G.
Qed.

Lemma digits_unique (p : positive) (k : Z) :
  2 ^ (k - 1) <= Z.pos p < 2 ^ k -> Z.pos (digits2_pos p) = k.
Proof.
  intros [Hlo Hhi]. pose proof (digits_bounds p) as [Dlo Dhi].
  set (d := Z.pos (digits2_pos p)) in *.
  assert (0 < k).
  { destruct (Z.lt_ge_cases 0 k); [assumption|].
    assert (2 ^ k <= 2 ^ 0) by (destruct (Z.lt_ge_cases k 0);
      [rewrite Z.pow_neg_r by lia; cbn; lia|apply Z.pow_le_mono_r; lia]).
    cbn in *. lia. }
  destruct (Z.lt_trichotomy d k) as [L|[E|G]]; [|assumption|].
  - assert (2 ^ d <= 2 ^ (k - 1)) by (apply Z.pow_le_mono_r; lia). lia.
  - assert (2 ^ k <= 2 ^ (d - 1)) by (apply Z.pow_le_mono_r; lia). lia.
Qed.

(** shr_1 on non-negative mantissas *)
Lemma shr_1_spec (m : Z) (r s : bool) :
  0 <= m ->
  shr_1 (Build_shr_record m r s) = Build_shr_record (m / 2) (Z.odd m) (r || s).
Proof.
  intros H. destruct m as [|[p|p|]|p]; try lia; cbn [shr_1].
  - reflexivity.
  - f_equal. rewrite Pos2Z.inj_xI. 
    replace (2 * Z.pos p + 1) with (1 + Z.pos p * 2) by lia.
    rewrite Z.div_add by lia. reflexivity.
  - f_equal. rewrite Pos2Z.inj_xO. 
    replace (2 * Z.pos p) with (Z.pos p * 2) by lia.
    now rewrite Z.div_mul by lia.
  - reflexivity.
Qed.

Lemma shifted_0 (m : Z) : shifted m 0 (Build_shr_record m false false).
Proof.
  split; [lia|]. exists 0. cbn [shr_m shr_r shr_s].
  change (2 ^ 0) with 1.
  split; [lia|]. split; [lia|].
  split; (split; [discriminate|intros [? _]; lia]).
Qed.

Lemma shifted_step (m k : Z) (mrs : shr_record) :
  0 <= m -> shifted m k mrs -> shifted m (k + 1) (shr_1 mrs).
Proof.
  intros Hm (Hk & rem & Hrem & Hdec & Hr & Hs).
  destruct mrs as [q r s]. cbn [shr_m shr_r shr_s] in *.
  assert (Hpk : 0 < 2 ^ k) by (apply Z.pow_pos_nonneg; lia).
  assert (Hq : 0 <= q) by nia.
  rewrite shr_1_spec by exact Hq. cbn [shr_m shr_r shr_s].
  split; [lia|].
  pose proof (Z.div_mod q 2 ltac:(lia)) as Dq.
  pose proof (Z.mod_pos_bound q 2 ltac:(lia)) as Bq.
  assert (Hp1 : 2 ^ (k + 1) = 2 * 2 ^ k)
    by (replace (k + 1) with (Z.succ k) by lia; apply Z.pow_succ_r; lia).
  exists (rem + 2 ^ k * (q mod 2)). cbn [shr_m shr_r shr_s].
  replace (k + 1 - 1) with k by lia.
  split; [nia|].
  split; [rewrite Hp1, Hdec; rewrite Dq at 1; ring|]. split.
  - rewrite Zodd_mod, Z.eqb_eq. split; [intros ->; lia|].
    intros [_ H]. nia.
  - assert (Hmod : (rem + 2 ^ k * (q mod 2)) mod 2 ^ k = rem).
    { rewrite Z.mul_comm, Z.mod_add by lia. apply Z.mod_small. lia. }
    rewrite Hmod, orb_true_iff, Hr, Hs.
    split.
    + intros [[Hk0 Hge]|[Hk0 Hne]]; (split; [lia|]).
      * assert (0 < 2 ^ (k - 1)) by (apply Z.pow_pos_nonneg; lia). lia.
      * intros ->. apply Hne. apply Z.mod_0_l.
        assert (0 < 2 ^ (k - 1)) by (apply Z.pow_pos_nonneg; lia). lia.
    + intros [_ Hne].
      destruct (Z.eq_dec k 0) as [->|Hk0].
      { change (2 ^ 0) with 1 in Hrem. lia. }
      destruct (Z.le_gt_cases (2 ^ (k - 1)) rem) as [Hge|Hlt].
      * left. split; [lia|assumption].
      * right. split; [lia|]. rewrite Z.mod_small by lia. exact Hne.
Qed.

Lemma shifted_iter (m : Z) (n : positive) (k : Z) (mrs : shr_record) :
  0 <= m -> shifted m k mrs ->
  shifted m (k + Z.pos n) (SpecFloat.iter_pos shr_1 n mrs).
Proof.
  intros Hm. revert k mrs. induction n as [n IH|n IH|]; intros k mrs H; cbn [SpecFloat.iter_pos].
  - replace (k + Z.pos n~1) with (k + 1 + Z.pos n + Z.pos n) by lia.
    apply IH, IH, shifted_step; assumption.
  - replace (k + Z.pos n~0) with (k + Z.pos n + Z.pos n) by lia.
    apply IH, IH; assumption.
  - now apply shifted_step.
Qed.

Lemma pow2_pos (k : Z) : 0 <= k -> 0 < 2 ^ k.
Proof. intros. apply Z.pow_pos_nonneg; lia. Qed.

Lemma pow2_half (k : Z) : 0 < k -> 2 ^ k = 2 * 2 ^ (k - 1).
Proof.
  intros H. replace k with (Z.succ (k - 1)) at 1 by lia.
  apply Z.pow_succ_r. lia.
Qed.

Lemma shifted_div_mod (m k : Z) (mrs : shr_record) :
  shifted m k mrs ->
  shr_m mrs = m / 2 ^ k /\
  (shr_r mrs = true <-> 0 < k /\ 2 ^ (k - 1) <= m mod 2 ^ k) /\
  (shr_s mrs = true <-> 0 < k /\ (m mod 2 ^ k) mod 2 ^ (k - 1) <> 0).
Proof.
  intros (Hk & rem & Hrem & Hdec & Hr & Hs).
  pose proof (pow2_pos k Hk) as Hp.
  assert (Hq : m / 2 ^ k = shr_m mrs).
  { symmetry. apply (Z.div_unique_pos m (2 ^ k) (shr_m mrs) rem); lia. }
  assert (Hm : m mod 2 ^ k = rem).
  { symmetry. apply (Z.mod_unique_pos m (2 ^ k) (shr_m mrs) rem); lia. }
  rewrite Hq, Hm. auto.
Qed.

Lemma round_shifted (m k : Z) (mrs : shr_record) :
  shifted m k mrs ->
  round_nearest_even (shr_m mrs) (loc_of_shr_record mrs) = rne_val m k.
Proof.
  intros H. pose proof H as (Hk & _).
  destruct (shifted_div_mod m k mrs H) as (Hq & Hr & Hs).
  pose proof (pow2_pos k Hk) as Hp.
  pose proof (Z.mod_pos_bound m (2 ^ k) Hp) as Hb.
  unfold rne_val. rewrite <- Hq.
  set (rem := m mod 2 ^ k) in *.
  destruct mrs as [q r s]. cbn [shr_m shr_r shr_s loc_of_shr_record] in *.
  destruct (Z.eq_dec k 0) as [->|Hk0].
  { change (2 ^ 0) with 1 in *.
    assert (Hrem0 : rem = 0) by lia.
    destruct r; [destruct Hr as [Hr _]; specialize (Hr eq_refl); lia|].
    destruct s; [destruct Hs as [Hs _]; specialize (Hs eq_refl); lia|].
    clearbody rem. subst rem. reflexivity. }
  pose proof (pow2_half k ltac:(lia)) as Hh.
  pose proof (pow2_pos (k - 1) ltac:(lia)) as Hp1.
  set (h := 2 ^ (k - 1)) in *.
  destruct r, s; cbn [round_nearest_even].
  - destruct Hr as [Hr _]. destruct Hs as [Hs _].
    specialize (Hr eq_refl). specialize (Hs eq_refl).
    assert (rem <> h) by (intros E; apply (proj2 Hs); rewrite E; apply Z.mod_same; lia).
    replace (2 * rem <? 2 ^ k) with false by (symmetry; apply Z.ltb_ge; lia).
    replace (2 * rem =? 2 ^ k) with false by (symmetry; apply Z.eqb_neq; lia).
    reflexivity.
  - destruct Hr as [Hr _]. specialize (Hr eq_refl).
    assert (Hz : rem mod h = 0).
    { destruct (Z.eq_dec (rem mod h) 0); [assumption|].
      destruct Hs as [_ Hs]. assert (false = true) by (apply Hs; split; [lia|assumption]).
      discriminate. }
    assert (rem = h).
    { pose proof (Z.div_mod rem h ltac:(lia)) as D. rewrite Hz in D.
      assert (rem / h = 1) by nia. nia. }
    replace (2 * rem <? 2 ^ k) with false by (symmetry; apply Z.ltb_ge; lia).
    replace (2 * rem =? 2 ^ k) with true by (symmetry; apply Z.eqb_eq; lia).
    reflexivity.
  - assert (rem < h).
    { destruct (Z.lt_ge_cases rem h); [assumption|].
      destruct Hr as [_ Hr]. assert (false = true) by (apply Hr; split; lia).
      discriminate. }
    replace (2 * rem <? 2 ^ k) with true by (symmetry; apply Z.ltb_lt; lia).
    reflexivity.
  - assert (rem < h).
    { destruct (Z.lt_ge_cases rem h); [assumption|].
      destruct Hr as [_ Hr]. assert (false = true) by (apply Hr; split; lia).
      discriminate. }
    replace (2 * rem <? 2 ^ k) with true by (symmetry; apply Z.ltb_lt; lia).
    reflexivity.
Qed.

Lemma rne_val_bounds (m k : Z) : m / 2 ^ k <= rne_val m k <= m / 2 ^ k + 1.
Proof.
  unfold rne_val.
  destruct (2 * (m mod 2 ^ k) <? 2 ^ k); [lia|].
  destruct (2 * (m mod 2 ^ k) =? 2 ^ k); [destruct (Z.even (m / 2 ^ k))|]; lia.
Qed.

Lemma rne_val_mono (m m' k : Z) :
  0 <= k -> m <= m' -> rne_val m k <= rne_val m' k.
Proof.
  intros Hk Hle.
  pose proof (pow2_pos k Hk) as Hp.
  pose proof (Z.div_le_mono m m' (2 ^ k) Hp Hle) as Hq.
  pose proof (rne_val_bounds m k) as B. pose proof (rne_val_bounds m' k) as B'.
  destruct (Z.eq_dec (m / 2 ^ k) (m' / 2 ^ k)) as [E|N]; [|lia].
  pose proof (Z.div_mod m (2 ^ k) ltac:(lia)) as D.
  pose proof (Z.div_mod m' (2 ^ k) ltac:(lia)) as D'.
  assert (Hr : m mod 2 ^ k <= m' mod 2 ^ k) by (rewrite E in D; lia).
  unfold rne_val. rewrite <- E.
  destruct (Z.ltb_spec (2 * (m mod 2 ^ k)) (2 ^ k));
  destruct (Z.ltb_spec (2 * (m' mod 2 ^ k)) (2 ^ k));
  destruct (Z.eqb_spec (2 * (m mod 2 ^ k)) (2 ^ k));
  destruct (Z.eqb_spec (2 * (m' mod 2 ^ k)) (2 ^ k));
  destruct (Z.even (m / 2 ^ k)); lia.
Qed.

Lemma rne_val_scale (m k j : Z) :
  0 <= k -> 0 <= j -> rne_val (m * 2 ^ j) (k + j) = rne_val m k.
Proof.
  intros Hk Hj.
  pose proof (pow2_pos k Hk) as Hp. pose proof (pow2_pos j Hj) as Hpj.
  unfold rne_val. rewrite Z.pow_add_r by lia.
  rewrite Z.div_mul_cancel_r by lia.
  rewrite Z.mul_mod_distr_r by lia.
  replace (2 * (m mod 2 ^ k * 2 ^ j) <? 2 ^ k * 2 ^ j)
    with (2 * (m mod 2 ^ k) <? 2 ^ k).
  2:{ destruct (Z.ltb_spec (2 * (m mod 2 ^ k)) (2 ^ k));
      symmetry; [apply Z.ltb_lt|apply Z.ltb_ge]; nia. }
  replace (2 * (m mod 2 ^ k * 2 ^ j) =? 2 ^ k * 2 ^ j)
    with (2 * (m mod 2 ^ k) =? 2 ^ k).
  2:{ destruct (Z.eqb_spec (2 * (m mod 2 ^ k)) (2 ^ k));
      symmetry; [apply Z.eqb_eq|apply Z.eqb_neq]; nia. }
  reflexivity.
Qed.

(** *** The result of rounding an exact mantissa *)

Lemma fexp64_eq (x : Z) : fexp64 x = Z.max (x - 53) (-1074).
Proof. reflexivity. Qed.

Lemma shr_exact (m e n : Z) :
  0 <= m -> 0 <= n ->
  exists mrs : shr_record,
    shr (Build_shr_record m false false) e n = (mrs, (e + n)%Z) /\
    shifted m n mrs.
Proof.
  intros Hm Hn. destruct n as [|n|n]; try lia.
  - exists (Build_shr_record m false false). cbn [shr].
    rewrite Z.add_0_r. split; [reflexivity|apply shifted_0].
  - eexists. cbn [shr]. split; [reflexivity|].
    apply (shifted_iter m n 0); [exact Hm|apply shifted_0].
Qed.

Lemma shr_noop (mrs : shr_record) (e n : Z) : n <= 0 -> shr mrs e n = (mrs, e).
Proof. intros H. destruct n; try lia; reflexivity. Qed.

Lemma Zdigits2_pos_bounds (m : Z) :
  0 < m -> 2 ^ (Zdigits2 m - 1) <= m < 2 ^ Zdigits2 m.
Proof. intros H. destruct m as [|p|p]; try lia. apply digits_bounds. Qed.

Lemma Zdigits2_le (m k : Z) : 0 < m -> m < 2 ^ k -> Zdigits2 m <= k.
Proof.
  intros Hm Hlt. pose proof (Zdigits2_pos_bounds m Hm) as [Lo _].
  destruct (Z.le_gt_cases (Zdigits2 m) k) as [|G]; [assumption|].
  assert (2 ^ k <= 2 ^ (Zdigits2 m - 1)).
  { destruct (Z.lt_ge_cases k 0); [rewrite (Z.pow_neg_r 2 k) by lia|apply Z.pow_le_mono_r; lia].
    apply Z.pow_nonneg. lia. }
  lia.
Qed.

Lemma round_exact_form (p : positive) (e : Z) :
  let E := fexp64 (Z.pos (digits2_pos p) + e) in
  e <= E ->
  binary_round_aux prec emax false (Z.pos p) e loc_Exact
  = rnd_result (rne_val (Z.pos p) (E - e)) E.
Proof.
  intros E HE.
  set (d := Z.pos (digits2_pos p)) in *.
  pose proof (digits_bounds p) as [Dlo Dhi]. fold d in Dlo, Dhi.
  assert (HEd : d + e - 53 <= E /\ -1074 <= E) by (unfold E; rewrite fexp64_eq; lia).
  unfold binary_round_aux, shr_fexp. cbn [shr_record_of_loc Zdigits2].
  fold d. change (fexp prec emax (d + e)) with E.
  destruct (shr_exact (Z.pos p) e (E - e) ltac:(lia) ltac:(lia)) as (mrs & -> & Hsh).
  rewrite (round_shifted _ _ _ Hsh).
  replace (e + (E - e)) with E by lia.
  set (m1 := rne_val (Z.pos p) (E - e)).
  pose proof (rne_val_bounds (Z.pos p) (E - e)) as [B1 B2]. fold m1 in B1, B2.
  assert (Hk : 0 < 2 ^ (E - e)) by (apply pow2_pos; lia).
  assert (Hq0 : 0 <= Z.pos p / 2 ^ (E - e)) by (apply Z.div_pos; lia).
  assert (Hq : Z.pos p / 2 ^ (E - e) < 2 ^ 53).
  { apply Z.div_lt_upper_bound; [lia|].
    rewrite <- Z.pow_add_r by lia.
    assert (2 ^ d <= 2 ^ (E - e + 53)) by (apply Z.pow_le_mono_r; lia). lia. }
  unfold rnd_result.
  destruct (Z.eqb_spec m1 0) as [E0|N0].
  - rewrite E0. cbn [Zdigits2].
    rewrite shr_noop by (change (fexp prec emax (0 + E)) with (fexp64 (0 + E));
                         rewrite fexp64_eq; lia).
    reflexivity.
  - assert (Hm1 : 0 < m1) by lia.
    destruct (Z.ltb_spec m1 (2 ^ 53)) as [Hlt|Hge].
    + pose proof (Zdigits2_le m1 53 Hm1 Hlt) as Hd1.
      rewrite shr_noop by (change (fexp prec emax (Zdigits2 m1 + E))
                             with (fexp64 (Zdigits2 m1 + E));
                           rewrite fexp64_eq; lia).
      cbn [shr_m]. destruct m1 as [|q1|q1]; try lia.
      reflexivity.
    + assert (Em1 : m1 = 2 ^ 53) by lia. rewrite Em1.
      change (Zdigits2 (2 ^ 53)) with 54.
      change (fexp prec emax (54 + E)) with (fexp64 (54 + E)).
      rewrite fexp64_eq.
      replace (Z.max (54 + E - 53) (-1074) - E) with 1 by lia.
      reflexivity.
Qed.

(** *** An integer key that orders the non-negative doubles *)

Lemma valid_finite_bounds (s : bool) (m : positive) (e : Z) :
  valid_binary (S754_finite s m e) = true ->
  Z.pos m < 2 ^ 53 /\ -1074 <= e <= 971 /\
  (-1074 < e -> 2 ^ 52 <= Z.pos m).
Proof.
  cbn [valid_binary]. unfold SpecFloat.bounded, canonical_mantissa.
  intros H. apply andb_prop in H. destruct H as [Hc He].
  apply Z.eqb_eq in Hc. apply Z.leb_le in He.
  change (fexp prec emax (Z.pos (digits2_pos m) + e))
    with (fexp64 (Z.pos (digits2_pos m) + e)) in Hc.
  rewrite fexp64_eq in Hc. change (emax - prec) with 971 in He.
  pose proof (digits_bounds m) as [Lo Hi].
  set (d := Z.pos (digits2_pos m)) in *.
  assert (Hd : d <= 53) by lia.
  split; [|split; [lia|]].
  - assert (2 ^ d <= 2 ^ 53) by (apply Z.pow_le_mono_r; lia). lia.
  - intros Hn. assert (d = 53) by lia.
    replace (d - 1) with 52 in Lo by lia. exact Lo.
Qed.

Lemma key_nonneg (x : spec_float) :
  sf_nonneg x = true -> valid_binary x = true -> 0 <= sf_key x.
Proof.
  destruct x as [s|s| |s m e]; cbn [sf_nonneg sf_key]; try lia; try discriminate.
  intros _ V. apply valid_finite_bounds in V. change (2 ^ 54) with 18014398509481984. lia.
Qed.

Lemma SFleb_key (x y : spec_float) :
  sf_nonneg x = true -> sf_nonneg y = true ->
  valid_binary x = true -> valid_binary y = true ->
  SFleb x y = (sf_key x <=? sf_key y).
Proof.
  intros Nx Ny Vx Vy.
  destruct x as [[|]|[|]| |[|] mx ex]; try discriminate;
  destruct y as [[|]|[|]| |[|] my ey]; try discriminate;
    try apply valid_finite_bounds in Vx; try apply valid_finite_bounds in Vy;
    unfold SFleb, SFcompare; cbn [sf_key];
    change (2 ^ 54) with 18014398509481984;
    change (2 ^ 53) with 9007199254740992 in *;
    symmetry.
  - reflexivity.
  - reflexivity.
  - apply Z.leb_le. lia.
  - reflexivity.
  - reflexivity.
  - apply Z.leb_gt. lia.
  - apply Z.leb_gt. lia.
  - apply Z.leb_le. lia.
  - destruct (Z.compare_spec ex ey) as [E|L|G].
    + subst ey. change (Pos.compare_cont Eq mx my) with (Pos.compare mx my).
      destruct (Pos.compare_spec mx my) as [E|L|G].
      * subst. apply Z.leb_le. lia.
      * apply Z.leb_le. lia.
      * apply Z.leb_gt. lia.
    + apply Z.leb_le. lia.
    + apply Z.leb_gt. lia.
Qed.

(** The key of a rounding result. *)
Lemma key_rnd_result_mono_same (m1 m1' E : Z) :
  0 <= m1 -> m1 <= m1' -> m1' <= 2 ^ 53 -> -1074 <= E ->
  sf_key (rnd_result m1 E) <= sf_key (rnd_result m1' E).
Proof.
  intros H0 Hle Hhi HE. unfold rnd_result.
  change (2 ^ 53) with 9007199254740992 in *.
  destruct (Z.eqb_spec m1 0); destruct (Z.eqb_spec m1' 0);
  destruct (Z.ltb_spec m1 9007199254740992);
  destruct (Z.ltb_spec m1' 9007199254740992);
  destruct (Z.leb_spec E 971); destruct (Z.leb_spec (E + 1) 971);
  cbn [sf_key]; change (2 ^ 54) with 18014398509481984;
  rewrite ?Z2Pos.id by lia; lia.
Qed.

Lemma key_rnd_result_mono_next (m1 m1' E E' : Z) :
  0 <= m1 -> m1 <= 2 ^ 53 -> 2 ^ 52 <= m1' -> m1' <= 2 ^ 53 ->
  -1074 <= E -> E < E' ->
  sf_key (rnd_result m1 E) <= sf_key (rnd_result m1' E').
Proof.
  intros H0 Hhi Hlo' Hhi' HE HEE. unfold rnd_result.
  change (2 ^ 53) with 9007199254740992 in *.
  change (2 ^ 52) with 4503599627370496 in *.
  destruct (Z.eqb_spec m1 0); destruct (Z.eqb_spec m1' 0);
  destruct (Z.ltb_spec m1 9007199254740992);
  destruct (Z.ltb_spec m1' 9007199254740992);
  destruct (Z.leb_spec E 971); destruct (Z.leb_spec (E + 1) 971);
  destruct (Z.leb_spec E' 971); destruct (Z.leb_spec (E' + 1) 971);
  cbn [sf_key]; change (2 ^ 54) with 18014398509481984;
  rewrite ?Z2Pos.id by lia; lia.
Qed.

(** *** Rounding is monotone *)

Lemma rnd_form (m e : Z) :
  0 < m -> e <= cexp m e ->
  rnd m e = rnd_result (rne_val m (cexp m e - e)) (cexp m e).
Proof.
  intros Hm He. destruct m as [|p|p]; try lia.
  apply (round_exact_form p e). exact He.
Qed.

Lemma cexp_bounds (m e : Z) : Zdigits2 m + e - 53 <= cexp m e /\ -1074 <= cexp m e.
Proof. unfold cexp. rewrite fexp64_eq. lia. Qed.

Lemma rne_val_le_pow53 (m e : Z) :
  0 < m -> e <= cexp m e -> 0 <= rne_val m (cexp m e - e) <= 2 ^ 53.
Proof.
  intros Hm He. pose proof (cexp_bounds m e) as [B1 B2].
  pose proof (Zdigits2_pos_bounds m Hm) as [Dlo Dhi].
  set (k := cexp m e - e) in *.
  pose proof (rne_val_bounds m k) as [R1 R2].
  assert (Hk : 0 < 2 ^ k) by (apply pow2_pos; lia).
  assert (Hq0 : 0 <= m / 2 ^ k) by (apply Z.div_pos; lia).
  assert (Hq : m / 2 ^ k < 2 ^ 53).
  { apply Z.div_lt_upper_bound; [lia|].
    rewrite <- Z.pow_add_r by lia.
    assert (2 ^ Zdigits2 m <= 2 ^ (k + 53)) by (apply Z.pow_le_mono_r; lia). lia. }
  lia.
Qed.

Lemma rne_val_ge_pow52 (m e : Z) :
  0 < m -> e <= cexp m e -> -1074 < cexp m e ->
  2 ^ 52 <= rne_val m (cexp m e - e).
Proof.
  intros Hm He Hn.
  assert (HE : cexp m e = Zdigits2 m + e - 53) by (unfold cexp in *; rewrite fexp64_eq in *; lia).
  pose proof (Zdigits2_pos_bounds m Hm) as [Dlo Dhi].
  set (k := cexp m e - e) in *.
  pose proof (rne_val_bounds m k) as [R1 R2].
  assert (Hk : 0 < 2 ^ k) by (apply pow2_pos; lia).
  assert (2 ^ 52 <= m / 2 ^ k).
  { apply Z.div_le_lower_bound; [lia|].
    rewrite <- Z.pow_add_r by lia.
    replace (k + 52) with (Zdigits2 m - 1) by lia. exact Dlo. }
  lia.
Qed.

Lemma Zdigits2_mono (m m' : Z) : 0 < m -> m <= m' -> Zdigits2 m <= Zdigits2 m'.
Proof.
  intros Hm Hle. apply Zdigits2_le; [exact Hm|].
  pose proof (Zdigits2_pos_bounds m' ltac:(lia)) as [_ Hi]. lia.
Qed.

Lemma rnd_mono_common (m m' e : Z) :
  0 < m -> m <= m' -> e <= cexp m e ->
  sf_key (rnd m e) <= sf_key (rnd m' e).
Proof.
  intros Hm Hle He.
  pose proof (Zdigits2_mono m m' Hm Hle) as Hd.
  assert (HEE : cexp m e <= cexp m' e) by (unfold cexp; rewrite !fexp64_eq; lia).
  rewrite !rnd_form by lia.
  pose proof (rne_val_le_pow53 m e Hm He) as [A1 A2].
  pose proof (rne_val_le_pow53 m' e ltac:(lia) ltac:(lia)) as [A1' A2'].
  pose proof (cexp_bounds m e) as [_ Bm].
  destruct (Z.eq_dec (cexp m e) (cexp m' e)) as [E|N].
  - rewrite <- E in *. apply key_rnd_result_mono_same; try lia.
    apply rne_val_mono; lia.
  - apply key_rnd_result_mono_next; try lia.
    apply rne_val_ge_pow52; lia.
Qed.

Lemma Zdigits2_scale (m j : Z) :
  0 < m -> 0 <= j -> Zdigits2 (m * 2 ^ j) = Zdigits2 m + j.
Proof.
  intros Hm Hj. pose proof (pow2_pos j Hj) as Hp.
  pose proof (Zdigits2_pos_bounds m Hm) as [Lo Hi].
  assert (Hpos : 0 < m * 2 ^ j) by nia.
  destruct (m * 2 ^ j) as [|p|p] eqn:Ep; try lia.
  cbn [Zdigits2]. apply digits_unique. rewrite <- Ep.
  replace (Zdigits2 m + j - 1) with (Zdigits2 m - 1 + j)
    by lia.
  assert (0 < Zdigits2 m) by (destruct m; cbn; lia).
  rewrite !Z.pow_add_r by lia. nia.
Qed.

Lemma rnd_scale (m e j : Z) :
  0 < m -> 0 <= j -> e <= cexp m e ->
  rnd (m * 2 ^ j) (e - j) = rnd m e.
Proof.
  intros Hm Hj He. pose proof (pow2_pos j Hj) as Hp.
  assert (Hc : cexp (m * 2 ^ j) (e - j) = cexp m e).
  { unfold cexp. rewrite Zdigits2_scale by lia. f_equal. lia. }
  rewrite !rnd_form by (try nia; rewrite ?Hc; lia).
  rewrite Hc. f_equal.
  replace (cexp m e - (e - j)) with (cexp m e - e + j) by lia.
  apply rne_val_scale; lia.
Qed.

Lemma rnd_mono (m e m' e' : Z) :
  0 < m -> 0 < m' -> e <= cexp m e -> e' <= cexp m' e' ->
  vle m e m' e' ->
  sf_key (rnd m e) <= sf_key (rnd m' e').
Proof.
  intros Hm Hm' He He' Hv. unfold vle in Hv.
  set (e0 := Z.min e e') in *.
  rewrite <- (rnd_scale m e (e - e0)) by lia.
  rewrite <- (rnd_scale m' e' (e' - e0)) by lia.
  replace (e - (e - e0)) with e0 by lia.
  replace (e' - (e' - e0)) with e0 by lia.
  assert (0 < 2 ^ (e - e0)) by (apply pow2_pos; lia).
  apply rnd_mono_common; [nia|exact Hv|].
  unfold cexp. rewrite Zdigits2_scale by lia.
  unfold cexp in He. rewrite fexp64_eq in *. lia.
Qed.

(** *** Multiplication of non-negative finite doubles is monotone *)

Lemma valid_digits (s : bool) (m : positive) (e : Z) :
  valid_binary (S754_finite s m e) = true ->
  Zdigits2 (Z.pos m) <= 53 /\ (-1074 < e -> Zdigits2 (Z.pos m) = 53) /\
  -1074 <= e <= 971.
Proof.
  cbn [valid_binary Zdigits2]. unfold SpecFloat.bounded, canonical_mantissa.
  intros H. apply andb_prop in H. destruct H as [Hc He].
  apply Z.eqb_eq in Hc. apply Z.leb_le in He.
  change (fexp prec emax (Z.pos (digits2_pos m) + e))
    with (fexp64 (Z.pos (digits2_pos m) + e)) in Hc.
  rewrite fexp64_eq in Hc. change (emax - prec) with 971 in He. lia.
Qed.

Lemma Zdigits2_mul_lower (a b : Z) :
  0 < a -> 0 < b -> Zdigits2 a + Zdigits2 b - 1 <= Zdigits2 (a * b).
Proof.
  intros Ha Hb.
  pose proof (Zdigits2_pos_bounds a Ha) as [La _].
  pose proof (Zdigits2_pos_bounds b Hb) as [Lb _].
  pose proof (Zdigits2_pos_bounds (a * b) ltac:(nia)) as [_ Hab].
  assert (Da : 0 < Zdigits2 a) by (destruct a; cbn; lia).
  assert (Db : 0 < Zdigits2 b) by (destruct b; cbn; lia).
  destruct (Z.le_gt_cases (Zdigits2 a + Zdigits2 b - 1) (Zdigits2 (a * b)))
    as [|G]; [assumption|exfalso].
  assert (2 ^ Zdigits2 (a * b) <= 2 ^ (Zdigits2 a - 1 + (Zdigits2 b - 1))).
  { destruct (Z.lt_ge_cases (Zdigits2 (a * b)) 0).
    - rewrite (Z.pow_neg_r 2 (Zdigits2 (a * b))) by lia. apply Z.pow_nonneg. lia.
    - apply Z.pow_le_mono_r; lia. }
  rewrite Z.pow_add_r in H by lia.
  assert (0 < 2 ^ (Zdigits2 a - 1)) by (apply pow2_pos; lia).
  assert (0 < 2 ^ (Zdigits2 b - 1)) by (apply pow2_pos; lia).
  nia.
Qed.

Lemma product_cexp (mx my : positive) (ex ey : Z) :
  valid_binary (S754_finite false mx ex) = true ->
  valid_binary (S754_finite false my ey) = true ->
  ex + ey <= cexp (Z.pos mx * Z.pos my) (ex + ey).
Proof.
  intros Vx Vy.
  apply valid_digits in Vx. apply valid_digits in Vy.
  pose proof (Zdigits2_mul_lower (Z.pos mx) (Z.pos my) ltac:(lia) ltac:(lia)) as D.
  assert (0 < Zdigits2 (Z.pos mx)) by (cbn; lia).
  assert (0 < Zdigits2 (Z.pos my)) by (cbn; lia).
  unfold cexp. rewrite fexp64_eq.
  destruct (Z.eq_dec ex (-1074)); destruct (Z.eq_dec ey (-1074)); lia.
Qed.

Lemma SFmul_finite (mx my : positive) (ex ey : Z) :
  SFmul prec emax (S754_finite false mx ex) (S754_finite false my ey)
  = rnd (Z.pos mx * Z.pos my) (ex + ey).
Proof. reflexivity. Qed.

Lemma key_order_vle (mx my : positive) (ex ey : Z) :
  valid_binary (S754_finite false mx ex) = true ->
  valid_binary (S754_finite false my ey) = true ->
  sf_key (S754_finite false mx ex) <= sf_key (S754_finite false my ey) ->
  vle (Z.pos mx) ex (Z.pos my) ey.
Proof.
  intros Vx Vy K. apply valid_finite_bounds in Vx. apply valid_finite_bounds in Vy.
  cbn [sf_key] in K. change (2 ^ 54) with 18014398509481984 in K.
  change (2 ^ 53) with 9007199254740992 in *.
  change (2 ^ 52) with 4503599627370496 in *.
  unfold vle.
  destruct (Z.lt_trichotomy ex ey) as [L|[E|G]]; [| |lia].
  - rewrite Z.min_l by lia. rewrite Z.sub_diag. change (2 ^ 0) with 1.
    assert (2 ^ 1 <= 2 ^ (ey - ex)) by (apply Z.pow_le_mono_r; lia).
    change (2 ^ 1) with 2 in *. nia.
  - subst ey. rewrite Z.min_id, Z.sub_diag. change (2 ^ 0) with 1. lia.
Qed.

Lemma vle_mul (m e m' e' c g : Z) :
  0 < c -> vle m e m' e' -> vle (m * c) (e + g) (m' * c) (e' + g).
Proof.
  unfold vle. intros Hc H.
  replace (Z.min (e + g) (e' + g)) with (Z.min e e' + g) by lia.
  replace (e + g - (Z.min e e' + g)) with (e - Z.min e e') by lia.
  replace (e' + g - (Z.min e e' + g)) with (e' - Z.min e e') by lia.
  nia.
Qed.

Lemma key_rnd_nonneg (m e : Z) : 0 < m -> e <= cexp m e -> 0 <= sf_key (rnd m e).
Proof.
  intros Hm He. rewrite rnd_form by assumption.
  pose proof (rne_val_le_pow53 m e Hm He) as [A1 A2].
  pose proof (cexp_bounds m e) as [_ B].
  unfold rnd_result.
  destruct (Z.eqb_spec (rne_val m (cexp m e - e)) 0); [cbn; lia|].
  change (2 ^ 53) with 9007199254740992 in *.
  destruct (Z.ltb_spec (rne_val m (cexp m e - e)) 9007199254740992);
  destruct (Z.leb_spec (cexp m e) 971); destruct (Z.leb_spec (cexp m e + 1) 971);
  cbn [sf_key]; change (2 ^ 54) with 18014398509481984; lia.
Qed.

Lemma SFmul_mono_l (x y c : spec_float) :
  sf_finite_nonneg x = true -> sf_finite_nonneg y = true ->
  sf_finite_nonneg c = true ->
  valid_binary x = true -> valid_binary y = true -> valid_binary c = true ->
  sf_key x <= sf_key y ->
  sf_key (SFmul prec emax x c) <= sf_key (SFmul prec emax y c).
Proof.
  intros Nx Ny Nc Vx Vy Vc K.
  destruct c as [[|]| | |[|] mc ec]; try discriminate.
  - destruct x as [[|]| | |[|] mx ex]; try discriminate;
    destruct y as [[|]| | |[|] my ey]; try discriminate; cbn; lia.
  - destruct x as [[|]| | |[|] mx ex]; try discriminate;
    destruct y as [[|]| | |[|] my ey]; try discriminate.
    + change (SFmul prec emax (S754_zero false) (S754_finite false mc ec))
        with (S754_zero false).
      rewrite SFmul_finite. cbn [sf_key].
      apply key_rnd_nonneg; [lia|now apply product_cexp].
    + exfalso. apply valid_finite_bounds in Vx. cbn [sf_key] in K.
      change (2 ^ 54) with 18014398509481984 in K. lia.
    + rewrite !SFmul_finite.
      apply rnd_mono; try lia; try (now apply product_cexp).
      apply vle_mul; [lia|]. now apply key_order_vle.
Qed.

Lemma SFmul_comm (x y : spec_float) : SFmul prec emax x y = SFmul prec emax y x.
Proof.
  destruct x as [[|]|[|]| |[|] mx ex], y as [[|]|[|]| |[|] my ey]; try reflexivity;
    unfold SFmul; now rewrite Pos.mul_comm, Z.add_comm.
Qed.

(** *** A quotient of ordered positive doubles is at least 1 *)

Lemma iter_shr_m (n : positive) (mrs : shr_record) :
  0 <= shr_m mrs ->
  shr_m (SpecFloat.iter_pos shr_1 n mrs) = shr_m mrs / 2 ^ Z.pos n.
Proof.
  assert (Step : forall mrs', 0 <= shr_m mrs' ->
             shr_m (shr_1 mrs') = shr_m mrs' / 2 /\ 0 <= shr_m (shr_1 mrs')).
  { intros [m r s] H. cbn [shr_m] in H. rewrite shr_1_spec by exact H.
    cbn [shr_m]. split; [reflexivity|]. apply Z.div_pos; lia. }
  assert (Gen : forall (n : positive) (mrs' : shr_record), 0 <= shr_m mrs' ->
            shr_m (SpecFloat.iter_pos shr_1 n mrs') = shr_m mrs' / 2 ^ Z.pos n /\
            0 <= shr_m (SpecFloat.iter_pos shr_1 n mrs')).
  { clear n mrs. induction n as [n IH|n IH|]; intros mrs' H; cbn [SpecFloat.iter_pos].
    - destruct (Step mrs' H) as [E1 P1].
      destruct (IH _ P1) as [E2 P2]. destruct (IH _ P2) as [E3 P3].
      split; [|exact P3]. rewrite E3, E2, E1.
      rewrite !Z.div_div
        by first [lia | apply pow2_pos; lia | apply Z.pow_nonzero; lia |
                  apply Z.mul_pos_pos; first [lia | apply pow2_pos; lia]].
      f_equal. rewrite <- Z.pow_add_r by lia.
      change 2 with (2 ^ 1) at 1. rewrite <- Z.pow_add_r by lia. f_equal. lia.
    - destruct (IH _ H) as [E2 P2]. destruct (IH _ P2) as [E3 P3].
      split; [|exact P3]. rewrite E3, E2.
      rewrite !Z.div_div
        by first [apply pow2_pos; lia | apply Z.pow_nonzero; lia].
      f_equal. rewrite <- Z.pow_add_r by lia. f_equal. lia.
    - destruct (Step mrs' H) as [E1 P1]. split; [|exact P1].
      rewrite E1. reflexivity. }
  intros H. apply Gen, H.
Qed.

Lemma shr_fexp_m (m e : Z) (l : location) :
  0 <= m ->
  let k := Z.max 0 (fexp64 (Zdigits2 m + e) - e) in
  shr_m (fst (shr_fexp prec emax m e l)) = m / 2 ^ k /\
  snd (shr_fexp prec emax m e l) = e + k.
Proof.
  intros Hm k. unfold shr_fexp.
  change (fexp prec emax (Zdigits2 m + e)) with (fexp64 (Zdigits2 m + e)).
  assert (H0 : shr_m (shr_record_of_loc m l) = m) by (destruct l as [|[| |]]; reflexivity).
  unfold k. destruct (fexp64 (Zdigits2 m + e) - e) as [|n|n] eqn:En; cbn [shr fst snd].
  - rewrite H0. change (Z.max 0 0) with 0. change (2 ^ 0) with 1.
    rewrite Z.div_1_r. split; [reflexivity|lia].
  - rewrite iter_shr_m by (rewrite H0; exact Hm). rewrite H0.
    rewrite Z.max_r by lia. split; reflexivity.
  - rewrite H0. rewrite Z.max_l by lia. change (2 ^ 0) with 1.
    rewrite Z.div_1_r. split; [reflexivity|lia].
Qed.

Lemma v1_shift (m e : Z) :
  v1 m e ->
  let k := Z.max 0 (fexp64 (Zdigits2 m + e) - e) in
  v1 (m / 2 ^ k) (e + k).
Proof.
  intros [H1 H2] k.
  pose proof (Zdigits2_pos_bounds m ltac:(lia)) as [Dlo Dhi].
  assert (Dpos : 0 < Zdigits2 m) by (destruct m; cbn; lia).
  assert (Hk0 : 0 <= k) by (unfold k; lia).
  pose proof (pow2_pos k Hk0) as Hp.
  assert (Hk : 2 ^ k <= m).
  { unfold k. rewrite fexp64_eq.
    destruct (Z.max_spec 0 (Z.max (Zdigits2 m + e - 53) (-1074) - e)) as [[_ ->]|[_ ->]].
    - destruct (Z.max_spec (Zdigits2 m + e - 53) (-1074)) as [[A ->]|[A ->]].
      + assert (e <= 0) by lia. specialize (H2 H).
        assert (2 ^ (-1074 - e) <= 2 ^ (- e)) by (apply Z.pow_le_mono_r; lia). lia.
      + replace (Zdigits2 m + e - 53 - e) with (Zdigits2 m - 53) by lia.
        destruct (Z.lt_ge_cases (Zdigits2 m - 53) 0).
        * rewrite Z.pow_neg_r by lia. lia.
        * assert (2 ^ (Zdigits2 m - 53) <= 2 ^ (Zdigits2 m - 1))
            by (apply Z.pow_le_mono_r; lia). lia.
    - change (2 ^ 0) with 1. lia. }
  split.
  - apply Z.div_le_lower_bound; lia.
  - intros Hle. apply Z.div_le_lower_bound; [lia|].
    rewrite <- Z.pow_add_r by lia.
    replace (k + - (e + k)) with (- e) by lia. apply H2. lia.
Qed.

Lemma round_nearest_even_ge (m : Z) (l : location) : m <= round_nearest_even m l.
Proof. destruct l as [|[| |]]; cbn; try lia. destruct (Z.even m); lia. Qed.

Lemma v1_mono (m m' e : Z) : v1 m e -> m <= m' -> v1 m' e.
Proof. intros [H1 H2] H. split; [lia|]. intros He. specialize (H2 He). lia. Qed.

(** Rounding a value that is at least 1 gives +infinity or a finite
    double whose mantissa and exponent still denote at least 1. *)
Lemma binary_round_aux_v1 (m e : Z) (l : location) :
  v1 m e ->
  binary_round_aux prec emax false m e l = S754_infinity false \/
  exists (mf : positive) (ef : Z),
    binary_round_aux prec emax false m e l = S754_finite false mf ef /\
    v1 (Z.pos mf) ef.
Proof.
  intros H. unfold binary_round_aux.
  pose proof (shr_fexp_m m e l ltac:(destruct H; lia)) as [Em Ee].
  pose proof (v1_shift m e H) as Hs. cbv zeta in Hs, Em, Ee.
  destruct (shr_fexp prec emax m e l) as [mrs' e'].
  cbn [fst snd] in Em, Ee. rewrite <- Em, <- Ee in Hs.
  set (m1 := round_nearest_even (shr_m mrs') (loc_of_shr_record mrs')).
  assert (H1 : v1 m1 e').
  { apply (v1_mono (shr_m mrs')); [exact Hs|apply round_nearest_even_ge]. }
  pose proof (shr_fexp_m m1 e' loc_Exact ltac:(destruct H1; lia)) as [Em2 Ee2].
  pose proof (v1_shift m1 e' H1) as Hs2. cbv zeta in Hs2, Em2, Ee2.
  destruct (shr_fexp prec emax m1 e' loc_Exact) as [mrs'' e''].
  cbn [fst snd] in Em2, Ee2. rewrite <- Em2, <- Ee2 in Hs2.
  destruct (shr_m mrs'') as [|mf|mf] eqn:Emf.
  - destruct Hs2. lia.
  - destruct (e'' <=? emax - prec); [right|left; reflexivity].
    exists mf, e''. split; [reflexivity|exact Hs2].
  - destruct Hs2. lia.
Qed.

Lemma div_core_v1 (ma mb : positive) (ea eb : Z) :
  vle (Z.pos ma) ea (Z.pos mb) eb ->
  v1 (fst (fst (SFdiv_core_binary prec emax (Z.pos mb) eb (Z.pos ma) ea)))
     (snd (fst (SFdiv_core_binary prec emax (Z.pos mb) eb (Z.pos ma) ea))).
Proof.
  intros Hv. unfold SFdiv_core_binary.
  set (da := Zdigits2 (Z.pos ma)). set (db := Zdigits2 (Z.pos mb)).
  change (fexp prec emax (db + eb - (da + ea))) with (fexp64 (db + eb - (da + ea))).
  set (e' := Z.min (fexp64 (db + eb - (da + ea))) (eb - ea)).
  set (s := eb - ea - e').
  assert (Hs : 0 <= s) by (unfold s, e'; lia).
  pose proof (pow2_pos s Hs) as Hps.
  set (M := match s with Z.pos _ => Z.shiftl (Z.pos mb) s | 0 => Z.pos mb | Z.neg _ => 0 end).
  assert (HM : M = Z.pos mb * 2 ^ s).
  { unfold M. clearbody s. destruct s as [|p|p]; [|apply Z.shiftl_mul_pow2; lia|lia].
    rewrite Z.pow_0_r. lia. }
  rewrite div_eucl_div_mod. cbn [fst snd].
  pose proof (Zdigits2_pos_bounds (Z.pos ma) ltac:(lia)) as [Alo Ahi].
  pose proof (Zdigits2_pos_bounds (Z.pos mb) ltac:(lia)) as [Blo Bhi].
  fold da in Alo, Ahi. fold db in Blo, Bhi.
  assert (Dap : 0 < da) by (unfold da; cbn; lia).
  assert (Dbp : 0 < db) by (unfold db; cbn; lia).
  unfold vle in Hv.
  assert (Key : e' <= 0 -> Z.pos ma * 2 ^ (- e') <= M).
  { intros He'. rewrite HM.
    destruct (Z.le_gt_cases ea eb) as [L|G].
    - rewrite Z.min_l, Z.sub_diag in Hv by lia. change (2 ^ 0) with 1 in Hv.
      replace s with (eb - ea + - e') by (unfold s; lia).
      rewrite Z.pow_add_r by lia.
      assert (0 < 2 ^ (- e')) by (apply pow2_pos; lia). nia.
    - rewrite Z.min_r, Z.sub_diag in Hv by lia. change (2 ^ 0) with 1 in Hv.
      assert (He2 : e' <= eb - ea) by (unfold e'; lia).
      replace (- e') with (ea - eb + s) by (unfold s; lia).
      rewrite Z.pow_add_r by lia. nia. }
  split.
  - apply Z.div_le_lower_bound; [lia|]. rewrite Z.mul_1_r.
    destruct (Z.le_gt_cases e' 0) as [L|G].
    + specialize (Key L). assert (0 < 2 ^ (- e')) by (apply pow2_pos; lia). nia.
    + assert (He1 : e' <= db + eb - (da + ea) - 53).
      { unfold e' in *. rewrite fexp64_eq in *. lia. }
      rewrite HM.
      assert (2 ^ da <= 2 ^ (db - 1 + s)) by (apply Z.pow_le_mono_r; unfold s; lia).
      rewrite Z.pow_add_r in H by lia. nia.
  - intros L. apply Z.div_le_lower_bound; [lia|]. now apply Key.
Qed.

Lemma SFdiv_ge_one (ma mb : positive) (ea eb : Z) :
  vle (Z.pos ma) ea (Z.pos mb) eb ->
  let r := SFdiv prec emax (S754_finite false mb eb) (S754_finite false ma ea) in
  r = S754_infinity false \/
  exists (mf : positive) (ef : Z), r = S754_finite false mf ef /\ v1 (Z.pos mf) ef.
Proof.
  intros Hv r. unfold r, SFdiv. cbn [xorb].
  pose proof (div_core_v1 ma mb ea eb Hv) as H.
  destruct (SFdiv_core_binary prec emax (Z.pos mb) eb (Z.pos ma) ea) as [[q e'] l].
  cbn [fst snd] in H. now apply binary_round_aux_v1.
Qed.

Lemma v1_key (mf : positive) (ef : Z) :
  valid_binary (S754_finite false mf ef) = true ->
  v1 (Z.pos mf) ef ->
  sf_key sf_one <= sf_key (S754_finite false mf ef).
Proof.
  intros V [H1 H2]. apply valid_finite_bounds in V.
  unfold sf_one. cbn [sf_key].
  change (2 ^ 54) with 18014398509481984.
  change (2 ^ 53) with 9007199254740992 in *.
  destruct (Z.lt_trichotomy ef (-52)) as [L|[E|G]].
  - exfalso. specialize (H2 ltac:(lia)).
    assert (2 ^ 53 <= 2 ^ (- ef)) by (apply Z.pow_le_mono_r; lia).
    change (2 ^ 53) with 9007199254740992 in *. lia.
  - subst ef. specialize (H2 ltac:(lia)). change (2 ^ (- -52)) with 4503599627370496 in H2.
    lia.
  - lia.
Qed.

Lemma leb_fkey (x y : float) :
  nonneg x = true -> nonneg y = true ->
  PrimFloat.leb x y = (fkey x <=? fkey y).
Proof.
  intros Nx Ny. rewrite leb_spec. apply SFleb_key; auto using Prim2SF_valid.
Qed.

Lemma SFltb_key (x y : spec_float) :
  sf_nonneg x = true -> sf_nonneg y = true ->
  valid_binary x = true -> valid_binary y = true ->
  SFltb x y = (sf_key x <? sf_key y).
Proof.
  intros Nx Ny Vx Vy.
  destruct x as [[|]|[|]| |[|] mx ex]; try discriminate;
  destruct y as [[|]|[|]| |[|] my ey]; try discriminate;
    try apply valid_finite_bounds in Vx; try apply valid_finite_bounds in Vy;
    unfold SFltb, SFcompare; cbn [sf_key];
    change (2 ^ 54) with 18014398509481984;
    change (2 ^ 53) with 9007199254740992 in *;
    symmetry.
  - reflexivity.
  - reflexivity.
  - apply Z.ltb_lt. lia.
  - reflexivity.
  - reflexivity.
  - apply Z.ltb_ge. lia.
  - apply Z.ltb_ge. lia.
  - apply Z.ltb_lt. lia.
  - destruct (Z.compare_spec ex ey) as [E|L|G].
    + subst ey. change (Pos.compare_cont Eq mx my) with (Pos.compare mx my).
      destruct (Pos.compare_spec mx my) as [E|L|G].
      * subst. apply Z.ltb_ge. lia.
      * apply Z.ltb_lt. lia.
      * apply Z.ltb_ge. lia.
    + apply Z.ltb_lt. lia.
    + apply Z.ltb_ge. lia.
Qed.

Lemma ltb_fkey (x y : float) :
  nonneg x = true -> nonneg y = true ->
  PrimFloat.ltb x y = (fkey x <? fkey y).
Proof.
  intros Nx Ny. rewrite ltb_spec. apply SFltb_key; auto using Prim2SF_valid.
Qed.

Lemma finite_nonneg_nonneg (x : float) : finite_nonneg x = true -> nonneg x = true.
Proof.
  unfold finite_nonneg, nonneg. now destruct (Prim2SF x) as [[|]|[|]| |[|] m e].
Qed.

Lemma finite_pos_finite_nonneg (x : float) : finite_pos x = true -> finite_nonneg x = true.
Proof.
  unfold finite_pos, finite_nonneg. now destruct (Prim2SF x) as [[|]|[|]| |[|] m e].
Qed.

(** [1 <= x <= bound] for a finite bound makes [x] positive and finite. *)
Lemma between_finite_pos (x hi : float) :
  PrimFloat.leb 1 x = true -> PrimFloat.leb x hi = true ->
  finite_nonneg hi = true -> finite_pos x = true.
Proof.
  rewrite !leb_spec. unfold finite_nonneg, finite_pos.
  change (Prim2SF 1) with sf_one.
  destruct (Prim2SF x) as [[|]|[|]| |[|] m e]; try discriminate; try reflexivity.
  destruct (Prim2SF hi) as [[|]|[|]| |[|] mh eh]; discriminate.
Qed.

Lemma b64_mul_mono_l (x y c : float) :
  finite_nonneg x = true -> finite_nonneg y = true -> finite_nonneg c = true ->
  fkey x <= fkey y -> fkey (x * c) <= fkey (y * c).
Proof.
  intros Nx Ny Nc K. unfold fkey. rewrite !mul_spec.
  apply SFmul_mono_l; auto using Prim2SF_valid.
Qed.

Lemma b64_mul_comm (x y : float) : (x * y = y * x)%float.
Proof. apply Prim2SF_inj. rewrite !mul_spec. apply SFmul_comm. Qed.

Lemma b64_mul_mono (a b c d : float) :
  finite_nonneg a = true -> finite_nonneg b = true ->
  finite_nonneg c = true -> finite_nonneg d = true ->
  fkey a <= fkey b -> fkey c <= fkey d ->
  fkey (a * c) <= fkey (b * d).
Proof.
  intros Na Nb Nc Nd K1 K2.
  apply Z.le_trans with (fkey (b * c)).
  - now apply b64_mul_mono_l.
  - rewrite (b64_mul_comm b c), (b64_mul_comm b d). now apply b64_mul_mono_l.
Qed.

Lemma b64_mul_nonneg (x y : float) :
  finite_nonneg x = true -> finite_nonneg y = true -> nonneg (x * y) = true.
Proof.
  unfold finite_nonneg, nonneg. rewrite mul_spec.
  destruct (Prim2SF x) as [[|]|[|]| |[|] mx ex]; try discriminate;
  destruct (Prim2SF y) as [[|]|[|]| |[|] my ey]; try discriminate;
    intros _ _; try reflexivity.
  apply binary_round_aux_nonneg. lia.
Qed.

Lemma finite_pos_fkey (x : float) : finite_pos x = true -> 0 < fkey x < key_inf.
Proof.
  unfold finite_pos, fkey, key_inf. pose proof (Prim2SF_valid x) as V.
  destruct (Prim2SF x) as [[|]|[|]| |[|] m e]; try discriminate. intros _.
  apply valid_finite_bounds in V. cbn [sf_key].
  change (2 ^ 54) with 18014398509481984. change (2 ^ 53) with 9007199254740992 in *.
  lia.
Qed.

Lemma fkey_finite_pos (x : float) :
  nonneg x = true -> 0 < fkey x < key_inf -> finite_pos x = true.
Proof.
  unfold nonneg, finite_pos, fkey, key_inf.
  destruct (Prim2SF x) as [[|]|[|]| |[|] m e]; try discriminate; cbn [sf_key];
    intros _ H; try reflexivity; lia.
Qed.

Lemma fkey_inj_finite_pos (x y : float) :
  finite_pos x = true -> finite_pos y = true -> fkey x = fkey y -> x = y.
Proof.
  unfold finite_pos, fkey. intros Hx Hy K. apply Prim2SF_inj.
  pose proof (Prim2SF_valid x) as Vx. pose proof (Prim2SF_valid y) as Vy.
  destruct (Prim2SF x) as [[|]|[|]| |[|] mx ex]; try discriminate.
  destruct (Prim2SF y) as [[|]|[|]| |[|] my ey]; try discriminate.
  apply valid_finite_bounds in Vx. apply valid_finite_bounds in Vy.
  cbn [sf_key] in K. change (2 ^ 54) with 18014398509481984 in K.
  change (2 ^ 53) with 9007199254740992 in *.
  assert (ex = ey) by lia. subst ey.
  assert (Z.pos mx = Z.pos my) by lia. congruence.
Qed.

(** [0 < x <= bound] for a finite bound makes [x] positive and finite. *)
Lemma pos_below_finite_pos (x hi : float) :
  PrimFloat.ltb 0 x = true -> PrimFloat.leb x hi = true ->
  finite_nonneg hi = true -> finite_pos x = true.
Proof.
  rewrite ltb_spec, leb_spec. unfold finite_nonneg, finite_pos.
  change (Prim2SF 0) with (S754_zero false).
  destruct (Prim2SF x) as [[|]|[|]| |[|] m e]; try discriminate; try reflexivity.
  destruct (Prim2SF hi) as [[|]|[|]| |[|] mh eh]; discriminate.
Qed.

Lemma b64_div_ge_one (a b : float) :
  finite_pos a = true -> finite_pos b = true -> fkey a <= fkey b ->
  PrimFloat.leb 1 (b / a) = true.
Proof.
  unfold finite_pos, fkey. intros Ha Hb K.
  pose proof (Prim2SF_valid a) as Va. pose proof (Prim2SF_valid b) as Vb.
  pose proof (Prim2SF_valid (b / a)) as Vr.
  rewrite leb_spec. rewrite div_spec in *. unfold SF64div in *.
  change (Prim2SF 1) with sf_one.
  destruct (Prim2SF a) as [[|]|[|]| |[|] ma ea]; try discriminate.
  destruct (Prim2SF b) as [[|]|[|]| |[|] mb eb]; try discriminate.
  pose proof (key_order_vle ma mb ea eb Va Vb K) as Hv.
  destruct (SFdiv_ge_one ma mb ea eb Hv) as [E|(mf & ef & E & H1)];
    cbv zeta in E; rewrite E in *.
  - reflexivity.
  - rewrite SFleb_key by (try reflexivity; assumption).
    apply Z.leb_le. now apply v1_key.
Qed.

End Rounding64.

(** ** binary64: growth ratios of increasing sizes *)

Section GrowthRatio64.

Import Binary64.
Local Open Scope Z_scope.
Local Open Scope float_scope.

Lemma size_ok_finite_pos (s : float) : size_ok s = true -> finite_pos s = true.
Proof.
  unfold size_ok. intros H. apply andb_prop in H. destruct H as [H1 H2].
  now apply (between_finite_pos s max_size).
Qed.

Lemma nonneg_of_finite_pos (x : float) : finite_pos x = true -> nonneg x = true.
Proof. intros H. now apply finite_nonneg_nonneg, finite_pos_finite_nonneg. Qed.

(** n * log2(n) for a size above 1: positive, finite, and at most 2^63 * 64. *)
Lemma nlogn_finite_pos (log2 : float -> float) (s : float) :
  log2_spec log2 -> size_ok s = true -> (1 <? s) = true ->
  finite_pos (log2 s) = true /\ finite_pos (s * log2 s) = true.
Proof.
  intros L Hs H1. pose proof (size_ok_finite_pos s Hs) as Fs.
  unfold size_ok in Hs. apply andb_prop in Hs. destruct Hs as [Hs1 Hs2].
  assert (Fl : finite_pos (log2 s) = true).
  { apply (pos_below_finite_pos _ 64); [|now apply (log2_at_most_64 log2 L)|reflexivity].
    now apply (log2_positive log2 L). }
  split; [exact Fl|].
  pose proof (nonneg_of_finite_pos _ Fs) as Ns.
  pose proof (nonneg_of_finite_pos _ Fl) as Nl.
  apply fkey_finite_pos.
  - apply b64_mul_nonneg; now apply finite_pos_finite_nonneg.
  - split.
    + apply Z.lt_le_trans with (fkey (1 * log2 s)).
      * rewrite mul_one_l. now apply finite_pos_fkey.
      * apply b64_mul_mono_l; try (now apply finite_pos_finite_nonneg); try reflexivity.
        apply Z.leb_le. rewrite <- leb_fkey by (try reflexivity; assumption).
        exact Hs1.
    + apply Z.le_lt_trans with (fkey (max_size * 64)).
      * apply b64_mul_mono; try (now apply finite_pos_finite_nonneg); try reflexivity.
        -- apply Z.leb_le. rewrite <- leb_fkey by (try reflexivity; assumption).
           exact Hs2.
        -- apply Z.leb_le. rewrite <- leb_fkey by (try reflexivity; assumption).
           now apply (log2_at_most_64 log2 L).
      * vm_compute. reflexivity.
Qed.

Lemma growth_ratio_ge_one_b64 (log2 : float -> float) (s1 s2 : float) :
  log2_spec log2 ->
  size_ok s1 = true -> size_ok s2 = true -> (s1 <? s2) = true ->
  (1 <=? (s2 * log2 s2) / (s1 * log2 s1)) = true.
Proof.
  intros L H1 H2 Hlt.
  pose proof (size_ok_finite_pos s1 H1) as F1.
  pose proof (size_ok_finite_pos s2 H2) as F2.
  pose proof (nonneg_of_finite_pos _ F1) as N1.
  pose proof (nonneg_of_finite_pos _ F2) as N2.
  pose proof H1 as H1'. pose proof H2 as H2'.
  unfold size_ok in H1', H2'.
  apply andb_prop in H1'. destruct H1' as [A1 B1].
  apply andb_prop in H2'. destruct H2' as [A2 B2].
  assert (K12 : (fkey s1 < fkey s2)%Z).
  { apply Z.ltb_lt. rewrite <- ltb_fkey by assumption. exact Hlt. }
  assert (K1 : (fkey 1 <= fkey s1)%Z).
  { apply Z.leb_le. rewrite <- leb_fkey by (try reflexivity; assumption). exact A1. }
  assert (Hgt2 : (1 <? s2) = true).
  { rewrite ltb_fkey by (try reflexivity; assumption). apply Z.ltb_lt. lia. }
  destruct (nlogn_finite_pos log2 s2 L H2 Hgt2) as [Fl2 Fb].
  destruct (1 <? s1) eqn:Hgt1.
  - destruct (nlogn_finite_pos log2 s1 L H1 Hgt1) as [Fl1 Fa].
    apply b64_div_ge_one; [exact Fa|exact Fb|].
    apply b64_mul_mono; try (now apply finite_pos_finite_nonneg); [lia|].
    apply Z.leb_le.
    rewrite <- leb_fkey by (now apply nonneg_of_finite_pos).
    apply (log2_monotone log2 L); [exact A1| |exact B2].
    rewrite leb_fkey by assumption. apply Z.leb_le. lia.
  - assert (E1 : s1 = 1).
    { apply fkey_inj_finite_pos; [exact F1|reflexivity|].
      rewrite ltb_fkey in Hgt1 by (try reflexivity; assumption).
      apply Z.ltb_ge in Hgt1. lia. }
    rewrite E1, (log2_at_one log2 L), mul_one_l, (div_pos_zero _ Fb).
    reflexivity.
Qed.

End GrowthRatio64.

(** ** binary64: a logarithm that meets [log2_spec] *)

Section Log2Ceil.

Import Binary64.
Local Open Scope float_scope.
Local Open Scope Z_scope.

Lemma log2_ceil_normal (x : float) (m : positive) (e : Z) :
  Prim2SF x = S754_finite false m e -> -1074 < e ->
  log2_ceil x = Z2F (ceil_exp m e).
Proof.
  intros Hx He. unfold log2_ceil, ceil_exp.
  pose proof (Prim2SF_valid x) as V. rewrite Hx in V.
  pose proof (valid_digits _ _ _ V) as (_ & D & _). specialize (D He).
  pose proof (valid_finite_bounds _ _ _ V) as (B & _).
  pose proof (frshiftexp_spec x) as S.
  destruct (frshiftexp x) as [m' e'].
  generalize dependent (Uint63.to_Z e'). intros z S.
  rewrite Hx in S. unfold SFfrexp in S.
  cbn [Zdigits2] in D.
  assert (Hd : digits2_pos m = 53%positive) by lia.
  rewrite Hd in S. change (prec <=? 53) with true in S.
  cbv iota in S. injection S as S1 S2.
  rewrite FloatAxioms.eqb_spec, S1.
  assert (H05 : exists c, Prim2SF 0.5 = S754_finite false c (-53) /\ 2 ^ 52 = Z.pos c).
  { eexists. split; reflexivity. }
  destruct H05 as (c & H05 & Hc).
  rewrite H05, Hc. unfold SFeqb, SFcompare. rewrite Z.compare_refl.
  pose proof (Pos.compare_spec m c) as CS.
  unfold Pos.compare in CS.
  change prec with 53 in S2.
  clear H05 V S1 Hx D Hc B.
  destruct CS as [E|L|G].
  - subst m. rewrite Z.eqb_refl. f_equal. lia.
  - replace (Z.pos m =? Z.pos c) with false by (symmetry; apply Z.eqb_neq; lia).
    f_equal. lia.
  - replace (Z.pos m =? Z.pos c) with false by (symmetry; apply Z.eqb_neq; lia).
    f_equal. lia.
Qed.

Lemma In_small_ints (k : Z) : 0 <= k <= 64 -> In k small_ints.
Proof.
  intros H. unfold small_ints. apply in_map_iff. exists (Z.to_nat k).
  split; [lia|]. apply in_seq. lia.
Qed.

Lemma Z2F_small_mono (a b : Z) :
  0 <= a -> a <= b -> b <= 64 -> PrimFloat.leb (Z2F a) (Z2F b) = true.
Proof.
  intros Ha Hab Hb.
  assert (T : forallb (fun a => forallb (fun b =>
                implb (a <=? b) (PrimFloat.leb (Z2F a) (Z2F b))) small_ints)
                small_ints = true) by (vm_compute; reflexivity).
  rewrite forallb_forall in T. specialize (T a (In_small_ints a ltac:(lia))).
  rewrite forallb_forall in T. specialize (T b (In_small_ints b ltac:(lia))).
  apply Z.leb_le in Hab. now rewrite Hab in T.
Qed.

Lemma Z2F_small_pos (a : Z) :
  1 <= a -> a <= 64 -> PrimFloat.ltb 0 (Z2F a) = true.
Proof.
  intros Ha Hb.
  assert (T : forallb (fun a => implb (1 <=? a) (PrimFloat.ltb 0 (Z2F a)))
                small_ints = true) by (vm_compute; reflexivity).
  rewrite forallb_forall in T. specialize (T a (In_small_ints a ltac:(lia))).
  apply Z.leb_le in Ha. now rewrite Ha in T.
Qed.

(** Mantissa and exponent of a double in [1, 2^63]. *)
Lemma size_ok_shape (x : float) :
  size_ok x = true ->
  exists (m : positive) (e : Z),
    Prim2SF x = S754_finite false m e /\ -52 <= e <= 11 /\
    2 ^ 52 <= Z.pos m < 2 ^ 53 /\ (e = 11 -> Z.pos m = 2 ^ 52) /\
    fkey x = (e + 1075) * 2 ^ 54 + Z.pos m.
Proof.
  intros H. pose proof (size_ok_finite_pos x H) as F.
  pose proof (nonneg_of_finite_pos x F) as N.
  unfold size_ok in H. apply andb_prop in H. destruct H as [H1 H2].
  rewrite leb_fkey in H1, H2 by (try reflexivity; assumption).
  apply Z.leb_le in H1, H2.
  change (fkey 1) with ((-52 + 1075) * 2 ^ 54 + 2 ^ 52) in H1.
  change (fkey max_size) with ((11 + 1075) * 2 ^ 54 + 2 ^ 52) in H2.
  unfold fkey in *. unfold finite_pos in F.
  pose proof (Prim2SF_valid x) as V.
  destruct (Prim2SF x) as [| | |[|] m e]; try discriminate.
  apply valid_finite_bounds in V. cbn [sf_key] in *.
  change (2 ^ 54) with 18014398509481984 in *.
  change (2 ^ 53) with 9007199254740992 in *.
  change (2 ^ 52) with 4503599627370496 in *.
  exists m, e. split; [reflexivity|]. repeat split; lia.
Qed.

Lemma ltb_leb (x y : float) : PrimFloat.ltb x y = true -> PrimFloat.leb x y = true.
Proof.
  rewrite ltb_spec, leb_spec. unfold SFltb, SFleb.
  now destruct (SFcompare (Prim2SF x) (Prim2SF y)) as [[| |]|].
Qed.

Lemma size_ok_log2_ceil (x : float) :
  size_ok x = true ->
  exists (m : positive) (e : Z),
    log2_ceil x = Z2F (ceil_exp m e) /\ 0 <= ceil_exp m e <= 63 /\
    -52 <= e /\ 2 ^ 52 <= Z.pos m < 2 ^ 53 /\
    fkey x = (e + 1075) * 2 ^ 54 + Z.pos m.
Proof.
  intros H. destruct (size_ok_shape x H) as (m & e & Hx & He & Hm & Htop & K).
  exists m, e. split; [apply log2_ceil_normal; [exact Hx|lia]|].
  split; [|now repeat split; try lia].
  unfold ceil_exp. destruct (Z.eqb_spec (Z.pos m) (2 ^ 52)) as [E|N]; lia.
Qed.

Lemma leb_one_trans (x y : float) :
  PrimFloat.leb 1 x = true -> PrimFloat.leb x y = true ->
  nonneg x = true /\ nonneg y = true /\ PrimFloat.leb 1 y = true.
Proof.
  intros H1 H2.
  assert (N : nonneg x = true /\ nonneg y = true).
  { revert H1 H2. rewrite !leb_spec. unfold nonneg.
    change (Prim2SF 1) with sf_one. unfold sf_one, SFleb, SFcompare.
    destruct (Prim2SF x) as [[|]|[|]| |[|] mx ex];
      destruct (Prim2SF y) as [[|]|[|]| |[|] my ey];
      cbn [sf_nonneg]; try discriminate; now split. }
  destruct N as [Nx Ny]. repeat split; try assumption.
  rewrite leb_fkey in * by (try reflexivity; assumption).
  apply Z.leb_le in H1, H2. apply Z.leb_le. lia.
Qed.

Lemma leb_trans_max (x y : float) :
  nonneg x = true -> nonneg y = true ->
  PrimFloat.leb x y = true -> PrimFloat.leb y max_size = true ->
  PrimFloat.leb x max_size = true.
Proof.
  intros Nx Ny H1 H2.
  rewrite leb_fkey in * by (try reflexivity; assumption).
  apply Z.leb_le in H1, H2. apply Z.leb_le. lia.
Qed.

Lemma log2_ceil_spec : log2_spec log2_ceil.
Proof.
  constructor.
  - vm_compute. reflexivity.
  - intros x y H1 Hxy H2.
    destruct (leb_one_trans x y H1 Hxy) as (Nx & Ny & Hy1).
    assert (Hy : size_ok y = true).
    { unfold size_ok. now rewrite Hy1, H2. }
    assert (Hx : size_ok x = true).
    { unfold size_ok. now rewrite H1, (leb_trans_max x y Nx Ny Hxy H2). }
    destruct (size_ok_log2_ceil x Hx) as (mx & ex & -> & Hcx & Hex & Hmx & Kx).
    destruct (size_ok_log2_ceil y Hy) as (my & ey & -> & Hcy & Hey & Hmy & Ky).
    apply Z2F_small_mono; try lia.
    rewrite leb_fkey in Hxy by assumption. apply Z.leb_le in Hxy.
    rewrite Kx, Ky in Hxy. unfold ceil_exp.
    change (2 ^ 54) with 18014398509481984 in *.
    change (2 ^ 53) with 9007199254740992 in *.
    change (2 ^ 52) with 4503599627370496 in *.
    destruct (Z.eqb_spec (Z.pos mx) 4503599627370496) as [E1|N1];
      destruct (Z.eqb_spec (Z.pos my) 4503599627370496) as [E2|N2]; lia.
  - intros x H1 H2.
    assert (Hx : size_ok x = true).
    { unfold size_ok. now rewrite (ltb_leb _ _ H1), H2. }
    destruct (size_ok_log2_ceil x Hx) as (m & e & -> & Hc & He & Hm & K).
    apply Z2F_small_pos; [|lia].
    rewrite ltb_fkey in H1
      by (try reflexivity; apply nonneg_of_finite_pos, size_ok_finite_pos, Hx).
    apply Z.ltb_lt in H1. rewrite K in H1.
    change (fkey 1) with ((-52 + 1075) * 2 ^ 54 + 2 ^ 52) in H1.
    unfold ceil_exp.
    change (2 ^ 54) with 18014398509481984 in *.
    change (2 ^ 53) with 9007199254740992 in *.
    change (2 ^ 52) with 4503599627370496 in *.
    destruct (Z.eqb_spec (Z.pos m) 4503599627370496) as [E|N]; lia.
  - intros x H1 H2.
    assert (Hx : size_ok x = true).
    { unfold size_ok. now rewrite H1, H2. }
    destruct (size_ok_log2_ceil x Hx) as (m & e & -> & Hc & He & Hm & K).
    replace 64%float with (Z2F 64) by (vm_compute; reflexivity).
    apply Z2F_small_mono; lia.
Qed.

End Log2Ceil.

(** ** Exact arithmetic: logarithms, products and quotients of finite values *)

Section ExactFacts.

Import Exact.
Local Open Scope R_scope.

Lemma ln2_pos : 0 < ln 2.
Proof. pose proof ln_lt_2. lra. Qed.


Lemma xlog2_fin (a : R) : 0 < a -> xlog2 (Fin a) = Fin (ln a / ln 2).
Proof.
  intros H. unfold xlog2.
  destruct (total_order_T 0 a) as [[L|E]|G]; [reflexivity|lra|lra].
Qed.

Lemma xdiv_fin (a b : R) : b <> 0 -> xdiv (Fin a) (Fin b) = Fin (a / b).
Proof.
  intros H. unfold xdiv. now destruct (Req_dec_T b 0).
Qed.










End ExactFacts.

(** ** Growth rates: the two series, entry by entry *)

Section GrowthSeries.

Context {F : Type} `{AF : Arith F} `{LF : Log2 F}.

(** Entry [i - 1] of both growth-rate series describes the step from row
    [i - 1] to row [i]. *)
Lemma growth_series_at (t : BenchmarkTable F) (i : nat) :
  (1 <= i < List.length t)%nat ->
  let total := map total_time_ms t in
  let sizes := map size t in
  exists tr er : Series F,
    time_ratios (to_frame t) = Ok tr /\
    theoretical_ratios (to_frame t) = Ok er /\
    List.length tr = (List.length t - 1)%nat /\
    List.length er = (List.length t - 1)%nat /\
    nth (i - 1) tr nan = fdiv (nth i total nan) (nth (i - 1) total nan) /\
    nth (i - 1) er nan =
      fdiv (fmul (nth i sizes nan) (np_log2 (nth i sizes nan)))
           (fmul (nth (i - 1) sizes nan) (np_log2 (nth (i - 1) sizes nan))).
Proof.
  intros Hi total sizes.
  rewrite time_ratios_eq, theoretical_ratios_eq. fold total sizes.
  assert (Ht : List.length total = List.length t) by apply length_map.
  do 2 eexists. split; [reflexivity|]. split; [reflexivity|].
  split; [|split; [|split]].
  - rewrite elementwise_length, tl_length, removelast_length, Ht. lia.
  - now rewrite length_map, length_seq.
  - rewrite elementwise_nth
      by (rewrite ?tl_length, ?removelast_length, Ht; lia).
    rewrite nth_tl, nth_removelast by (rewrite Ht; lia).
    now replace (S (i - 1)) with i by lia.
  - rewrite (nth_indep _ nan (growth_ratio_at sizes 0))
      by (rewrite length_map, length_seq; lia).
    rewrite (map_nth (growth_ratio_at sizes)), seq_nth by lia.
    now replace (1 + (i - 1))%nat with i by lia.
Qed.

End GrowthSeries.

Section Scenario.

Import Exact.
Local Open Scope R_scope.

Lemma pow_lt_as_integers (a b : Z) (n m : nat) :
  (a ^ Z.of_nat n < b ^ Z.of_nat m)%Z -> IZR a ^ n < IZR b ^ m.
Proof. intros H. rewrite !pow_IZR. now apply IZR_lt. Qed.

(** log2(1000) lies between 9.96 and 9.97: 2^996 < 1000^100 < 2^997. *)
Lemma log2_1000_bounds : 9.96 < ln 1000 / ln 2 < 9.97.
Proof.
  pose proof ln2_pos as L2.
  assert (Hlo : INR 996 * ln 2 < INR 100 * ln 1000).
  { rewrite <- !ln_pow by lra. apply ln_increasing; [apply pow_lt; lra|].
    apply pow_lt_as_integers. vm_compute. reflexivity. }
  assert (Hhi : INR 100 * ln 1000 < INR 997 * ln 2).
  { rewrite <- !ln_pow by lra. apply ln_increasing; [apply pow_lt; lra|].
    apply pow_lt_as_integers. vm_compute. reflexivity. }
  rewrite !INR_IZR_INZ in Hlo, Hhi. cbn [Z.of_nat Pos.of_succ_nat Pos.succ] in Hlo, Hhi.
  split.
  - apply (Rmult_lt_reg_r (ln 2)); [exact L2|].
    unfold Rdiv. rewrite Rmult_assoc, Rinv_l, Rmult_1_r by lra. lra.
  - apply (Rmult_lt_reg_r (ln 2)); [exact L2|].
    unfold Rdiv. rewrite Rmult_assoc, Rinv_l, Rmult_1_r by lra. lra.
Qed.

Lemma ln_2000 : ln 2000 = ln 2 + ln 1000.
Proof. rewrite <- ln_mult by lra. f_equal; lra. Qed.

Lemma scenario_time_ratio :
  time_ratios (to_frame scenario) = Ok [Fin (3.2 / 1.5)] /\
  near (Fin (3.2 / 1.5)) 2.133 0.0005.
Proof.
  split.
  - rewrite time_ratios_eq. cbn [scenario map total_time_ms tl removelast elementwise fdiv arith].
    now rewrite xdiv_fin by lra.
  - cbn [near]. apply Rabs_def1; lra.
Qed.

Lemma scenario_expected_ratio :
  exists e : R,
    theoretical_ratios (to_frame scenario) = Ok [Fin e] /\
    near (Fin e) 2.201 0.0005.
Proof.
  pose proof log2_1000_bounds as [Hlo Hhi].
  pose proof ln2_pos as L2.
  set (l := ln 1000 / ln 2) in *.
  assert (Hl2 : ln 2000 / ln 2 = 1 + l).
  { unfold l. rewrite ln_2000. field. lra. }
  exists (2000 * (1 + l) / (1000 * l)). split.
  - rewrite theoretical_ratios_eq.
    cbn [scenario map size List.length Nat.sub seq growth_ratio_at nth
         fdiv fmul np_log2 arith log2].
    rewrite !xlog2_fin by lra. fold l. rewrite Hl2. cbn [xmul].
    now rewrite xdiv_fin by nra.
  - cbn [near].
    assert (E : 2000 * (1 + l) / (1000 * l) = 2 + 2 / l) by (field; lra).
    rewrite E.
    assert (B : 0.2005 < 2 / l < 0.2015).
    { split.
      - apply (Rmult_lt_reg_r l); [lra|].
        unfold Rdiv. rewrite Rmult_assoc, Rinv_l, Rmult_1_r by lra. lra.
      - apply (Rmult_lt_reg_r l); [lra|].
        unfold Rdiv. rewrite Rmult_assoc, Rinv_l, Rmult_1_r by lra. lra. }
    apply Rabs_def1; lra.
Qed.

End Scenario.

(** ** binary64: special values at the anchors *)

Section Special64.

Import Binary64.
Local Open Scope float_scope.

Lemma mul_nan_r (x : float) : x * PrimFloat.nan = PrimFloat.nan.
Proof.
  apply Prim2SF_inj. rewrite mul_spec. unfold SF64mul.
  change (Prim2SF PrimFloat.nan) with S754_nan.
  now destruct (Prim2SF x) as [[|]|[|]| |[|] m e].
Qed.


Lemma div_nan_l (x : float) : PrimFloat.nan / x = PrimFloat.nan.
Proof.
  apply Prim2SF_inj. rewrite div_spec. unfold SF64div.
  change (Prim2SF PrimFloat.nan) with S754_nan. reflexivity.
Qed.






Lemma div_infinity_infinity : infinity / infinity = PrimFloat.nan.
Proof. reflexivity. Qed.

End Special64.

(** ** Growth rates *)




(** C3.  For a table of at least two rows, entry i - 1 of the growth-rate
    series (the one aligned to row i, for 1 <= i < N) is
    total[i] / total[i-1] for the actual series and
    (size[i] * log2(size[i])) / (size[i-1] * log2(size[i-1])) for the
    expected one.  On the scenario table the actual ratio is 3.2 / 1.5,
    2.133 to three decimals (in binary64 and in exact arithmetic), and the
    expected ratio is 2.201 to three decimals (in exact arithmetic). *)
Theorem C3_growth_rate_series :
  (forall (F : Type) (AF : Arith F) (LF : Log2 F) (t : BenchmarkTable F) (i : nat),
      (1 <= i < List.length t)%nat ->
      let total := map total_time_ms t in
      let sizes := map size t in
      exists tr er : Series F,
        time_ratios (to_frame t) = Ok tr /\
        theoretical_ratios (to_frame t) = Ok er /\
        List.length tr = (List.length t - 1)%nat /\
        List.length er = (List.length t - 1)%nat /\
        nth (i - 1) tr nan = fdiv (nth i total nan) (nth (i - 1) total nan) /\
        nth (i - 1) er nan =
          fdiv (fmul (nth i sizes nan) (np_log2 (nth i sizes nan)))
               (fmul (nth (i - 1) sizes nan) (np_log2 (nth (i - 1) sizes nan)))) /\
  (exists a : float,
      time_ratios (to_frame Binary64.scenario) = Ok [a] /\
      a = (3.2 / 1.5)%float /\
      (2.133 <? a)%float = true /\ (a <? 2.134)%float = true) /\
  (exists a e : R,
      time_ratios (to_frame Exact.scenario) = Ok [Exact.Fin a] /\
      theoretical_ratios (to_frame Exact.scenario) = Ok [Exact.Fin e] /\
      Exact.near (Exact.Fin a) 2.133 0.0005 /\
      Exact.near (Exact.Fin e) 2.201 0.0005).
Proof.
  split; [|split].
  - intros F AF LF t i Hi. now apply growth_series_at.
  - eexists. split; [reflexivity|]. split; [reflexivity|].
    split; vm_compute; reflexivity.
  - destruct scenario_time_ratio as [Ha Hna].
    destruct scenario_expected_ratio as (e & He & Hne).
    exists (3.2 / 1.5)%R, e. auto.
Qed.

Lemma C3_growth_rate_witness :
  exists tr er : Series float,
    time_ratios (to_frame Binary64.pow2_table) = Ok tr /\
    theoretical_ratios (LF := Binary64.with_log2 Binary64.log2_pow2)
      (to_frame Binary64.pow2_table) = Ok er /\
    nth 0 tr nan = (65.0 / 30.75)%float /\
    nth 0 er nan = ((131072 * 17) / (65536 * 16))%float.
Proof.
  destruct C3_growth_rate_series as [H _].
  destruct (H float Binary64.arith (Binary64.with_log2 Binary64.log2_pow2)
              Binary64.pow2_table 1%nat) as (tr & er & Ht & He & _ & _ & Htr & Her).
  - cbn. lia.
  - exists tr, er. repeat split; assumption.
Defined.

(** ** SA/LCP ratio and its mean *)

Lemma sa_vs_lcp_figure_eq {F : Type} `{AF : Arith F} `{FF : Format F}
      (t : BenchmarkTable F) :
  let r := map (fun row => fdiv (sa_time_ms row) (lcp_time_ms row)) t in
  sa_vs_lcp_figure (to_frame t) =
  Ok [ Line2D (map size t) (map sa_time_ms t) "SA Construction O(n log n)";
       Line2D (map size t) (map lcp_time_ms t) "LCP Construction O(n)";
       Line2D (map size t) r "";
       HLine (mean r) ("Average Ratio: " ++ format_2f (mean r)) ].
Proof.
  intros r. unfold sa_vs_lcp_figure.
  rewrite getitem_Size, getitem_SA, getitem_LCP, ratio_eq. fold r.
  cbn [rbind]. rewrite !ax_plot_ok by (unfold r; now rewrite !length_map).
  reflexivity.
Qed.

Lemma ratio_entries_nonneg_or_nan (t : BenchmarkTable float) :
  Forall (fun row => Binary64.nonneg (sa_time_ms row) = true /\
                     Binary64.nonneg (lcp_time_ms row) = true) t ->
  Forall Binary64.nonneg_or_nan
         (map (fun row => (sa_time_ms row / lcp_time_ms row)%float) t).
Proof.
  intros H. apply Forall_map. eapply Forall_impl; [|exact H].
  intros row [Hs Hl]. now apply div_nonneg.
Qed.

(** [Series.mean] adds pairwise: ten ratios of 0.1 sum to 1.0 and the
    mean is 0.1, where a sum taken from left to right would give
    0.9999999999999999 and a mean of 0.09999999999999999. *)
Lemma mean_of_ten_rows :
  exists r : Series float,
    ratio (to_frame Binary64.ten_rows) = Ok r /\
    r = repeat 0.1%float 10 /\
    np_sum r = 1%float /\
    mean r = 0.1%float /\
    fold_left PrimFloat.add r 0%float = 0.9999999999999999%float /\
    (fold_left PrimFloat.add r 0 / 10 =? 0.1)%float = false.
Proof.
  eexists. split; [reflexivity|]. split; [reflexivity|].
  repeat split; vm_compute; reflexivity.
Qed.

(** C4 (as amended).  In binary64 the ratio series is the elementwise
    quotient sa / lcp, with nothing special-cased: a zero LCP time gives
    +infinity under a positive SA time and NaN under a zero SA time, and
    that value is the entry of the series.  The reference line is drawn at
    [Series.mean] of the series and labelled with that value to two
    decimals.  The mean replaces NaN entries by 0 and divides the pairwise
    sum by the number of entries that are not NaN (NaN when there is
    none): for up to seven ratios without a NaN it is their sum from left
    to right divided by their number; for non-negative times an infinite
    entry makes it +infinity; and in a series of up to seven entries a NaN
    entry changes nothing in it. *)
Theorem C4_ratio_series_and_mean :
  forall t : BenchmarkTable float,
    let r := map (fun row => (sa_time_ms row / lcp_time_ms row)%float) t in
    ratio (to_frame t) = Ok r /\
    List.length r = List.length t /\
    sa_vs_lcp_figure (to_frame t) =
      Ok [ Line2D (map size t) (map sa_time_ms t) "SA Construction O(n log n)";
           Line2D (map size t) (map lcp_time_ms t) "LCP Construction O(n)";
           Line2D (map size t) r "";
           HLine (mean r)
                 ("Average Ratio: " ++ Binary64.float_format_2f (mean r)) ] /\
    (forall row, In row t -> lcp_time_ms row = 0%float ->
                 Binary64.finite_pos (sa_time_ms row) = true ->
                 In infinity r) /\
    (forall row, In row t -> lcp_time_ms row = 0%float ->
                 sa_time_ms row = 0%float ->
                 In PrimFloat.nan r) /\
    mean r =
      (if (count_notna r =? 0)%nat then PrimFloat.nan
       else np_sum (fillna0 r) / of_nat (count_notna r))%float /\
    (forall (r0 : float) (rest : Series float),
        r = r0 :: rest -> (List.length rest < 7)%nat ->
        Forall (fun x => is_nan x = false) r ->
        mean r = (fold_left PrimFloat.add rest r0 / of_nat (List.length r))%float) /\
    (Forall (fun row => Binary64.nonneg (sa_time_ms row) = true /\
                        Binary64.nonneg (lcp_time_ms row) = true) t ->
     (Z.of_nat (List.length t) < 2 ^ 52)%Z ->
     In infinity r ->
     mean r = infinity) /\
    (forall r1 r2 : Series float,
        Forall Binary64.nonneg_or_nan (r1 ++ r2) ->
        (List.length (r1 ++ r2) < 7)%nat ->
        mean (r1 ++ PrimFloat.nan :: r2) = mean (r1 ++ r2)).
Proof.
  intros t r. split; [exact (ratio_eq t)|]. split; [apply length_map|].
  split; [exact (sa_vs_lcp_figure_eq t)|].
  split; [|split; [|split; [|split; [|split]]]].
  - intros row Hin Hl Hs. apply in_map_iff. exists row. split; [|exact Hin].
    rewrite Hl. now apply div_pos_zero.
  - intros row Hin Hl Hs. apply in_map_iff. exists row. split; [|exact Hin].
    now rewrite Hl, Hs.
  - unfold mean. now destruct (count_notna r).
  - intros r0 rest E Hlen Hnan. rewrite E in *. now apply mean_short.
  - intros Hnn Hlen Hin. apply mean_infinity; [|now unfold r; rewrite length_map|exact Hin].
    now apply ratio_entries_nonneg_or_nan.
  - intros r1 r2. apply mean_skips_nan.
Qed.

(** C4, witness: a zero LCP time under a positive SA time; the ratio is
    +infinity and so is the mean. *)
Lemma C4_infinite_mean_witness :
  let r := map (fun row => (sa_time_ms row / lcp_time_ms row)%float)
               Binary64.zero_lcp_table in
  r = [infinity; 2%float] /\ mean r = infinity.
Proof.
  cbv zeta. split; [reflexivity|].
  destruct (C4_ratio_series_and_mean Binary64.zero_lcp_table)
    as (_ & _ & _ & _ & _ & _ & _ & H & _).
  apply H.
  - repeat constructor.
  - cbn. lia.
  - left. reflexivity.
Defined.

(** C4, counterexample: both times of the first row are zero.  The ratio
    series holds NaN there, yet the mean is 2, a finite value, and the
    line is labelled 2.00: the NaN entry was left out of the mean. *)
Lemma C4_nan_mean_counterexample :
  exists r : Series float,
    ratio (to_frame Binary64.zero_times_table) = Ok r /\
    r = [PrimFloat.nan; 2%float] /\
    is_finite (nth 0 r 0%float) = false /\
    mean r = 2%float /\
    is_finite (mean r) = true /\
    exists l1 l2 l3 : artist float,
      sa_vs_lcp_figure (to_frame Binary64.zero_times_table) =
        Ok [l1; l2; l3; HLine 2%float "Average Ratio: 2.00"].
Proof.
  eexists. split; [reflexivity|]. repeat split.
  do 3 eexists. vm_compute. reflexivity.
Qed.

(** ** Anchoring of the theoretical curves *)







(** ** A complete run of the driver *)

Section Run.

Context {F : Type} `{AF : Arith F} `{LF : Log2 F} `{FF : Format F}
        {PP : Pyplot F}.

Local Open Scope py_scope.
Local Open Scope string_scope.
Local Open Scope list_scope.

Implicit Types (t : BenchmarkTable F) (fs : filesystem F).

(** A chart builder, from the figure on: the artifact and its
    confirmation once matplotlib has written it, the exception and no
    effect otherwise. *)
Lemma render_outcome (fig : result (figure F)) (name : string) :
  render fig output_dir name =
  match chart_outcome name fig with
  | Ok f =>
      ([Saved (output_dir ++ "/" ++ name) f;
        Stdout ("Saved: " ++ output_dir ++ "/" ++ name)], Ok tt)
  | Raise e => ([], Raise e)
  end.
Proof.
  unfold render, chart_outcome, savefig. destruct fig as [f|e]; [|reflexivity].
  cbn [lift io_bind rbind app].
  now destruct (tight_layout_savefig (output_dir ++ "/" ++ name) f) as [[]|e].
Qed.

Lemma outcome_succeeds (name : string) (fig : result (figure F)) :
  succeeds fig = true -> written (name, fig) ->
  succeeds (chart_outcome name fig) = true.
Proof.
  destruct fig as [f|e]; [|discriminate]. intros _ W.
  pose proof (W f eq_refl) as E. cbn [fst] in E.
  unfold chart_outcome. cbn [rbind]. now rewrite E.
Qed.



Lemma outcome_figure (name : string) (fig : result (figure F)) (f : figure F) :
  chart_outcome name fig = Ok f -> fig = Ok f.
Proof.
  destruct fig as [f'|e]; unfold chart_outcome; cbn [rbind]; [|discriminate].
  destruct (tight_layout_savefig (output_dir ++ "/" ++ name) f'); [|discriminate].
  now intros [= <-].
Qed.





Lemma getitem_header (rows : list (list F)) (key : string) (j : nat) :
  get_loc key header = Some j ->
  getitem (mkDataFrame header rows) key = Ok (map (fun row => nth j row nan) rows).
Proof. intros H. unfold getitem. cbn [columns values]. now rewrite H. Qed.



(** With an empty table at [csv_path], the first chart builder stops at
    [iloc[0]]: nothing is saved. *)
Lemma main_empty_table fs :
  fs csv_path = Some (Ok (to_frame [])) ->
  main fs =
    ([Stdout "Loading benchmark data...";
      Stdout (newline ++ "Generating plots...")%string],
     Raise IndexError).
Proof.
  intros Hfs. unfold main, os_path_exists, load_data, read_csv. rewrite Hfs.
  reflexivity.
Qed.

(** A file that [read_csv] rejects: the exception leaves the driver
    after its first progress line. *)
Lemma main_rejected fs (e : exn) :
  fs csv_path = Some (Raise e) ->
  main fs = ([Stdout "Loading benchmark data..."], Raise e).
Proof.
  intros Hfs. unfold main, os_path_exists, load_data, read_csv. now rewrite Hfs.
Qed.

End Run.

(* The run of the driver on a file that parses: the six chart builders in
   a row, each described by its outcome. *)
Ltac run_main Hfs :=
  unfold main, os_path_exists, load_data, read_csv; rewrite Hfs;
  cbn [negb lift print io_bind];
  unfold plot_overall_complexity, plot_sa_vs_lcp, plot_logarithmic_scale,
    plot_search_performance, plot_growth_rates, plot_component_breakdown;
  rewrite !render_outcome.



(** X2.  With an empty table at [csv_path], the run is fatal: the first
    chart builder raises [IndexError] at [iloc[0]], after the two progress
    lines, and no artifact is written. *)
Theorem driver_empty_table_is_fatal :
  forall (F : Type) (AF : Arith F) (LF : Log2 F) (FF : Format F)
         (PP : Pyplot F) (fs : filesystem F),
    fs csv_path = Some (Ok (to_frame [])) ->
    main fs =
      ([Stdout "Loading benchmark data...";
        Stdout (newline ++ "Generating plots...")%string],
       Raise IndexError) /\
    saved_paths (fst (main fs)) = [].
Proof.
  intros F AF LF FF PP fs Hfs. rewrite (main_empty_table fs Hfs). now split.
Qed.

Lemma driver_empty_table_witness :
  snd (main (LF := Binary64.with_log2 Binary64.log2_pow2)
            (PP := Binary64.always_saves)
            (Binary64.only_csv (to_frame []))) = Raise IndexError.
Proof.
  destruct (driver_empty_table_is_fatal float Binary64.arith
              (Binary64.with_log2 Binary64.log2_pow2) Binary64.format
              Binary64.always_saves
              (Binary64.only_csv (to_frame [])) eq_refl) as [E _].
  now rewrite E.
Defined.

(** X3.  On the scenario table the theoretical total-time curve starts
    at 1.5 and continues with 1.5 * (2000 log2 2000) / (1000 log2 1000),
    which is 3.301 to three decimals: in exact arithmetic, and in binary64
    with the rounded n*log(n) column of the file. *)
Theorem scenario_theoretical_curve :
  (exists v : R,
      theoretical (to_frame Exact.scenario) = Ok [Exact.Fin 1.5; Exact.Fin v] /\
      Exact.near (Exact.Fin v) 3.301 0.0005) /\
  (exists x : float,
      theoretical (to_frame Binary64.scenario) = Ok [1.5%float; x] /\
      (3.3005 <? x)%float = true /\ (x <? 3.3015)%float = true).
Proof.
  split.
  - pose proof log2_1000_bounds as [Hlo Hhi].
    pose proof ln2_pos as L2.
    set (l := (ln 1000 / ln 2)%R) in *.
    assert (Hl2 : (ln 2000 / ln 2 = 1 + l)%R).
    { unfold l. rewrite ln_2000. field. lra. }
    exists ((2 + 2 / l) * 1.5)%R. split.
    + unfold Exact.scenario. rewrite theoretical_eq.
      cbn [map n_log_n total_time_ms fmul fdiv Exact.arith].
      rewrite !xlog2_fin by lra. fold l. rewrite Hl2. cbn [Exact.xmul].
      rewrite !xdiv_fin by nra. cbn [Exact.xmul].
      do 2 f_equal; [f_equal; field; lra|]. do 2 f_equal. field. lra.
    + cbn [Exact.near].
      assert (B : (0.2006 < 2 / l < 0.2009)%R).
      { split.
        - apply (Rmult_lt_reg_r l); [lra|].
          unfold Rdiv. rewrite Rmult_assoc, Rinv_l, Rmult_1_r by lra. lra.
        - apply (Rmult_lt_reg_r l); [lra|].
          unfold Rdiv. rewrite Rmult_assoc, Rinv_l, Rmult_1_r by lra. lra. }
      apply Rabs_def1; lra.
  - eexists. split; [reflexivity|]. split; vm_compute; reflexivity.
Qed.

(** Slicing commutes with reading a column. *)
Lemma slice_from_map {A B : Type} (f : A -> B) (k skip : nat) (l : list A) :
  slice_from k skip (map f l) = map f (slice_from k skip l).
Proof.
  revert skip. induction l as [|x l IH]; intros skip; [reflexivity|].
  cbn [map slice_from]. destruct skip as [|skip]; cbn [map]; now rewrite IH.
Qed.

(** X4.  The component-breakdown chart of a table draws, over positions
    0, 1, 2, ... of the selected rows, the SA times as the base bars and
    the LCP times stacked on them (their bottom is the SA time), labelled
    by the sizes of the selected rows. *)
Theorem component_breakdown_stacks_lcp_on_sa :
  forall (F : Type) (AF : Arith F) (t : BenchmarkTable F),
    let rows := slice_from (step (to_frame t)) 0 t in
    let x := map of_nat (seq 0 (List.length rows)) in
    component_breakdown_figure (to_frame t) =
    Ok [ Bars x (map sa_time_ms rows) None "SA Construction";
         Bars x (map lcp_time_ms rows) (Some (map sa_time_ms rows))
              "LCP Construction";
         XTickLabels (map size rows) ].
Proof.
  intros F AF t rows x.
  unfold component_breakdown_figure. rewrite df_subset_ok.
  cbn [rbind to_frame columns]. unfold len. cbn [values].
  rewrite (getitem_header _ "SA(ms)" 1), (getitem_header _ "LCP(ms)" 2),
    (getitem_header _ "Size" 0) by reflexivity.
  change (values (to_frame t)) with (map cells t).
  rewrite slice_from_map. fold rows.
  rewrite !map_map, length_map. fold x.
  cbn [rbind nth cells]. unfold ax_bar.
  unfold x. rewrite !length_map, length_seq, !Nat.eqb_refl.
  reflexivity.
Qed.

(** X5.  In binary64, with any [np.log2] that is exact at 1, positive
    above 1, at most 64 up to 2^63 and order-preserving: when the sizes
    lie between 1 and 2^63 and increase strictly from row to row, every
    element of the expected growth-rate series compares [>= 1] as a
    double (+infinity when the earlier size is 1).  No rounding of the
    two products or of the quotient brings it below 1. *)
Theorem expected_growth_at_least_1_binary64 :
  forall (log2 : float -> float) (t : BenchmarkTable float),
    Binary64.log2_spec log2 ->
    Binary64.increasing_sizes (map size t) ->
    exists er : Series float,
      theoretical_ratios (LF := Binary64.with_log2 log2) (to_frame t) = Ok er /\
      List.length er = (List.length t - 1)%nat /\
      Forall (fun x => (1 <=? x)%float = true) er.
Proof.
  intros log2 t L [Hok Hinc].
  rewrite (theoretical_ratios_eq (LF := Binary64.with_log2 log2)).
  eexists. split; [reflexivity|].
  split; [now rewrite length_map, length_seq|].
  apply Forall_forall. intros x Hin.
  apply in_map_iff in Hin. destruct Hin as (i & <- & Hi). apply in_seq in Hi.
  destruct i as [|i]; [lia|].
  unfold growth_ratio_at. replace (S i - 1)%nat with i by lia.
  rewrite length_map in Hinc. rewrite Forall_forall in Hok.
  apply (growth_ratio_ge_one_b64 log2 _ _ L).
  - apply Hok, nth_In. rewrite length_map. lia.
  - apply Hok, nth_In. rewrite length_map. lia.
  - apply Hinc. lia.
Qed.

Lemma expected_growth_at_least_1_binary64_witness :
  exists er : Series float,
    theoretical_ratios (LF := Binary64.with_log2 Binary64.log2_ceil)
      (to_frame Binary64.scenario) = Ok er /\
    List.length er = 1%nat /\
    Forall (fun x => (1 <=? x)%float = true) er.
Proof.
  apply (expected_growth_at_least_1_binary64 Binary64.log2_ceil Binary64.scenario).
  - exact log2_ceil_spec.
  - split.
    + repeat constructor.
    + intros [|[|i]] Hi; cbn in Hi; try lia. reflexivity.
Defined.

(** X6.  In binary64, wherever the total time of a row is positive and
    finite and the next row's total time is at least as large, the entry
    of the actual growth-rate series for that step compares [>= 1] as a
    double: the point lies on or above the reference line y = 1. *)
Theorem actual_growth_on_or_above_reference_binary64 :
  forall (t : BenchmarkTable float) (i : nat),
    let total := map total_time_ms t in
    (S i < List.length t)%nat ->
    Binary64.finite_pos (nth i total nan) = true ->
    Binary64.finite_pos (nth (S i) total nan) = true ->
    (nth i total nan <=? nth (S i) total nan)%float = true ->
    exists tr : Series float,
      time_ratios (to_frame t) = Ok tr /\
      List.length tr = (List.length t - 1)%nat /\
      (1 <=? nth i tr nan)%float = true.
Proof.
  intros t i total Hi F1 F2 Hle.
  destruct (growth_series_at (LF := Binary64.with_log2 Binary64.log2_pow2)
              t (S i) ltac:(lia))
    as (tr & _ & Htr & _ & Hlen & _ & Hnth & _).
  cbv zeta in Hnth. replace (S i - 1)%nat with i in Hnth by lia.
  fold total in Hnth.
  exists tr. split; [exact Htr|]. split; [exact Hlen|].
  rewrite Hnth. apply b64_div_ge_one; [exact F1|exact F2|].
  apply Z.leb_le. rewrite <- leb_fkey; [exact Hle| |].
  - now apply finite_nonneg_nonneg, finite_pos_finite_nonneg.
  - now apply finite_nonneg_nonneg, finite_pos_finite_nonneg.
Qed.

Lemma actual_growth_on_or_above_reference_witness :
  exists tr : Series float,
    time_ratios (to_frame Binary64.scenario) = Ok tr /\
    List.length tr = 1%nat /\
    (1 <=? nth 0 tr nan)%float = true.
Proof.
  apply (actual_growth_on_or_above_reference_binary64 Binary64.scenario 0).
  - cbn. lia.
  - reflexivity.
  - reflexivity.
  - reflexivity.
Defined.

(** ** binary64: the theoretical search curve *)

Section SearchCurve64.

Import Binary64.
Local Open Scope Z_scope.
Local Open Scope float_scope.

Lemma size_one_or_above (s : float) :
  size_ok s = true -> s = 1 \/ (1 <? s) = true.
Proof.
  intros H. pose proof (size_ok_finite_pos s H) as Fs.
  pose proof (nonneg_of_finite_pos s Fs) as Ns.
  unfold size_ok in H. apply andb_prop in H. destruct H as [H1 _].
  destruct (1 <? s) eqn:Hgt; [now right|left].
  rewrite leb_fkey in H1 by (try reflexivity; assumption).
  rewrite ltb_fkey in Hgt by (try reflexivity; assumption).
  apply Z.leb_le in H1. apply Z.ltb_ge in Hgt.
  apply fkey_inj_finite_pos; [exact Fs|reflexivity|lia].
Qed.

Lemma log2_finite_nonneg (log2 : float -> float) (s : float) :
  log2_spec log2 -> size_ok s = true -> finite_nonneg (log2 s) = true.
Proof.
  intros L H. destruct (size_one_or_above s H) as [->|Hgt].
  - now rewrite (log2_at_one log2 L).
  - now apply finite_pos_finite_nonneg, (nlogn_finite_pos log2 s L H Hgt).
Qed.

Lemma sizes_nondecreasing (sizes : list float) (i j : nat) :
  increasing_sizes sizes -> (i <= j < List.length sizes)%nat ->
  (nth i sizes PrimFloat.nan <=? nth j sizes PrimFloat.nan) = true.
Proof.
  intros [Hok Hinc]. rewrite Forall_forall in Hok.
  assert (N : forall k, (k < List.length sizes)%nat ->
                nonneg (nth k sizes PrimFloat.nan) = true).
  { intros k Hk. apply nonneg_of_finite_pos, size_ok_finite_pos, Hok.
    now apply nth_In. }
  induction j as [|j IH]; intros Hij.
  - replace i with 0%nat by lia.
    rewrite leb_fkey by (apply N; lia). apply Z.leb_le. lia.
  - destruct (Nat.eq_dec i (S j)) as [->|Hne].
    + rewrite leb_fkey by (apply N; lia). apply Z.leb_le. lia.
    + specialize (IH ltac:(lia)). specialize (Hinc j ltac:(lia)).
      rewrite leb_fkey in * by (apply N; lia).
      rewrite ltb_fkey in Hinc by (apply N; lia).
      apply Z.leb_le in IH. apply Z.ltb_lt in Hinc. apply Z.leb_le. lia.
Qed.

(** Scaling the logarithms of two ordered sizes by the same non-negative
    finite factor keeps their order. *)
Lemma scaled_log2_mono (log2 : float -> float) (s1 s2 c : float) :
  log2_spec log2 -> size_ok s1 = true -> size_ok s2 = true ->
  (s1 <=? s2) = true -> finite_nonneg c = true ->
  (log2 s1 * c <=? log2 s2 * c) = true.
Proof.
  intros L H1 H2 Hle Hc.
  pose proof (log2_finite_nonneg log2 s1 L H1) as F1.
  pose proof (log2_finite_nonneg log2 s2 L H2) as F2.
  rewrite leb_fkey by (now apply b64_mul_nonneg). apply Z.leb_le.
  apply b64_mul_mono_l; try assumption.
  apply Z.leb_le. rewrite <- leb_fkey by (now apply finite_nonneg_nonneg).
  unfold size_ok in H1, H2.
  apply andb_prop in H1. apply andb_prop in H2.
  now apply (log2_monotone log2 L).
Qed.

End SearchCurve64.

(** X7.  In binary64, with any [np.log2] that meets [log2_spec]: when
    the sizes lie between 1 and 2^63 and increase strictly, and the scale
    factor (search_time[last] / 1000) / log2(size[last]) is a
    non-negative finite double, the theoretical search-time curve never
    decreases from a row to a later one: the rounding of the products
    does not invert their order. *)
Theorem search_curve_nondecreasing_binary64 :
  forall (log2 : float -> float) (t' : BenchmarkTable float)
         (r_last : BenchmarkRow float),
    let t := t' ++ [r_last] in
    let scale := fdiv (fdiv (search_time_ns r_last) (of_Z 1000))
                      (log2 (size r_last)) in
    Binary64.log2_spec log2 ->
    Binary64.increasing_sizes (map size t) ->
    Binary64.finite_nonneg scale = true ->
    exists th : Series float,
      theoretical_logn (LF := Binary64.with_log2 log2) (to_frame t) = Ok th /\
      List.length th = List.length t /\
      forall i j : nat, (i <= j < List.length t)%nat ->
        (nth i th nan <=? nth j th nan)%float = true.
Proof.
  intros log2 t' r_last t scale L Hinc Hc.
  unfold t. rewrite (theoretical_logn_eq (LF := Binary64.with_log2 log2)).
  fold t. eexists. split; [reflexivity|]. split; [apply length_map|].
  intros i j Hij.
  set (f := fun r : BenchmarkRow float =>
              fmul (np_log2 (Log2 := Binary64.with_log2 log2) (size r))
                   (fdiv (fdiv (search_time_ns r_last) (of_Z 1000))
                         (np_log2 (Log2 := Binary64.with_log2 log2) (size r_last)))).
  rewrite (nth_indep (map f t) nan (f r_last)), (nth_indep (map f t) nan (f r_last))
    by (rewrite length_map; lia).
  rewrite !(map_nth f). unfold f. cbn [np_log2 Binary64.with_log2].
  fold scale. cbn [fmul Binary64.arith].
  pose proof (sizes_nondecreasing (map size t) i j Hinc
                ltac:(rewrite length_map; lia)) as Hle.
  rewrite !(nth_indep (map size t) PrimFloat.nan (size r_last)) in Hle
    by (rewrite length_map; lia).
  rewrite !(map_nth size) in Hle.
  destruct Hinc as [Hok _]. rewrite Forall_forall in Hok.
  apply scaled_log2_mono; try assumption.
  - apply Hok, in_map, nth_In. lia.
  - apply Hok, in_map, nth_In. lia.
Qed.

Lemma search_curve_nondecreasing_witness :
  exists th : Series float,
    theoretical_logn (LF := Binary64.with_log2 Binary64.log2_ceil)
      (to_frame Binary64.scenario) = Ok th /\
    (nth 0 th nan <=? nth 1 th nan)%float = true.
Proof.
  destruct (search_curve_nondecreasing_binary64 Binary64.log2_ceil
              [mkRow 1000 1.0 0.5 1.5 2000 9965.784284662087]%float
              (mkRow 2000 2.2 1.0 3.2 2100 21931.568569324176)%float)
    as (th & E & _ & H).
  - exact log2_ceil_spec.
  - split.
    + repeat constructor.
    + intros [|[|i]] Hi; cbn in Hi; try lia. reflexivity.
  - reflexivity.
  - exists th. split; [exact E|]. apply H. cbn. lia.
Defined.

(** ** What can stop the driver *)

Section FailureModes.

Context {F : Type} `{AF : Arith F} `{LF : Log2 F} `{FF : Format F}.

Local Open Scope py_scope.
Local Open Scope string_scope.
Local Open Scope list_scope.

Implicit Types (df : DataFrame F) (fs : filesystem F).


Lemma iloc_last_cons (x : F) (s : Series F) : exists y, iloc_last (x :: s) = Ok y.
Proof.
  revert x. induction s as [|z s IH]; intros x; [now exists x|].
  destruct (IH z) as (y & E). exists y. exact E.
Qed.












End FailureModes.



(** A run in which the layout of the third figure fails with
    [ValueError]: two artifacts are written, and the exception is the one
    matplotlib raised. *)
Lemma driver_failure_in_layout :
  let PP := Binary64.layout_fails_at
              "/home/claude/suffix-array-project/docs/logarithmic_complexity.png" in
  let out := main (LF := Binary64.with_log2 Binary64.log2_pow2) (PP := PP)
                  (Binary64.only_csv (to_frame Binary64.pow2_table)) in
  saved_paths (fst out) = firstn 2 all_chart_paths /\
  snd out = Raise ValueError /\
  raised_by_pyplot (PP := PP) ValueError.
Proof.
  cbv zeta. split; [vm_compute; reflexivity|]. split; [vm_compute; reflexivity|].
  exists "/home/claude/suffix-array-project/docs/logarithmic_complexity.png"%string, [].
  reflexivity.
Qed.

(** ** The charts read columns by name *)

Section NamedColumns.

Context {F : Type} `{AF : Arith F} `{LF : Log2 F} `{FF : Format F}.

Local Open Scope py_scope.
Local Open Scope string_scope.
Local Open Scope list_scope.

Implicit Types (df : DataFrame F) (fs : filesystem F).

(** Reading a column of the row slice is slicing the column. *)
Lemma getitem_slice df (k : nat) (key : string) :
  getitem (mkDataFrame (columns df) (slice_from k 0 (values df))) key =
  match getitem df key with
  | Ok s => Ok (slice_from k 0 s)
  | Raise e => Raise e
  end.
Proof.
  unfold getitem. cbn [columns values].
  destruct (get_loc key (columns df)); [|reflexivity].
  now rewrite slice_from_map.
Qed.

Ltac same_column Hc key := rewrite (Hc key) by (cbn; auto 10).

Lemma overall_complexity_same df1 df2 :
  same_columns df1 df2 ->
  overall_complexity_figure df1 = overall_complexity_figure df2.
Proof.
  intros [Hl Hc]. unfold overall_complexity_figure, theoretical.
  same_column Hc "Size". same_column Hc "Total(ms)". same_column Hc "SA(ms)".
  same_column Hc "LCP(ms)". same_column Hc "n*log(n)". reflexivity.
Qed.

Lemma sa_vs_lcp_same df1 df2 :
  same_columns df1 df2 -> sa_vs_lcp_figure df1 = sa_vs_lcp_figure df2.
Proof.
  intros [Hl Hc]. unfold sa_vs_lcp_figure, ratio.
  same_column Hc "Size". same_column Hc "SA(ms)". same_column Hc "LCP(ms)".
  reflexivity.
Qed.

Lemma logarithmic_scale_same df1 df2 :
  same_columns df1 df2 ->
  logarithmic_scale_figure df1 = logarithmic_scale_figure df2.
Proof.
  intros [Hl Hc]. unfold logarithmic_scale_figure, y_n, y_nlogn.
  same_column Hc "Size". same_column Hc "Total(ms)". same_column Hc "SA(ms)".
  same_column Hc "LCP(ms)". reflexivity.
Qed.

Lemma search_performance_same df1 df2 :
  same_columns df1 df2 ->
  search_performance_figure df1 = search_performance_figure df2.
Proof.
  intros [Hl Hc]. unfold search_performance_figure, theoretical_logn, search_us.
  same_column Hc "Size". same_column Hc "Search(ns)". reflexivity.
Qed.

Lemma growth_rates_same df1 df2 :
  same_columns df1 df2 -> growth_rates_figure df1 = growth_rates_figure df2.
Proof.
  intros [Hl Hc].
  unfold growth_rates_figure, size_ratios, time_ratios, theoretical_ratios, x_pos.
  same_column Hc "Size". same_column Hc "Total(ms)". rewrite Hl. reflexivity.
Qed.

Lemma component_breakdown_same df1 df2 :
  same_columns df1 df2 ->
  component_breakdown_figure df1 = component_breakdown_figure df2.
Proof.
  intros [Hl Hc]. unfold component_breakdown_figure.
  assert (Hs : step df1 = step df2) by (unfold step; now rewrite Hl).
  rewrite !df_subset_ok. cbn [rbind].
  rewrite (len_df_subset df1 _ (df_subset_ok df1)),
    (len_df_subset df2 _ (df_subset_ok df2)), !getitem_slice.
  same_column Hc "Size". same_column Hc "SA(ms)". same_column Hc "LCP(ms)".
  rewrite Hs, Hl. reflexivity.
Qed.

End NamedColumns.

(** X9.  The run depends on the table only through its number of rows
    and the six named columns: two files whose frames have the same
    height and agree on these columns (whatever the order of the columns,
    and whatever other columns they hold) give the same printed lines,
    the same figures and the same result. *)
Theorem charts_depend_on_named_columns_only :
  forall (F : Type) (AF : Arith F) (LF : Log2 F) (FF : Format F)
         (PP : Pyplot F) (fs1 fs2 : filesystem F) (df1 df2 : DataFrame F),
    fs1 csv_path = Some (Ok df1) ->
    fs2 csv_path = Some (Ok df2) ->
    same_columns df1 df2 ->
    main fs1 = main fs2.
Proof.
  intros F AF LF FF PP fs1 fs2 df1 df2 H1 H2 Hs.
  unfold main, os_path_exists, load_data, read_csv. rewrite H1, H2.
  cbn [negb lift print io_bind].
  unfold plot_overall_complexity, plot_sa_vs_lcp, plot_logarithmic_scale,
    plot_search_performance, plot_growth_rates, plot_component_breakdown.
  rewrite (overall_complexity_same df1 df2 Hs), (sa_vs_lcp_same df1 df2 Hs),
    (logarithmic_scale_same df1 df2 Hs), (search_performance_same df1 df2 Hs),
    (growth_rates_same df1 df2 Hs), (component_breakdown_same df1 df2 Hs).
  reflexivity.
Qed.

Lemma charts_depend_on_named_columns_witness :
  main (LF := Binary64.with_log2 Binary64.log2_pow2)
       (PP := Binary64.always_saves)
       (Binary64.only_csv (to_frame Binary64.pow2_table)) =
  main (LF := Binary64.with_log2 Binary64.log2_pow2)
       (PP := Binary64.always_saves)
       (Binary64.only_csv Binary64.pow2_frame_reordered).
Proof.
  apply (charts_depend_on_named_columns_only float Binary64.arith
           (Binary64.with_log2 Binary64.log2_pow2) Binary64.format
           Binary64.always_saves _ _
           (to_frame Binary64.pow2_table) Binary64.pow2_frame_reordered).
  - reflexivity.
  - reflexivity.
  - split; [reflexivity|].
    intros key [<-|[<-|[<-|[<-|[<-|[<-|[]]]]]]]; reflexivity.
Defined.

(** ** The last bar of the component breakdown *)

(** X15.  For a non-empty table of N rows and step k = max(1, N // 10),
    the component-breakdown subset has (N - 1) / k + 1 rows and its last
    row is row ((N - 1) / k) * k of the table: the (N - 1) mod k rows
    after it are not drawn, so the last row of the table is drawn exactly
    when k divides N - 1 (always when N < 20). *)
Theorem component_breakdown_last_selected_row :
  forall (F : Type) (t : BenchmarkTable F),
    t <> [] ->
    let N := List.length t in
    let k := step (to_frame t) in
    exists sub : DataFrame F,
      df_subset (to_frame t) = Ok sub /\
      len sub = ((N - 1) / k + 1)%nat /\
      nth_error (values sub) (len sub - 1) =
        nth_error (values (to_frame t)) ((len sub - 1) * k) /\
      ((len sub - 1) * k + (N - 1) mod k = N - 1)%nat /\
      ((len sub - 1) * k = N - 1 <-> (N - 1) mod k = 0)%nat /\
      (N < 20 -> (len sub - 1) * k = N - 1)%nat.
Proof.
  intros F t Hne N k.
  assert (HN : (0 < N)%nat) by (unfold N; destruct t; [congruence|cbn; lia]).
  assert (Hk : (0 < k)%nat) by apply step_pos.
  destruct (subset_shape F t) as (sub & Hsub & _ & Hlen).
  fold N k in Hlen.
  assert (HL : len sub = ((N - 1) / k + 1)%nat).
  { rewrite Hlen. replace (N + k - 1)%nat with (N - 1 + 1 * k)%nat by lia.
    now rewrite Nat.div_add by lia. }
  exists sub. split; [exact Hsub|]. split; [exact HL|].
  pose proof (Nat.div_mod_eq (N - 1) k) as D.
  assert (HL1 : (len sub - 1 = (N - 1) / k)%nat) by lia.
  split; [|split; [|split]].
  - rewrite df_subset_ok in Hsub. injection Hsub as <-. cbn [values].
    fold k. rewrite slice_from_nth_error by exact Hk. reflexivity.
  - rewrite HL1. lia.
  - rewrite HL1. lia.
  - intros Hlt. rewrite HL1.
    assert (E : k = 1%nat).
    { apply (step_small (to_frame t)). now rewrite len_to_frame. }
    rewrite E, Nat.div_1_r. lia.
Qed.

Lemma component_breakdown_last_selected_row_witness :
  exists sub : DataFrame float,
    df_subset (to_frame Binary64.twenty_rows) = Ok sub /\
    len sub = 10%nat /\
    ((len sub - 1) * 2 + 1 = 19)%nat.
Proof.
  destruct (component_breakdown_last_selected_row float Binary64.twenty_rows)
    as (sub & E & L & _ & H & _).
  - discriminate.
  - exists sub. split; [exact E|]. split; [exact L|exact H].
Defined.

(** ** What each chart builder needs *)

Section Requirements.

Context {F : Type} `{AF : Arith F} `{LF : Log2 F} `{FF : Format F}.

Local Open Scope py_scope.
Local Open Scope string_scope.
Local Open Scope list_scope.

Implicit Types (df : DataFrame F).

Ltac lookup df key :=
  destruct (get_loc key (columns df)); cbn [rbind succeeds andb forallb];
  try reflexivity.

Ltac same_lengths :=
  unfold ax_plot, ax_bar, mul_scalar, div_scalar, log2_array, iloc_from1,
    iloc_upto_last;
  repeat (progress (cbn [map List.length tl];
                    rewrite ?length_map, ?elementwise_length, ?removelast_length,
                      ?length_seq, ?Nat.min_id, ?Nat.eqb_refl));
  cbn [rbind succeeds andb].

Lemma overall_complexity_requirements df :
  succeeds (overall_complexity_figure df) =
  has_columns df first_chart_columns && nonempty df.
Proof.
  unfold overall_complexity_figure, theoretical, getitem, has_columns,
    has_column, first_chart_columns, nonempty, len.
  cbn [forallb].
  lookup df "Size". lookup df "Total(ms)". same_lengths.
  lookup df "SA(ms)". same_lengths. lookup df "LCP(ms)". same_lengths.
  lookup df "n*log(n)".
  destruct (values df) as [|row rows]; [reflexivity|].
  cbn [map iloc_first rbind]. same_lengths. reflexivity.
Qed.

Lemma sa_vs_lcp_requirements df :
  succeeds (sa_vs_lcp_figure df) = has_columns df sa_vs_lcp_columns.
Proof.
  unfold sa_vs_lcp_figure, ratio, getitem, has_columns, has_column,
    sa_vs_lcp_columns.
  cbn [forallb].
  lookup df "Size". lookup df "SA(ms)". same_lengths.
  lookup df "LCP(ms)". same_lengths. reflexivity.
Qed.

Lemma logarithmic_scale_requirements df :
  succeeds (logarithmic_scale_figure df) =
  has_columns df logarithmic_scale_columns && nonempty df.
Proof.
  unfold logarithmic_scale_figure, y_n, y_nlogn, getitem, has_columns,
    has_column, logarithmic_scale_columns, nonempty, len.
  cbn [forallb].
  lookup df "Size". lookup df "Total(ms)". same_lengths.
  lookup df "SA(ms)". same_lengths. lookup df "LCP(ms)". same_lengths.
  destruct (values df) as [|row rows]; [reflexivity|].
  cbn [map iloc_first rbind]. same_lengths. reflexivity.
Qed.

Lemma iloc_last_succeeds (s : Series F) :
  succeeds (iloc_last s) = (0 <? List.length s)%nat.
Proof.
  destruct s as [|x s]; [reflexivity|].
  destruct (iloc_last_cons x s) as (y & ->). reflexivity.
Qed.




End Requirements.

Ltac by_columns df :=
  destruct (has_column df "Size"), (has_column df "SA(ms)"),
    (has_column df "LCP(ms)"), (has_column df "Total(ms)"),
    (has_column df "Search(ns)"), (has_column df "n*log(n)");
  cbn in *; try discriminate.

Section Completion.

Context {F : Type} `{AF : Arith F} `{LF : Log2 F} `{FF : Format F}
        {PP : Pyplot F}.

Local Open Scope py_scope.
Local Open Scope string_scope.
Local Open Scope list_scope.

Implicit Types (df : DataFrame F) (fs : filesystem F).




Lemma search_performance_missing df :
  has_column df "Search(ns)" = false ->
  search_performance_figure df = Raise (KeyError "Search(ns)").
Proof.
  unfold has_column, search_performance_figure, search_us, getitem.
  now destruct (get_loc "Search(ns)" (columns df)).
Qed.

(** Only the search column is missing: three charts are written, the
    fourth chart builder raises. *)
Lemma main_missing_search fs df :
  fs csv_path = Some (Ok df) ->
  has_columns df first_chart_columns = true -> nonempty df = true ->
  has_column df "Search(ns)" = false ->
  Forall written (firstn 3 (chart_figures df)) ->
  saved_paths (fst (main fs)) = firstn 3 all_chart_paths /\
  snd (main fs) = Raise (KeyError "Search(ns)").
Proof.
  intros Hfs Hc Hn Hs W.
  pose proof (overall_complexity_requirements df) as R1.
  pose proof (sa_vs_lcp_requirements df) as R2.
  pose proof (logarithmic_scale_requirements df) as R3.
  unfold has_columns, first_chart_columns, sa_vs_lcp_columns,
    logarithmic_scale_columns in *.
  cbn [forallb] in *. rewrite Hn in *.
  assert (S1 : succeeds (overall_complexity_figure df) = true
               /\ succeeds (sa_vs_lcp_figure df) = true
               /\ succeeds (logarithmic_scale_figure df) = true).
  { rewrite R1, R2, R3. by_columns df. repeat split. }
  destruct S1 as (S1 & S2 & S3).
  unfold chart_figures in W. cbn [firstn] in W.
  repeat match goal with
         | H : Forall written (_ :: _) |- _ => inversion H; subst; clear H
         end.
  run_main Hfs.
  repeat match goal with
         | H : written (?n, ?fig) |- _ =>
             let O := fresh "O" in
             pose proof (outcome_succeeds n fig ltac:(assumption) H) as O;
             destruct (chart_outcome n fig); [|discriminate O]; clear H O
         end.
  rewrite (search_performance_missing df Hs).
  split; reflexivity.
Qed.

End Completion.




(** Two runs on the same complete table: all six artifacts when
    matplotlib writes every figure, four when the layout of the fifth
    fails. *)
Lemma driver_completes_examples :
  let fs := Binary64.only_csv (to_frame Binary64.pow2_table) in
  saved_paths (fst (main (LF := Binary64.with_log2 Binary64.log2_pow2)
                         (PP := Binary64.always_saves) fs)) = all_chart_paths /\
  saved_paths (fst (main (LF := Binary64.with_log2 Binary64.log2_pow2)
                         (PP := Binary64.layout_fails_at
                                  "/home/claude/suffix-array-project/docs/growth_rates.png")
                         fs)) = firstn 4 all_chart_paths.
Proof. cbv zeta. split; vm_compute; reflexivity. Qed.

(** ** The loader *)

(** C7 (as amended).  The loader adds nothing to [pd.read_csv]: it
    returns the frame [read_csv] returns and raises what [read_csv]
    raises; it has no check for the required columns and no
    [MalformedTableError].  When [read_csv] raises, the driver stops after
    its first progress line, before any chart.  When [read_csv] returns a
    frame in which a required column is absent, the loader returns that
    frame, and the absence shows only when a chart builder reads the
    column, as a [KeyError]: when columns of the first chart are absent,
    the driver stops at the first of them in the order Size, Total(ms),
    SA(ms), LCP(ms), n*log(n), after its two progress lines and before any
    figure is saved; for the search-time column (the other columns
    present, at least one row, the first three figures written by
    matplotlib) the first three artifacts are written and the fourth
    chart builder raises [KeyError] for that column. *)
Theorem C7_loader_returns_table_unchecked :
  forall (F : Type) (AF : Arith F) (LF : Log2 F) (FF : Format F)
         (PP : Pyplot F) (fs : filesystem F),
    load_data fs csv_path = read_csv fs csv_path /\
    (forall parsed : result (DataFrame F),
        fs csv_path = Some parsed -> load_data fs csv_path = parsed) /\
    (forall e : exn,
        fs csv_path = Some (Raise e) ->
        main fs = ([Stdout "Loading benchmark data..."], Raise e)) /\
    (forall df : DataFrame F,
        fs csv_path = Some (Ok df) ->
        (forall c : string,
            find (fun key => negb (has_column df key)) first_chart_columns = Some c ->
            main fs =
              ([ Stdout "Loading benchmark data...";
                 Stdout (newline ++ "Generating plots...")%string ],
               Raise (KeyError c))) /\
        (has_columns df first_chart_columns = true ->
         nonempty df = true ->
         has_column df "Search(ns)" = false ->
         Forall written (firstn 3 (chart_figures df)) ->
         saved_paths (fst (main fs)) = firstn 3 all_chart_paths /\
         snd (main fs) = Raise (KeyError "Search(ns)"))).
Proof.
  intros F AF LF FF PP fs. split; [reflexivity|]. split; [|split].
  - intros parsed Hfs. unfold load_data, read_csv. now rewrite Hfs.
  - intros e Hfs. exact (main_rejected fs e Hfs).
  - intros df Hfs. split.
    + intros c Hmiss. exact (main_missing_column fs df c Hfs Hmiss).
    + intros Hc Hn Hs W. exact (main_missing_search fs df Hfs Hc Hn Hs W).
Qed.

Lemma C7_loader_witness :
  let df := Binary64.drop_search Binary64.scenario in
  let fs := Binary64.only_csv df in
  load_data fs csv_path = Ok df /\
  saved_paths (fst (main (LF := Binary64.with_log2 Binary64.log2_pow2)
                         (PP := Binary64.always_saves) fs)) =
    firstn 3 all_chart_paths /\
  snd (main (LF := Binary64.with_log2 Binary64.log2_pow2)
            (PP := Binary64.always_saves) fs) = Raise (KeyError "Search(ns)").
Proof.
  cbv zeta.
  destruct (C7_loader_returns_table_unchecked float Binary64.arith
              (Binary64.with_log2 Binary64.log2_pow2) Binary64.format
              Binary64.always_saves
              (Binary64.only_csv (Binary64.drop_search Binary64.scenario)))
    as (_ & Hload & _ & Hdf).
  split; [now apply Hload|].
  destruct (Hdf (Binary64.drop_search Binary64.scenario) eq_refl) as [_ Hsearch].
  apply Hsearch.
  - reflexivity.
  - reflexivity.
  - reflexivity.
  - repeat constructor.
Defined.

(** C7, counterexample.  A resource without the search-time column: the
    loader succeeds and returns it; the driver then saves the first three
    charts and only the fourth chart builder raises, with a [KeyError].
    And a file that [read_csv] rejects as empty: the loader raises the
    exception of [read_csv], not one of its own. *)
Lemma C7_loader_counterexample :
  let df := Binary64.drop_search Binary64.scenario in
  let fs := Binary64.only_csv df in
  get_loc "Search(ns)" (columns df) = None /\
  load_data fs csv_path = Ok df /\
  (forall log2 : float -> float,
      saved_paths (fst (main (LF := Binary64.with_log2 log2)
                             (PP := Binary64.always_saves) fs)) =
        [ "/home/claude/suffix-array-project/docs/overall_complexity.png";
          "/home/claude/suffix-array-project/docs/sa_vs_lcp.png";
          "/home/claude/suffix-array-project/docs/logarithmic_complexity.png" ]%string /\
      snd (main (LF := Binary64.with_log2 log2)
                (PP := Binary64.always_saves) fs) = Raise (KeyError "Search(ns)")) /\
  load_data (Binary64.rejected_csv (OtherError "EmptyDataError")) csv_path =
    Raise (OtherError "EmptyDataError").
Proof.
  cbv zeta. split; [reflexivity|]. split; [reflexivity|]. split; [|reflexivity].
  intros log2. split; vm_compute; reflexivity.
Qed.

(** ** A blank anchor *)

(** X18.  In binary64, when the total time of the first row is NaN (a
    blank cell), every point of the three curves anchored on it is NaN:
    the theoretical curve of the first chart and both reference curves of
    the log-log chart, whatever [np.log2] returns. *)
Theorem blank_first_total_blanks_the_curves :
  forall (log2 : float -> float) (r0 : BenchmarkRow float)
         (t' : BenchmarkTable float),
    let t := r0 :: t' in
    total_time_ms r0 = PrimFloat.nan ->
    theoretical (to_frame t) = Ok (map (fun _ => PrimFloat.nan) t) /\
    y_n (to_frame t) = Ok (map (fun _ => PrimFloat.nan) t) /\
    y_nlogn (LF := Binary64.with_log2 log2) (to_frame t) =
      Ok (map (fun _ => PrimFloat.nan) t).
Proof.
  intros log2 r0 t' t H. unfold t.
  rewrite theoretical_eq, y_n_eq, (y_nlogn_eq (LF := Binary64.with_log2 log2)).
  rewrite H. cbn [fmul fdiv Binary64.arith].
  repeat split; f_equal; apply map_ext; intros r.
  - apply mul_nan_r.
  - now rewrite mul_nan_r, div_nan_l.
  - now rewrite mul_nan_r, div_nan_l.
Qed.

Lemma blank_first_total_witness :
  theoretical (to_frame Binary64.blank_total_table) = Ok [PrimFloat.nan; PrimFloat.nan] /\
  y_n (to_frame Binary64.blank_total_table) = Ok [PrimFloat.nan; PrimFloat.nan].
Proof.
  destruct (blank_first_total_blanks_the_curves Binary64.log2_pow2
              (mkRow 1000 1.0 0.5 PrimFloat.nan 2000 9965.784284662087)%float
              [mkRow 2000 2.2 1.0 3.2 2100 21931.568569324176]%float eq_refl)
    as (H1 & H2 & _).
  split; [exact H1|exact H2].
Defined.

(** ** Confirmation lines *)

(** X19.  Whatever the file at [csv_path] holds, the lines of the form
    "Saved: <path>" that the driver prints are exactly the paths it
    wrote, in the same order: no artifact is written without its
    confirmation, and none is confirmed without being written. *)
Theorem confirmations_match_artifacts :
  forall (F : Type) (AF : Arith F) (LF : Log2 F) (FF : Format F)
         (PP : Pyplot F) (fs : filesystem F),
    filter is_confirmation (printed (fst (main fs))) =
    map (fun p => ("Saved: " ++ p)%string) (saved_paths (fst (main fs))).
Proof.
  intros F AF LF FF PP fs.
  destruct (fs csv_path) as [[df|e]|] eqn:Hfs.
  3: { now rewrite (main_absent fs Hfs). }
  2: { now rewrite (main_rejected fs e Hfs). }
  run_main Hfs.
  destruct (chart_outcome "overall_complexity.png" _) as [f1|e1]; [|reflexivity].
  destruct (chart_outcome "sa_vs_lcp.png" _) as [f2|e2]; [|reflexivity].
  destruct (chart_outcome "logarithmic_complexity.png" _) as [f3|e3]; [|reflexivity].
  destruct (chart_outcome "search_performance.png" _) as [f4|e4]; [|reflexivity].
  destruct (chart_outcome "growth_rates.png" _) as [f5|e5]; [|reflexivity].
  destruct (chart_outcome "component_breakdown.png" _) as [f6|e6]; reflexivity.
Qed.

(** ** binary64: the sign of the average ratio *)

Section MeanSign64.

Import Binary64.
Local Open Scope float_scope.

(** A non-negative double divided by a positive finite one is
    non-negative: the quotient is no NaN. *)
Lemma div_nonneg_by_finite_pos (x y : float) :
  nonneg x = true -> finite_pos y = true -> nonneg (x / y) = true.
Proof.
  unfold nonneg, finite_pos. rewrite div_spec. unfold SF64div.
  destruct (Prim2SF x) as [[|]|[|]| |[|] mx ex]; try discriminate;
  destruct (Prim2SF y) as [[|]|[|]| |[|] my ey]; try discriminate; intros _ _;
    try reflexivity.
  unfold SFdiv, SFdiv_core_binary. cbn [xorb].
  set (m' := match _ with Z.pos _ => _ | _ => _ end).
  assert (Hm : (0 <= m')%Z).
  { unfold m'. destruct (_ - _ - _)%Z; try lia.
    rewrite Z.shiftl_mul_pow2 by lia. apply Z.mul_nonneg_nonneg; lia. }
  pose proof (Z.div_pos m' (Z.pos my) Hm ltac:(lia)) as Hq.
  unfold Z.div in Hq.
  destruct (Z.div_eucl m' (Z.pos my)) as [q r]. cbn [fst] in Hq.
  now apply binary_round_aux_nonneg.
Qed.

Lemma count_notna_all_nan (s : Series float) :
  Forall (fun x => is_nan x = true) s -> count_notna s = 0%nat.
Proof.
  unfold count_notna. induction 1 as [|x s Hx _ IH]; [reflexivity|].
  cbn [filter isnan arith]. rewrite Hx. exact IH.
Qed.

Lemma mean_sign (s : Series float) :
  Forall nonneg_or_nan s ->
  (Z.of_nat (List.length s) < 2 ^ 52)%Z ->
  (Forall (fun x => is_nan x = true) s -> is_nan (mean s) = true) /\
  (Exists (fun x => is_nan x = false) s -> nonneg (mean s) = true).
Proof.
  intros Hs Hlen. split.
  - intros Hall. unfold mean. now rewrite (count_notna_all_nan s Hall).
  - intros Hex. apply Exists_exists in Hex. destruct Hex as (x & Hin & Hx).
    pose proof (count_notna_pos s x Hin Hx) as Hc.
    pose proof (count_notna_le s) as Hle.
    unfold mean. destruct (count_notna s) as [|n] eqn:En; [lia|].
    cbn [fdiv arith]. apply div_nonneg_by_finite_pos.
    + apply np_sum_nonneg; [|now apply fillna0_nonneg].
      apply fillna0_not_nil. intros ->. destruct Hin.
    + unfold of_nat. cbn [of_Z arith]. apply Z2F_finite_pos. lia.
Qed.

End MeanSign64.

(** X20.  In binary64, for non-negative SA and LCP times (fewer than
    2^52 rows), the reference constant of the ratio chart is NaN when
    every ratio is NaN (each row is 0/0 or infinity/infinity, or the
    table is empty); as soon as one ratio is not NaN it is a non-negative
    double, possibly +infinity, and no NaN. *)
Theorem average_ratio_nan_or_nonneg :
  forall t : BenchmarkTable float,
    Forall (fun row => Binary64.nonneg (sa_time_ms row) = true /\
                       Binary64.nonneg (lcp_time_ms row) = true) t ->
    (Z.of_nat (List.length t) < 2 ^ 52)%Z ->
    exists rs : Series float,
      ratio (to_frame t) = Ok rs /\
      (Forall (fun x => is_nan x = true) rs -> is_nan (mean rs) = true) /\
      (Exists (fun x => is_nan x = false) rs -> Binary64.nonneg (mean rs) = true).
Proof.
  intros t Ht Hlen. rewrite (ratio_eq t). eexists. split; [reflexivity|].
  apply mean_sign.
  - now apply ratio_entries_nonneg_or_nan.
  - now rewrite length_map.
Qed.

Lemma average_ratio_nan_or_nonneg_witness :
  exists rs : Series float,
    ratio (to_frame Binary64.zero_times_table) = Ok rs /\
    Binary64.nonneg (mean rs) = true.
Proof.
  destruct (average_ratio_nan_or_nonneg Binary64.zero_times_table)
    as (rs & E & _ & H).
  - repeat constructor.
  - cbn. lia.
  - exists rs. split; [exact E|]. apply H.
    rewrite (ratio_eq Binary64.zero_times_table) in E. injection E as <-.
    apply Exists_cons_tl, Exists_cons_hd. reflexivity.
Defined.
